(** * Klondike Solitaire: the rule and move engine of [solitaire.py]

    A shallow embedding of the game engine (cards, piles, deal, draw and
    recycle, drag and drop, double click, auto-complete, snapshot undo,
    scoring and win detection) together with the properties of its
    specification.

    Conventions of the embedding.
    - A Python list of cards is a Rocq list in the same order: index 0 is the
      bottom of a pile, the last element is its top ([cards[-1]]).
    - [Card] objects are compared by identity in Python (the class defines no
      [__eq__]).  A card record carries the identity of its object in the
      field [uid] next to the attributes of the object, and two records stand
      for the same object when they are equal.  [undo] and [new_game]
      construct fresh objects, so they draw fresh identities from the counter
      [next_uid].
    - Screen geometry ([x], [y], [rect], [update_positions]) only feeds the
      hit tests.  In the moves a pointer position is represented by the
      answers of those hit tests.  The hit tests of a click themselves are
      embedded in the part on screen geometry: the place of the one [rect]
      of every card object is kept in a map from object identities to
      coordinates, and coordinates are C ints as in [pygame.Rect].
    - A Python exception is the result [None] of an [option]-valued
      operation. *)

From Stdlib Require Import ZArith Lia Permutation.
From stdpp Require Import base option list.

Open Scope Z_scope.

(** ** Constants *)

Definition SCORE_TO_FOUNDATION : Z := 10.
Definition SCORE_REVEAL_CARD : Z := 5.
Definition SCORE_WASTE_TO_TABLEAU : Z := 5.
Definition SCORE_FOUNDATION_TO_TABLEAU : Z := -15.
Definition SCORE_RECYCLE_WASTE : Z := -20.

Inductive Suit := hearts | diamonds | clubs | spades.

Inductive Rank :=
  | RA | R2 | R3 | R4 | R5 | R6 | R7 | R8 | R9 | R10 | RJ | RQ | RK.

Inductive Color := red | black.

#[global] Instance Suit_eq_dec : EqDecision Suit.
Proof. solve_decision. Defined.
#[global] Instance Rank_eq_dec : EqDecision Rank.
Proof. solve_decision. Defined.
#[global] Instance Color_eq_dec : EqDecision Color.
Proof. solve_decision. Defined.

Definition SUITS : list Suit := [hearts; diamonds; clubs; spades].
Definition RANKS : list Rank :=
  [RA; R2; R3; R4; R5; R6; R7; R8; R9; R10; RJ; RQ; RK].

Definition RANK_VALUES (r : Rank) : Z :=
  match r with
  | RA => 1 | R2 => 2 | R3 => 3 | R4 => 4 | R5 => 5 | R6 => 6 | R7 => 7
  | R8 => 8 | R9 => 9 | R10 => 10 | RJ => 11 | RQ => 12 | RK => 13
  end.

(** ** class Card *)

Record Card := mkCard {
  uid : nat;
  suit : Suit;
  rank : Rank;
  face_up : bool
}.

#[global] Instance Card_eq_dec : EqDecision Card.
Proof. solve_decision. Defined.

(** [Card(suit, rank)]: a new object, face down. *)
Definition new_card (u : nat) (s : Suit) (r : Rank) : Card :=
  mkCard u s r false.

Definition set_face_up (b : bool) (c : Card) : Card :=
  mkCard (uid c) (suit c) (rank c) b.

Definition color (c : Card) : Color :=
  match suit c with
  | hearts | diamonds => red
  | _ => black
  end.

Definition value (c : Card) : Z := RANK_VALUES (rank c).

(** ** class Deck *)

Definition deck_of_suit (u : nat) (s : Suit) : list Card :=
  imap (fun i r => new_card (u + i) s r) RANKS.

(** [create_deck]: suits in the outer loop, ranks in the inner one.  The 52
    new objects take the identities [u .. u+51]. *)
Definition create_deck (u : nat) : list Card :=
  concat (imap (fun i s => deck_of_suit (u + 13 * i) s) SUITS).

(** [Deck.deal]: pop the last card, or [None] on an empty deck. *)
Definition deal (deck : list Card) : option Card * list Card :=
  match last deck with
  | Some c => (Some c, removelast deck)
  | None => (None, deck)
  end.

(** ** class Pile *)

Definition add_card (cards : list Card) (c : Card) : list Card :=
  cards ++ [c].

Definition add_cards (cards : list Card) (cs : list Card) : list Card :=
  cards ++ cs.

Definition top_card (cards : list Card) : option Card := last cards.

(** [remove_card]: the popped card (if any) and the remaining pile. *)
Definition remove_card (cards : list Card) : option Card * list Card :=
  match last cards with
  | Some c => (Some c, removelast cards)
  | None => (None, cards)
  end.

(** [list.index] under identity comparison: the first position that holds
    the object [card]. *)
Fixpoint index_of (card : Card) (cards : list Card) : option nat :=
  match cards with
  | [] => None
  | c :: rest =>
      if bool_decide (c = card) then Some 0%nat else S <$> index_of card rest
  end.

(** [remove_cards_from]: the removed run and the remaining pile. *)
Definition remove_cards_from (cards : list Card) (card : Card)
  : list Card * list Card :=
  match index_of card cards with
  | Some i => (drop i cards, take i cards)
  | None => ([], cards)
  end.

(** ** class TableauPile *)

Module TableauPile.

Definition can_add (cards : list Card) (card : Card) : bool :=
  match top_card cards with
  | None => bool_decide (rank card = RK)
  | Some top =>
      if negb (face_up top) then false
      else if bool_decide (color card = color top) then false
      else if negb (value card =? value top - 1) then false
      else true
  end.

Definition flip_top_card (cards : list Card) : list Card :=
  match last cards with
  | Some top =>
      if negb (face_up top)
      then removelast cards ++ [set_face_up true top]
      else cards
  | None => cards
  end.

End TableauPile.

(** ** class FoundationPile *)

Record FoundationPile := mkFoundation {
  f_suit : option Suit;
  f_cards : list Card
}.

Definition set_f_cards (f : FoundationPile) (cs : list Card) : FoundationPile :=
  mkFoundation (f_suit f) cs.

Module FoundationPile.

Definition can_add (f : FoundationPile) (card : Card) : bool :=
  match top_card (f_cards f) with
  | None => bool_decide (rank card = RA)
  | Some top =>
      if bool_decide (suit card ≠ suit top) then false
      else if negb (value card =? value top + 1) then false
      else true
  end.

End FoundationPile.

(** ** class Solitaire: the game state *)

(** The pile objects built once by [setup_piles]. *)
Inductive PileId :=
  | Stock
  | Waste
  | Foundation (i : nat)
  | Tableau (i : nat).

#[global] Instance PileId_eq_dec : EqDecision PileId.
Proof. solve_decision. Defined.

(** What [save_state] records of a card: [(c.suit, c.rank, c.face_up)]. *)
Definition CardState : Type := Suit * Rank * bool.

Record Snapshot := mkSnapshot {
  s_score : Z;
  s_stock : list CardState;
  s_waste : list CardState;
  s_foundations : list (list CardState);
  s_tableaus : list (list CardState)
}.

Record Game := mkGame {
  won : bool;
  score : Z;
  move_history : list Snapshot;
  stock : list Card;
  waste : list Card;
  foundations : list FoundationPile;
  tableaus : list (list Card);
  dragging : bool;
  dragged_cards : list Card;
  drag_source : option PileId;
  next_uid : nat
}.

Definition set_won (g : Game) (b : bool) : Game :=
  mkGame b (score g) (move_history g) (stock g) (waste g) (foundations g)
    (tableaus g) (dragging g) (dragged_cards g) (drag_source g) (next_uid g).

Definition set_score (g : Game) (s : Z) : Game :=
  mkGame (won g) s (move_history g) (stock g) (waste g) (foundations g)
    (tableaus g) (dragging g) (dragged_cards g) (drag_source g) (next_uid g).

Definition set_move_history (g : Game) (h : list Snapshot) : Game :=
  mkGame (won g) (score g) h (stock g) (waste g) (foundations g)
    (tableaus g) (dragging g) (dragged_cards g) (drag_source g) (next_uid g).

Definition set_stock (g : Game) (cs : list Card) : Game :=
  mkGame (won g) (score g) (move_history g) cs (waste g) (foundations g)
    (tableaus g) (dragging g) (dragged_cards g) (drag_source g) (next_uid g).

Definition set_waste (g : Game) (cs : list Card) : Game :=
  mkGame (won g) (score g) (move_history g) (stock g) cs (foundations g)
    (tableaus g) (dragging g) (dragged_cards g) (drag_source g) (next_uid g).

Definition set_foundations (g : Game) (fs : list FoundationPile) : Game :=
  mkGame (won g) (score g) (move_history g) (stock g) (waste g) fs
    (tableaus g) (dragging g) (dragged_cards g) (drag_source g) (next_uid g).

Definition set_tableaus (g : Game) (ts : list (list Card)) : Game :=
  mkGame (won g) (score g) (move_history g) (stock g) (waste g) (foundations g)
    ts (dragging g) (dragged_cards g) (drag_source g) (next_uid g).

Definition set_drag (g : Game) (d : bool) (cs : list Card) (src : option PileId)
  : Game :=
  mkGame (won g) (score g) (move_history g) (stock g) (waste g) (foundations g)
    (tableaus g) d cs src (next_uid g).

Definition set_next_uid (g : Game) (u : nat) : Game :=
  mkGame (won g) (score g) (move_history g) (stock g) (waste g) (foundations g)
    (tableaus g) (dragging g) (dragged_cards g) (drag_source g) u.

(** [pile.cards] of a pile object.  A reference always designates one of the
    piles built by [setup_piles]; an index outside them reads as an empty
    pile and writes nothing. *)
Definition pile_cards (g : Game) (p : PileId) : list Card :=
  match p with
  | Stock => stock g
  | Waste => waste g
  | Foundation i => default [] (f_cards <$> foundations g !! i)
  | Tableau i => default [] (tableaus g !! i)
  end.

Definition set_pile_cards (g : Game) (p : PileId) (cs : list Card) : Game :=
  match p with
  | Stock => set_stock g cs
  | Waste => set_waste g cs
  | Foundation i =>
      set_foundations g (alter (fun f => set_f_cards f cs) i (foundations g))
  | Tableau i => set_tableaus g (<[i := cs]> (tableaus g))
  end.

(** [setup_piles], with the initial fields of [__init__]. *)
Definition setup_piles : Game :=
  {| won := false; score := 0; move_history := [];
     stock := []; waste := [];
     foundations := (fun s => mkFoundation (Some s) []) <$> SUITS;
     tableaus := replicate 7 [];
     dragging := false; dragged_cards := []; drag_source := None;
     next_uid := 0 |}.

(** Moves the cards of [src] one by one, top first, face down onto [dst]:
    the loop [while src: card = src.pop(); card.face_up = False;
    dst.add_card(card)], which runs [len(src)] times. *)
Fixpoint pour_face_down (n : nat) (src dst : list Card)
  : list Card * list Card :=
  match n with
  | O => (src, dst)
  | S n' =>
      match remove_card src with
      | (Some card, src') =>
          pour_face_down n' src' (add_card dst (set_face_up false card))
      | (None, _) => (src, dst)
      end
  end.

(** The order of the deal: [for i in range(7): for j in range(i, 7)]. *)
Definition deal_order : list (nat * nat) :=
  i ← seq 0 7; (fun j => (i, j)) <$> seq i (7 - i).

Fixpoint deal_tableaus (order : list (nat * nat)) (deck : list Card)
    (ts : list (list Card)) : option (list Card * list (list Card)) :=
  match order with
  | [] => Some (deck, ts)
  | (i, j) :: order' =>
      match deal deck with
      | (Some card, deck') =>
          match ts !! j with
          | Some t =>
              deal_tableaus order' deck'
                (<[j := add_card t (set_face_up (i =? j)%nat card)]> ts)
          | None => None
          end
      | (None, _) => None
      end
  end.

(** [new_game].  [deck] is the deck after [Deck()] and [deck.shuffle()]: some
    arrangement of [create_deck (next_uid g)].  Dealing from an exhausted deck
    yields Python's [None], whose attribute access raises. *)
Definition new_game (g : Game) (deck : list Card) : option Game :=
  let g := set_won g false in
  let g := set_score g 0 in
  let g := set_move_history g [] in
  let g := set_stock g [] in
  let g := set_waste g [] in
  let g := set_foundations g ((fun f => set_f_cards f []) <$> foundations g) in
  let g := set_tableaus g ((fun _ : list Card => []) <$> tableaus g) in
  let g := set_next_uid g (next_uid g + 52) in
  '(deck, ts) ← deal_tableaus deal_order deck (tableaus g);
  let g := set_tableaus g ts in
  Some (set_stock g (pour_face_down (length deck) deck (stock g)).2).

Definition card_state (c : Card) : CardState := (suit c, rank c, face_up c).

Definition snapshot (g : Game) : Snapshot :=
  {| s_score := score g;
     s_stock := card_state <$> stock g;
     s_waste := card_state <$> waste g;
     s_foundations :=
       (fun f : FoundationPile => card_state <$> f_cards f) <$> foundations g;
     s_tableaus := (fun t : list Card => card_state <$> t) <$> tableaus g |}.

(** [save_state]: append, then evict the oldest entry beyond 100. *)
Definition save_state (g : Game) : Game :=
  let h := move_history g ++ [snapshot g] in
  set_move_history g (if (100 <? length h)%nat then tail h else h).

(** The cards rebuilt from a saved list, as new objects [u, u+1, ...]. *)
Definition restore_cards (u : nat) (st : list CardState) : list Card :=
  imap (fun i '(s, r, b) => set_face_up b (new_card (u + i) s r)) st.

(** [for i, state in enumerate(saved): piles[i].cards = ...]; an index past
    the pile list raises. *)
Fixpoint restore_foundations (u : nat) (fs : list FoundationPile)
    (sts : list (list CardState)) : option (list FoundationPile * nat) :=
  match sts with
  | [] => Some (fs, u)
  | st :: sts' =>
      match fs with
      | [] => None
      | f :: fs' =>
          '(fs'', u') ← restore_foundations (u + length st) fs' sts';
          Some (set_f_cards f (restore_cards u st) :: fs'', u')
      end
  end.

Fixpoint restore_tableaus (u : nat) (ts : list (list Card))
    (sts : list (list CardState)) : option (list (list Card) * nat) :=
  match sts with
  | [] => Some (ts, u)
  | st :: sts' =>
      match ts with
      | [] => None
      | _ :: ts' =>
          '(ts'', u') ← restore_tableaus (u + length st) ts' sts';
          Some (restore_cards u st :: ts'', u')
      end
  end.

(** [undo]: the returned boolean and the new state. *)
Definition undo (g : Game) : option (bool * Game) :=
  match last (move_history g) with
  | None => Some (false, g)
  | Some state =>
      let g := set_move_history g (removelast (move_history g)) in
      let g := set_score g (s_score state) in
      let u := next_uid g in
      let g := set_stock g (restore_cards u (s_stock state)) in
      let u := (u + length (s_stock state))%nat in
      let g := set_waste g (restore_cards u (s_waste state)) in
      let u := (u + length (s_waste state))%nat in
      '(fs, u) ← restore_foundations u (foundations g) (s_foundations state);
      let g := set_foundations g fs in
      '(ts, u) ← restore_tableaus u (tableaus g) (s_tableaus state);
      let g := set_tableaus g ts in
      let g := set_next_uid g u in
      Some (true, set_won g false)
  end.

Definition add_score (g : Game) (points : Z) : Game :=
  set_score g (Z.max 0 (score g + points)).

Definition draw_card_from_stock (g : Game) : Game :=
  let g := save_state g in
  match remove_card (stock g) with
  | (Some card, stock') =>
      let g := set_stock g stock' in
      set_waste g (add_card (waste g) (set_face_up true card))
  | (None, _) =>
      match waste g with
      | _ :: _ =>
          let g := add_score g SCORE_RECYCLE_WASTE in
          let '(w, s) := pour_face_down (length (waste g)) (waste g) (stock g) in
          set_stock (set_waste g w) s
      | [] => g
      end
  end.

Definition check_win (g : Game) : Game :=
  if forallb (fun f => (length (f_cards f) =? 13)%nat) (foundations g)
  then set_won g true
  else g.

(** The first pile of [l], in list order, that satisfies [p]; [i] is the
    index of the head of [l]. *)
Fixpoint find_index {A} (p : nat -> A -> bool) (i : nat) (l : list A)
  : option nat :=
  match l with
  | [] => None
  | x :: rest => if p i x then Some i else find_index p (S i) rest
  end.

(** The first foundation that accepts [card]: [for f in self.foundations:
    if f.can_add(card): ...; break]. *)
Definition accepting_foundation (g : Game) (card : Card) : option nat :=
  find_index (fun _ f => FoundationPile.can_add f card) 0%nat (foundations g).

(** The answers of [get_pile_at(pos)] and, on that pile, of
    [get_card_at(pos)] (an index into [pile.cards]). *)
Inductive Pointer :=
  | OnNothing
  | OnPile (p : PileId) (card : option nat).

(** The end of [start_drag]: a non-empty [dragged_cards] opens the drag
    session. *)
Definition open_drag (g : Game) (pile : PileId) : Game :=
  match dragged_cards g with
  | [] => g
  | _ :: _ => set_drag g true (dragged_cards g) (Some pile)
  end.

(** [start_drag].  On a waste or foundation pile the dragged list is
    [[pile.top_card()]].  On an empty pile this is the non-empty list
    [[None]], and the computation of [drag_offset] raises on
    [self.dragged_cards[0].x]: the result is [None].  On any other kind of
    pile the method returns at once. *)
Definition start_drag (g : Game) (pile : PileId) (card : Card) : option Game :=
  match pile with
  | Waste | Foundation _ =>
      match top_card (pile_cards g pile) with
      | Some top =>
          Some (open_drag (set_drag g (dragging g) [top] (drag_source g)) pile)
      | None => None
      end
  | Tableau _ =>
      let '(removed, rest) := remove_cards_from (pile_cards g pile) card in
      let g := set_pile_cards g pile rest in
      let g := set_drag g (dragging g) removed (drag_source g) in
      let g := set_pile_cards g pile (add_cards (pile_cards g pile) removed) in
      Some (open_drag g pile)
  | Stock => Some g
  end.

(** [handle_click]. *)
Definition handle_click (g : Game) (ptr : Pointer) : option Game :=
  match ptr with
  | OnNothing => Some g
  | OnPile Stock _ => Some (draw_card_from_stock g)
  | OnPile pile at_card =>
      match pile_cards g pile, at_card with
      | _ :: _, Some k =>
          match pile_cards g pile !! k with
          | Some card =>
              if face_up card then start_drag g pile card else Some g
          | None => Some g
          end
      | _, _ => Some g
      end
  end.

(** [find_drop_target]; [hit p] tells whether the expanded rectangle of pile
    [p] contains the release point. *)
Definition find_drop_target (g : Game) (hit : PileId -> bool) : option PileId :=
  match dragged_cards g with
  | [] => None
  | first_card :: _ =>
      let on_foundation :=
        if (length (dragged_cards g) =? 1)%nat
        then find_index
               (fun i f => hit (Foundation i) && FoundationPile.can_add f first_card)
               0%nat (foundations g)
        else None in
      match on_foundation with
      | Some i => Some (Foundation i)
      | None =>
          Tableau <$>
            find_index
              (fun i t => hit (Tableau i) && TableauPile.can_add t first_card)
              0%nat (tableaus g)
      end
  end.

(** [if t.cards and not t.cards[-1].face_up: t.flip_top_card();
    self.add_score(SCORE_REVEAL_CARD)], done for tableau sources only. *)
Definition reveal (g : Game) (pile : PileId) : Game :=
  match pile with
  | Tableau _ =>
      match top_card (pile_cards g pile) with
      | Some top =>
          if negb (face_up top)
          then add_score
                 (set_pile_cards g pile
                    (TableauPile.flip_top_card (pile_cards g pile)))
                 SCORE_REVEAL_CARD
          else g
      | None => g
      end
  | _ => g
  end.

(** The valid-drop branch of [handle_drop], in its steps.  Removal of the
    dragged run from the source: [remove_cards_from(dragged_cards[0])] on a
    tableau, otherwise one [remove_card()] per dragged card.  (A drop target
    is only found for a non-empty run, so [dragged_cards[0]] exists.) *)
Definition remove_run (g : Game) (src : PileId) : Game :=
  match src with
  | Tableau _ =>
      match dragged_cards g with
      | first_card :: _ =>
          set_pile_cards g src
            (remove_cards_from (pile_cards g src) first_card).2
      | [] => g
      end
  | _ =>
      set_pile_cards g src
        (Nat.iter (length (dragged_cards g)) (fun cs => (remove_card cs).2)
           (pile_cards g src))
  end.

(** The score of the drop: the [isinstance] cascade on target and source. *)
Definition score_drop (g : Game) (src target : PileId) : Game :=
  match target with
  | Foundation _ =>
      add_score g (SCORE_TO_FOUNDATION * Z.of_nat (length (dragged_cards g)))
  | Tableau _ =>
      match src with
      | Waste => add_score g SCORE_WASTE_TO_TABLEAU
      | Foundation _ => add_score g SCORE_FOUNDATION_TO_TABLEAU
      | _ => g
      end
  | _ => g
  end.

(** (The value [will_flip] computed in [handle_drop] is never read.) *)
Definition execute_drop (g : Game) (src target : PileId) : Game :=
  let g := save_state g in
  let g := remove_run g src in
  let g :=
    set_pile_cards g target (add_cards (pile_cards g target) (dragged_cards g)) in
  let g := score_drop g src target in
  reveal g src.

(** [handle_drop].  While [dragging] holds, every path dereferences
    [drag_source]; were it [None], Python would raise. *)
Definition handle_drop (g : Game) (hit : PileId -> bool) : option Game :=
  if negb (dragging g) then Some g
  else
    let g := set_drag g false (dragged_cards g) (drag_source g) in
    src ← drag_source g;
    let g :=
      match find_drop_target g hit with
      | Some target =>
          if bool_decide (target ≠ src) then execute_drop g src target else g
      | None => g
      end in
    Some (check_win (set_drag g (dragging g) [] None)).

(** The move of the top card [card] of [pile] to foundation [i], as the
    double click and both scans of [auto_move_to_foundation] perform it:
    [pile.remove_card(); f.add_card(card); add_score(SCORE_TO_FOUNDATION)]
    and, from a tableau, the reveal. *)
Definition to_foundation (g : Game) (pile : PileId) (card : Card) (i : nat)
  : Game :=
  let g := set_pile_cards g pile (remove_card (pile_cards g pile)).2 in
  let g :=
    set_pile_cards g (Foundation i) (add_card (pile_cards g (Foundation i)) card) in
  let g := add_score g SCORE_TO_FOUNDATION in
  reveal g pile.

(** The double-click branch of [run]. *)
Definition double_click (g : Game) (ptr : Pointer) : Game :=
  match ptr with
  | OnPile ((Waste | Tableau _) as pile) _ =>
      match top_card (pile_cards g pile) with
      | Some card =>
          match accepting_foundation g card with
          | Some i => check_win (to_foundation (save_state g) pile card i)
          | None => g
          end
      | None => g
      end
  | _ => g
  end.

(** One iteration of the [while moved] loop, first part: the waste. *)
Definition auto_waste (g : Game) : Game * bool :=
  match top_card (waste g) with
  | Some card =>
      match accepting_foundation g card with
      | Some i => (to_foundation g Waste card i, true)
      | None => (g, false)
      end
  | None => (g, false)
  end.

(** Second part: [for t in self.tableaus].  The test [if moved: break]
    stands inside [if t.cards:], so the loop passes over empty tableaus and
    is left at the first non-empty tableau after which [moved] holds (also
    when the waste set it). *)
Fixpoint auto_tableaus (idx : list nat) (g : Game) (moved : bool)
  : Game * bool :=
  match idx with
  | [] => (g, moved)
  | i :: idx' =>
      match top_card (pile_cards g (Tableau i)) with
      | Some card =>
          let '(g, moved) :=
            match accepting_foundation g card with
            | Some k => (to_foundation g (Tableau i) card k, true)
            | None => (g, moved)
            end in
          if moved then (g, moved) else auto_tableaus idx' g moved
      | None => auto_tableaus idx' g moved
      end
  end.

Definition auto_pass (g : Game) : Game * bool :=
  let '(g, moved) := auto_waste g in
  auto_tableaus (seq 0 (length (tableaus g))) g moved.

(** [while moved]; [None] when [fuel] iterations do not reach the exit. *)
Fixpoint auto_loop (fuel : nat) (g : Game) : option Game :=
  match fuel with
  | O => None
  | S fuel' =>
      let '(g, moved) := auto_pass g in
      if moved then auto_loop fuel' g else Some g
  end.

Definition auto_move_to_foundation (fuel : nat) (g : Game) : option Game :=
  g ← auto_loop fuel (save_state g);
  Some (check_win g).

(** ** The event loop [run] *)

Inductive Event :=
  | KeyN (deck : list Card)
  | KeyU
  | KeyA (fuel : nat)
  | Click (ptr : Pointer)
  | DoubleClick (ptr : Pointer)
  | Release (hit : PileId -> bool).

(** What the environment can deliver.  A new game shuffles a freshly created
    deck.  The left button is pressed only after it was released, and a drag
    lasts from a press to the next release, so no press arrives during a drag;
    keys arrive at any time. *)
Definition event_ok (g : Game) (e : Event) : Prop :=
  match e with
  | KeyN deck => Permutation deck (create_deck (next_uid g))
  | Click _ | DoubleClick _ => dragging g = false
  | _ => True
  end.

Definition handle_event (g : Game) (e : Event) : option Game :=
  match e with
  | KeyN deck => new_game g deck
  | KeyU => snd <$> undo g
  | KeyA fuel => auto_move_to_foundation fuel g
  | Click ptr => handle_click g ptr
  | DoubleClick ptr => Some (double_click g ptr)
  | Release hit => handle_drop g hit
  end.

(** The states of a session: [Solitaire()] deals a first game, then [run]
    handles events. *)
Inductive reachable : Game -> Prop :=
  | reach_init deck g :
      Permutation deck (create_deck 0) ->
      new_game setup_piles deck = Some g ->
      reachable g
  | reach_event g e g' :
      reachable g -> event_ok g e -> handle_event g e = Some g' ->
      reachable g'.

(** [event_ok], decided. *)
Definition event_okb (g : Game) (e : Event) : bool :=
  match e with
  | KeyN deck => bool_decide (Permutation deck (create_deck (next_uid g)))
  | Click _ | DoubleClick _ => negb (dragging g)
  | _ => true
  end.

(** A run of the event loop over a list of events the environment can
    deliver. *)
Fixpoint play (g : Game) (es : list Event) : option Game :=
  match es with
  | [] => Some g
  | e :: es' =>
      if event_okb g e then g' ← handle_event g e; play g' es' else None
  end.

(** ** Notions used by the properties *)

(** What a player sees of a card: its suit, its rank and the side it
    shows. *)
Definition shown (c : Card) : Suit * Rank * bool :=
  (suit c, rank c, face_up c).

(** What a player sees of the game: the score and, for the stock, the waste,
    each foundation and each tableau, the cards from the bottom to the
    top. *)
Definition view (g : Game)
  : Z * list (Suit * Rank * bool) * list (Suit * Rank * bool)
    * list (list (Suit * Rank * bool)) * list (list (Suit * Rank * bool)) :=
  (score g,
   shown <$> stock g,
   shown <$> waste g,
   (fun f : FoundationPile => shown <$> f_cards f) <$> foundations g,
   (fun t : list Card => shown <$> t) <$> tableaus g).

(** The moves of the game, each with the state it leads to: a stock click,
    a drop that finds a target other than the source, a double click whose
    card some foundation accepts, and an auto-complete run. *)
Inductive legal_move (g : Game) : Game -> Prop :=
  | move_draw :
      legal_move g (draw_card_from_stock g)
  | move_drop hit src target g' :
      dragging g = true ->
      drag_source g = Some src ->
      find_drop_target g hit = Some target ->
      target <> src ->
      handle_drop g hit = Some g' ->
      legal_move g g'
  | move_double_click pile at_card card i :
      pile = Waste \/ (exists k, pile = Tableau k) ->
      top_card (pile_cards g pile) = Some card ->
      accepting_foundation g card = Some i ->
      legal_move g (double_click g (OnPile pile at_card))
  | move_auto fuel g' :
      auto_move_to_foundation fuel g = Some g' ->
      legal_move g g'.

(** The fields that no move changes except through [save_state]: the undo
    history and the pile objects themselves (the number of tableaus, the
    suit markers of the foundations). *)
Definition frame (g : Game) : list Snapshot * nat * list (option Suit) :=
  (move_history g, length (tableaus g), f_suit <$> foundations g).

(** The cards that auto-complete can still move: a bound on its passes. *)
Definition movable_cards (g : Game) : nat :=
  (length (waste g) + length (concat (tableaus g)))%nat.

(** The score delta of a move of [n] cards by the kinds of its source and
    destination, as the specification words it. *)
Definition move_delta (src target : PileId) (n : nat) : Z :=
  match target, src with
  | Foundation _, _ => 10 * Z.of_nat n
  | Tableau _, Waste => 5
  | Tableau _, Foundation _ => -15
  | _, _ => 0
  end.

(** ** The shape of the piles *)

Definition suit_color (s : Suit) : Color :=
  match s with
  | hearts | diamonds => red
  | _ => black
  end.

(** [above] may lie on [below] in a tableau run: the other colour, one
    less in value. *)
Definition stackable (below above : CardState) : Prop :=
  suit_color above.1.1 <> suit_color below.1.1
  /\ RANK_VALUES above.1.2 = RANK_VALUES below.1.2 - 1.

(** Two neighbours [x] (below) and [y] (above) of a tableau: over a face-up
    card lies a face-up card that continues the run. *)
Definition link (x y : CardState) : Prop :=
  x.2 = true -> y.2 = true /\ stackable x y.

Fixpoint ordered (v : list CardState) : Prop :=
  match v with
  | [] => True
  | x :: rest => (forall y, head rest = Some y -> link x y) /\ ordered rest
  end.

Definition top_up (v : list CardState) : Prop :=
  forall x, last v = Some x -> x.2 = true.

Definition all_up (v : list CardState) : Prop :=
  Forall (fun x : CardState => x.2 = true) v.

(** What holds of the cards of a pile between two events. *)
Definition pile_ok (p : PileId) (v : list CardState) : Prop :=
  match p with
  | Stock => True
  | Waste | Foundation _ => all_up v
  | Tableau _ => ordered v /\ top_up v
  end.

(** The same while the top card of a tableau may still await its flip. *)
Definition pile_weak (p : PileId) (v : list CardState) : Prop :=
  match p with
  | Tableau _ => ordered v
  | _ => pile_ok p v
  end.

Definition piles_ok (g : Game) : Prop :=
  forall p, pile_ok p (card_state <$> pile_cards g p).

Definition piles_ok_except (g : Game) (src : PileId) : Prop :=
  pile_weak src (card_state <$> pile_cards g src)
  /\ forall p, p <> src -> pile_ok p (card_state <$> pile_cards g p).

Definition snap_ok (s : Snapshot) : Prop :=
  0 <= s_score s
  /\ all_up (s_waste s)
  /\ Forall all_up (s_foundations s)
  /\ Forall (fun v => ordered v /\ top_up v) (s_tableaus s)
  /\ length (s_foundations s) = 4%nat
  /\ length (s_tableaus s) = 7%nat.

(** The drag session. *)
Definition drag_state (g : Game) : bool * list Card * option PileId :=
  (dragging g, dragged_cards g, drag_source g).

Definition drag_ok (g : Game) : Prop :=
  all_up (card_state <$> dragged_cards g)
  /\ ordered (card_state <$> dragged_cards g)
  /\ (dragging g = true -> is_Some (drag_source g)).

(** The invariant of a session. *)
Record Inv (g : Game) : Prop := mkInv {
  inv_score : 0 <= score g;
  inv_piles : piles_ok g;
  inv_history : Forall snap_ok (move_history g);
  inv_tableaus : length (tableaus g) = 7%nat;
  inv_markers : f_suit <$> foundations g = Some <$> SUITS;
  inv_drag : drag_ok g
}.

(** The longest suffix (the top part) of a pile made of face-up cards. *)
Fixpoint face_up_suffix (cards : list Card) : list Card :=
  match cards with
  | [] => []
  | _ :: rest => if forallb face_up cards then cards else face_up_suffix rest
  end.

(** Each card lying on another one has the other colour and a value one
    less. *)
Definition descending_alternating (run : list Card) : Prop :=
  forall i below above,
    run !! i = Some below ->
    run !! S i = Some above ->
    color above <> color below /\ value above = value below - 1.

(** All four foundations complete. *)
Definition all_complete (g : Game) : bool :=
  forallb (fun f => (length (f_cards f) =? 13)%nat) (foundations g).

(** What all moves leave alone or only improve: the drag session is
    untouched and a score that is not negative stays so. *)
Definition steady (g g' : Game) : Prop :=
  drag_state g' = drag_state g /\ (0 <= score g -> 0 <= score g').

(** ** A sample session *)

(** A release point that lies in the drop zone of pile [p] only. *)
Definition only (p : PileId) : PileId -> bool :=
  fun q => bool_decide (q = p).

(** A shuffle, as positions in the fresh deck from the bottom of the shuffled
    deck to its top, that deals the hearts, the diamonds and the two lowest
    clubs onto the tableaus in an order auto-complete can clear, and leaves
    the other clubs and the spades in the stock in ascending draw order. *)
Definition winning_order : list nat :=
  [28; 29; 30; 31; 32; 33; 34; 35; 36; 37; 38; 39; 40;
   41; 42; 43; 44; 45; 46; 47; 48; 49; 50; 51; 21; 22;
   15; 23; 16; 10; 24; 17; 11; 6; 25; 18; 12; 7; 3;
   26; 19; 13; 8; 4; 1; 27; 20; 14; 9; 5; 2; 0]%nat.

Definition winning_deck : list Card :=
  omap (fun i => create_deck 0 !! i) winning_order.

(** The game dealt from [winning_deck] when the program starts. *)
Definition first_game : Game :=
  Eval vm_compute in default setup_piles (new_game setup_piles winning_deck).

(** Auto-complete, then 24 times: click the stock, release, auto-complete. *)
Definition winning_play : list Event :=
  KeyA 30
  :: mjoin (replicate 24 [Click (OnPile Stock None); Release (only Stock); KeyA 30]).

Definition won_game : Game :=
  Eval vm_compute in default setup_piles (play first_game winning_play).

(** After the win, the king of hearts is dragged from its foundation onto
    the empty first tableau. *)
Definition king_move : list Event :=
  [Click (OnPile (Foundation 0) (Some 12%nat)); Release (only (Tableau 0))].

Definition king_moved_game : Game :=
  Eval vm_compute in default setup_piles (play won_game king_move).

(** From [first_game]: the ace of hearts goes to the first foundation by a
    double click, then the two of hearts is picked up from the second
    tableau, where it covers a face-down card. *)
Definition pick_up_two : list Event :=
  [DoubleClick (OnPile (Tableau 0) (Some 0%nat));
   Click (OnPile (Tableau 1) (Some 1%nat))].

Definition drag_game : Game :=
  Eval vm_compute in default setup_piles (play first_game pick_up_two).

(** From [first_game]: the whole stock has been drawn. *)
Definition drawn_game : Game :=
  Eval vm_compute in Nat.iter 24 draw_card_from_stock first_game.

(** From [drag_game]: the two of hearts is dropped on the first
    foundation. *)
Definition dropped_game : Game :=
  Eval vm_compute in
    default setup_piles (handle_drop drag_game (only (Foundation 0))).

(** From [first_game]: a card is drawn, the ace of hearts is picked up from
    the first tableau and, with the button held, the draw is undone. *)
Definition undo_in_drag : list Event :=
  [Click (OnPile Stock None); Release (only Stock);
   Click (OnPile (Tableau 0) (Some 0%nat)); KeyU].

Definition stale_game : Game :=
  Eval vm_compute in default setup_piles (play first_game undo_in_drag).

(** From [first_game]: the three of clubs is drawn and dragged onto the
    four of hearts of the third tableau, then the two of hearts is dragged
    from the second tableau onto the three of clubs. *)
Definition build_run : list Event :=
  [Click (OnPile Stock None); Release (only Stock);
   Click (OnPile Waste (Some 0%nat)); Release (only (Tableau 2));
   Click (OnPile (Tableau 1) (Some 1%nat)); Release (only (Tableau 2))].

Definition run_game : Game :=
  Eval vm_compute in default setup_piles (play first_game build_run).

(** The session [winning_play] before its last auto-complete: the king of
    spades lies on the waste and every other card on its foundation. *)
Definition last_card_game : Game :=
  Eval vm_compute in
    default setup_piles (play first_game (removelast winning_play)).

(** ** Notions used by the further properties *)

(** The face of a card that never changes. *)
Definition card_face (c : Card) : Suit * Rank := (suit c, rank c).

(** The 52 faces of a deck, suit by suit. *)
Definition all_faces : list (Suit * Rank) :=
  s ← SUITS; (fun r => (s, r)) <$> RANKS.

(** A foundation builds up one suit from the Ace: the card at position [k]
    (from the bottom) has value [k+1], and all cards share a suit. *)
Definition ascending (v : list CardState) : Prop :=
  exists s : Suit,
    forall (k : nat) (x : CardState),
      v !! k = Some x -> x.1.1 = s /\ RANK_VALUES x.1.2 = Z.of_nat k + 1.

Definition all_down (v : list CardState) : Prop :=
  Forall (fun x : CardState => x.2 = false) v.

(** What holds, besides [pile_ok], of the stock and the foundations. *)
Definition pile_built (p : PileId) (v : list CardState) : Prop :=
  match p with
  | Stock => all_down v
  | Foundation _ => ascending v
  | _ => True
  end.

Definition snap_built (s : Snapshot) : Prop :=
  all_down (s_stock s) /\ Forall ascending (s_foundations s).

(** A condition [Q] on the piles, pile by pile. *)
Definition all_piles (Q : PileId -> list CardState -> Prop) (g : Game) : Prop :=
  forall p, Q p (card_state <$> pile_cards g p).

(** The second invariant of a session: stock face down and foundations
    built up, now and in every saved snapshot. *)
Record Built (g : Game) : Prop := {
  built_piles : forall p, pile_built p (card_state <$> pile_cards g p);
  built_history : Forall snap_built (move_history g)
}.

(** What a card object is, apart from the side it shows. *)
Definition card_id (c : Card) : nat * Suit * Rank := (uid c, suit c, rank c).

(** All cards on the table, pile after pile. *)
Definition table_cards (g : Game) : list Card :=
  stock g ++ waste g ++ concat (f_cards <$> foundations g)
  ++ concat (tableaus g).

(** The pile objects that exist: [foundations[i]] and [tableaus[i]] within
    the two lists. *)
Definition pile_exists (g : Game) (p : PileId) : Prop :=
  match p with
  | Foundation i => (i < length (foundations g))%nat
  | Tableau i => (i < length (tableaus g))%nat
  | _ => True
  end.

(** The events that move cards between the piles (the other two rebuild the
    table). *)
Definition is_move (e : Event) : bool :=
  match e with
  | KeyN _ | KeyU => false
  | _ => true
  end.

(** During a drag, the dragged run is the top of its source pile, and on a
    tableau the first dragged card does not occur below the run. *)
Definition drag_consistent (g : Game) : Prop :=
  dragging g = true ->
  forall src,
    drag_source g = Some src ->
    exists below,
      pile_cards g src = below ++ dragged_cards g
      /\ match src with
         | Tableau _ =>
             forall c, head (dragged_cards g) = Some c -> c ∉ below
         | _ => True
         end.

(** ** Screen geometry *)

Definition SCREEN_WIDTH : Z := 1024.
Definition CARD_WIDTH : Z := 80.
Definition CARD_HEIGHT : Z := 110.
Definition CARD_GAP : Z := 30.
Definition TABLEAU_OFFSET : Z := 25.

(** A [pygame.Rect] stores its four numbers as C ints. *)
Definition INT_MIN : Z := -2147483648.
Definition INT_MAX : Z := 2147483647.

Definition is_int (z : Z) : bool := (INT_MIN <=? z) && (z <=? INT_MAX).

(** The sum of two C ints; beyond [INT_MAX] it wraps around. *)
Definition int_add (a b : Z) : Z :=
  (a + b - INT_MIN) mod 4294967296 + INT_MIN.

Record Rect := mkRect { r_x : Z; r_y : Z; r_w : Z; r_h : Z }.

(** [Rect.collidepoint], for a point with C int coordinates (the position of
    a mouse event): inside when [px >= x && px < x + w && py >= y &&
    py < y + h], the sums being sums of C ints. *)
Definition collidepoint (r : Rect) (pos : Z * Z) : bool :=
  (r_x r <=? pos.1) && (pos.1 <? int_add (r_x r) (r_w r))
  && (r_y r <=? pos.2) && (pos.2 <? int_add (r_y r) (r_h r)).

(** The top left corner of the [rect] of every card object, by the identity
    of the object.  A card object has one [rect], wherever it is listed; it
    is created at (0, 0). *)
Definition Places : Type := nat -> Z * Z.

Definition fresh_places : Places := fun _ => (0, 0).

(** [Card.set_position]: the assignment to [rect.topleft] raises when a
    coordinate is no C int. *)
Definition set_position (pl : Places) (c : Card) (xy : Z * Z)
  : option Places :=
  if is_int xy.1 && is_int xy.2
  then Some (fun u => if decide (u = uid c) then xy else pl u)
  else None.

Definition card_rect (pl : Places) (c : Card) : Rect :=
  mkRect (pl (uid c)).1 (pl (uid c)).2 CARD_WIDTH CARD_HEIGHT.

(** [Card.contains_point]. *)
Definition contains_point (pl : Places) (c : Card) (pos : Z * Z) : bool :=
  collidepoint (card_rect pl c) pos.

(** [Pile.update_positions]: every card to the place of the pile. *)
Fixpoint update_positions (xy : Z * Z) (cards : list Card) (pl : Places)
  : option Places :=
  match cards with
  | [] => Some pl
  | c :: rest => pl ← set_position pl c xy; update_positions xy rest pl
  end.

(** The place of card [i] of a tableau at [xy]: [i * offset] below the place
    of the pile, with the offset of the card itself (25 face up, [25 // 2]
    face down). *)
Definition tableau_place (xy : Z * Z) (i : nat) (c : Card) : Z * Z :=
  let offset := if face_up c then TABLEAU_OFFSET else TABLEAU_OFFSET / 2 in
  (xy.1, xy.2 + Z.of_nat i * offset).

(** [TableauPile.update_positions], from card [i] on. *)
Fixpoint tableau_update_from (i : nat) (xy : Z * Z) (cards : list Card)
    (pl : Places) : option Places :=
  match cards with
  | [] => Some pl
  | c :: rest =>
      pl ← set_position pl c (tableau_place xy i c);
      tableau_update_from (S i) xy rest pl
  end.

Definition tableau_update_positions (xy : Z * Z) (cards : list Card)
    (pl : Places) : option Places :=
  tableau_update_from 0 xy cards pl.

(** [get_card_at], the same in [Pile] and in [TableauPile]: the first card in
    [reversed(self.cards)] that contains the point and is face up. *)
Definition get_card_at (pl : Places) (cards : list Card) (pos : Z * Z)
  : option Card :=
  List.find (fun c => contains_point pl c pos && face_up c) (reverse cards).

(** The places given to the piles by [setup_piles]: four foundations and
    seven tableaus. *)
Definition pile_xy (p : PileId) : Z * Z :=
  match p with
  | Stock => (50, 50)
  | Waste => (50 + CARD_WIDTH + CARD_GAP, 50)
  | Foundation i =>
      (SCREEN_WIDTH - 4 * (CARD_WIDTH + CARD_GAP) + CARD_GAP
       + Z.of_nat i * (CARD_WIDTH + CARD_GAP), 50)
  | Tableau i => (50 + Z.of_nat i * (CARD_WIDTH + CARD_GAP + 10), 200)
  end.

Definition pile_rect (p : PileId) : Rect :=
  mkRect (pile_xy p).1 (pile_xy p).2 CARD_WIDTH CARD_HEIGHT.

(** The test of [get_pile_at] for the waste and for a foundation: the top
    card, or the rectangle of an empty pile. *)
Definition on_pile (pl : Places) (g : Game) (p : PileId) (pos : Z * Z)
  : bool :=
  match top_card (pile_cards g p) with
  | Some top => contains_point pl top pos
  | None => collidepoint (pile_rect p) pos
  end.

(** The test of [get_pile_at] for a tableau: any of its cards, or the
    rectangle of an empty pile. *)
Definition on_tableau (pl : Places) (g : Game) (i : nat) (pos : Z * Z)
  : bool :=
  existsb (fun c => contains_point pl c pos)
    (reverse (pile_cards g (Tableau i)))
  || (bool_decide (pile_cards g (Tableau i) = [])
      && collidepoint (pile_rect (Tableau i)) pos).

(** [get_pile_at]: stock, waste, foundations and tableaus in this order. *)
Definition get_pile_at (pl : Places) (g : Game) (pos : Z * Z)
  : option PileId :=
  if collidepoint (pile_rect Stock) pos then Some Stock
  else if on_pile pl g Waste pos then Some Waste
  else
    match find_index (fun i _ => on_pile pl g (Foundation i) pos) 0%nat
            (foundations g) with
    | Some i => Some (Foundation i)
    | None =>
        Tableau <$> find_index (fun i _ => on_tableau pl g i pos) 0%nat
                      (tableaus g)
    end.

(** What [handle_click(pos)] learns from [get_pile_at] and [get_card_at]. *)
Definition pointer_at (pl : Places) (g : Game) (pos : Z * Z) : Pointer :=
  match get_pile_at pl g pos with
  | Some p =>
      OnPile p (card ← get_card_at pl (pile_cards g p) pos;
                index_of card (pile_cards g p))
  | None => OnNothing
  end.

(** Every card of the waste, of the foundations and of the tableaus lies
    where the [update_positions] of its pile puts it: no card has been
    dragged away, and no card object is held at two places. *)
Definition in_place (pl : Places) (g : Game) : bool :=
  forallb (fun c => bool_decide (pl (uid c) = pile_xy Waste)) (waste g)
  && forallb id
       (imap (fun i f =>
                forallb (fun c => bool_decide
                                    (pl (uid c) = pile_xy (Foundation i)))
                  (f_cards f))
          (foundations g))
  && forallb id
       (imap (fun k t =>
                forallb id
                  (imap (fun j c =>
                           bool_decide
                             (pl (uid c)
                              = tableau_place (pile_xy (Tableau k)) j c))
                     t))
          (tableaus g)).

(** The [update_positions] of the class of a pile. *)
Definition pile_update_positions (g : Game) (p : PileId) (pl : Places)
  : option Places :=
  match p with
  | Tableau _ => tableau_update_positions (pile_xy p) (pile_cards g p) pl
  | _ => update_positions (pile_xy p) (pile_cards g p) pl
  end.

(** All piles update their positions, one after the other. *)
Definition lay_out (g : Game) (pl : Places) : option Places :=
  foldl (fun acc p => pl ← acc; pile_update_positions g p pl) (Some pl)
    (Stock :: Waste :: (Foundation <$> seq 0 4) ++ (Tableau <$> seq 0 7)).

(** The places of the cards in [first_game], and in [drag_game] before the
    pointer moves. *)
Definition first_places : Places :=
  default fresh_places (lay_out first_game fresh_places).

Definition drag_places : Places :=
  default first_places (lay_out drag_game first_places).

(** * Properties *)

(** ** Pile legality *)

Lemma top_card_snoc (cards : list Card) (c : Card) :
  top_card (cards ++ [c]) = Some c.
Proof. unfold top_card. apply last_snoc. Qed.

Lemma top_card_nil : top_card [] = None.
Proof. reflexivity. Qed.

(** C5. A foundation accepts a card on an empty pile exactly when the card is
    an Ace; on a pile whose top card is [top] exactly when the card has the
    suit of the cards held (the suit of [top]) and the value of [top] plus
    one. *)
Theorem foundation_can_add_spec :
  (forall (marker : option Suit) (card : Card),
      FoundationPile.can_add (mkFoundation marker []) card = true
      <-> rank card = RA)
  /\ (forall (marker : option Suit) (below : list Card) (top card : Card),
         FoundationPile.can_add (mkFoundation marker (below ++ [top])) card = true
         <-> suit card = suit top /\ value card = value top + 1).
Proof.
  split.
  - intros marker card. unfold FoundationPile.can_add. simpl.
    apply bool_decide_eq_true.
  - intros marker below top card. unfold FoundationPile.can_add. simpl.
    rewrite top_card_snoc.
    case_bool_decide as Hs.
    + split; [discriminate | intros [? _]; contradiction].
    + destruct (Z.eqb_spec (value card) (value top + 1)); simpl.
      * split; auto.
      * split; [discriminate | intros [_ ?]; contradiction].
Qed.

(** C6. A tableau accepts a card on an empty pile exactly when the card is a
    King; on a pile whose top card is [top] exactly when [top] is face up,
    the colours differ and the card's value is the value of [top] minus one;
    never when the top card is face down. *)
Theorem tableau_can_add_spec :
  (forall card : Card,
      TableauPile.can_add [] card = true <-> rank card = RK)
  /\ (forall (below : list Card) (top card : Card),
         TableauPile.can_add (below ++ [top]) card = true
         <-> face_up top = true
             /\ color card <> color top
             /\ value card = value top - 1)
  /\ (forall (below : list Card) (top card : Card),
         TableauPile.can_add (below ++ [set_face_up false top]) card = false).
Proof.
  split; [|split].
  - intros card. unfold TableauPile.can_add. simpl. apply bool_decide_eq_true.
  - intros below top card. unfold TableauPile.can_add.
    rewrite top_card_snoc.
    destruct (face_up top); simpl.
    + case_bool_decide as Hc.
      * split; [discriminate | intros (_ & ? & _); contradiction].
      * destruct (Z.eqb_spec (value card) (value top - 1)); simpl.
        -- split; auto.
        -- split; [discriminate | intros (_ & _ & ?); contradiction].
    + split; [discriminate | intros (? & _); discriminate].
  - intros below top card. unfold TableauPile.can_add.
    rewrite top_card_snoc. reflexivity.
Qed.

(** ** Stock, waste and the recycle *)

Lemma remove_card_snoc (cards : list Card) (c : Card) :
  remove_card (cards ++ [c]) = (Some c, cards).
Proof.
  unfold remove_card. rewrite last_snoc. f_equal. apply removelast_last.
Qed.

Lemma pour_face_down_all (src dst : list Card) :
  pour_face_down (length src) src dst
  = ([], dst ++ (set_face_up false <$> reverse src)).
Proof.
  revert dst. induction src as [|c src IH] using rev_ind; intros dst.
  - simpl. by rewrite app_nil_r.
  - rewrite length_app, Nat.add_comm. simpl.
    rewrite remove_card_snoc, IH. unfold add_card.
    rewrite reverse_snoc, fmap_cons. by rewrite <- app_assoc.
Qed.

(** The score, history and drag fields are not what a draw is about; the
    piles after a draw from a non-empty stock. *)
Lemma draw_from_stock_piles (g : Game) (below : list Card) (c : Card) :
  stock g = below ++ [c] ->
  stock (draw_card_from_stock g) = below
  /\ waste (draw_card_from_stock g) = waste g ++ [set_face_up true c].
Proof.
  intros Hs. unfold draw_card_from_stock.
  assert (Hst : stock (save_state g) = below ++ [c]) by exact Hs.
  rewrite Hst, remove_card_snoc. simpl. done.
Qed.

Lemma draws_replay (cs : list Card) :
  forall (g : Game) (base : list Card),
    stock g = base ++ reverse cs ->
    stock (Nat.iter (length cs) draw_card_from_stock g) = base
    /\ waste (Nat.iter (length cs) draw_card_from_stock g)
       = waste g ++ (set_face_up true <$> cs).
Proof.
  induction cs as [|c cs IH] using rev_ind; intros g base Hs.
  - simpl in *. rewrite app_nil_r in *. done.
  - rewrite length_app, Nat.add_comm. simpl.
    rewrite reverse_snoc in Hs.
    destruct (IH g (base ++ [c])) as [IHs IHw].
    { rewrite Hs. by rewrite <- app_assoc. }
    destruct (draw_from_stock_piles _ _ _ IHs) as [-> ->].
    rewrite IHw, fmap_app. simpl. by rewrite <- app_assoc.
Qed.

(** The piles after a recycle, and after drawing the recycled cards
    again. *)
Lemma recycle_piles (g : Game) :
  stock g = [] ->
  waste g <> [] ->
  let g' := draw_card_from_stock g in
  waste g' = []
  /\ stock g' = (set_face_up false <$> reverse (waste g))
  /\ score g' = Z.max 0 (score g - 20)
  /\ stock (Nat.iter (length (waste g)) draw_card_from_stock g') = []
  /\ waste (Nat.iter (length (waste g)) draw_card_from_stock g')
     = (set_face_up true <$> waste g).
Proof.
  intros Hs Hw g'.
  assert (Hg' : waste g' = []
                /\ stock g' = (set_face_up false <$> reverse (waste g))
                /\ score g' = Z.max 0 (score g - 20)).
  { subst g'. unfold draw_card_from_stock.
    assert (Hst : stock (save_state g) = []) by exact Hs.
    rewrite Hst. simpl.
    destruct (waste g) as [|w ws] eqn:Ew; [done|].
    rewrite Hs, pour_face_down_all. simpl. done. }
  destruct Hg' as (Hw' & Hs' & Hsc).
  pose proof (draws_replay (set_face_up false <$> waste g) g' []) as H.
  rewrite length_fmap in H. destruct H as [H1 H2].
  { simpl. rewrite Hs'. by rewrite fmap_reverse. }
  repeat split; try done.
  rewrite H2, Hw'. simpl. rewrite <- list_fmap_compose.
  apply list_fmap_ext. by intros ? [].
Qed.

Lemma fmap_card_id_set_face_up (b : bool) (cards : list Card) :
  card_id <$> (set_face_up b <$> cards) = card_id <$> cards.
Proof. rewrite <- list_fmap_compose. by apply list_fmap_ext. Qed.

Lemma fmap_face_up_set_face_up (b : bool) (cards : list Card) :
  face_up <$> (set_face_up b <$> cards) = replicate (length cards) b.
Proof. induction cards as [|c cards IH]; [done|]. simpl. by rewrite <- IH. Qed.

(** C4. With an empty stock and a non-empty waste, [draw_card_from_stock]
    recycles: the waste becomes empty; the stock holds the card objects of
    the former waste in reversed order, every one of them face down; the
    score drops by the recycle penalty of 20 and is floored at 0; and drawing
    as many cards again empties the stock and rebuilds the former waste, the
    same card objects in the same order, every one of them face up. *)
Theorem recycle_spec (g : Game) :
  stock g = [] ->
  waste g <> [] ->
  let g' := draw_card_from_stock g in
  let g'' := Nat.iter (length (waste g)) draw_card_from_stock g' in
  waste g' = []
  /\ card_id <$> stock g' = reverse (card_id <$> waste g)
  /\ face_up <$> stock g' = replicate (length (waste g)) false
  /\ score g' = Z.max 0 (score g - 20)
  /\ stock g'' = []
  /\ card_id <$> waste g'' = card_id <$> waste g
  /\ face_up <$> waste g'' = replicate (length (waste g)) true.
Proof.
  intros Hs Hw g' g''.
  destruct (recycle_piles g Hs Hw) as (Hw' & Hs' & Hsc & Hs'' & Hw'').
  fold g' in Hw', Hs', Hsc, Hs'', Hw''. fold g'' in Hs'', Hw''.
  rewrite Hs', Hw''.
  rewrite !fmap_card_id_set_face_up, !fmap_face_up_set_face_up.
  by rewrite fmap_reverse, length_reverse.
Qed.

(** ** The deal *)

Lemma create_deck_length (u : nat) : length (create_deck u) = 52%nat.
Proof. reflexivity. Qed.

(** C7. [new_game] on a shuffled fresh deck succeeds; afterwards tableau [j]
    holds [j+1] cards, all face down but the last, the stock holds 24
    face-down cards, waste and foundations are empty, the score is 0, the win
    flag is cleared and the undo history is empty. *)
Theorem new_game_deal (g : Game) (deck : list Card) :
  length (tableaus g) = 7%nat ->
  Permutation deck (create_deck (next_uid g)) ->
  exists g',
    new_game g deck = Some g'
    /\ (forall j, (j < 7)%nat ->
          exists t, tableaus g' !! j = Some t
                    /\ length t = S j
                    /\ face_up <$> t = replicate j false ++ [true])
    /\ length (stock g') = 24%nat
    /\ face_up <$> stock g' = replicate 24 false
    /\ waste g' = []
    /\ Forall (fun f => f_cards f = []) (foundations g')
    /\ score g' = 0
    /\ won g' = false
    /\ move_history g' = [].
Proof.
  intros Ht Hp.
  apply Permutation_length in Hp. rewrite create_deck_length in Hp.
  destruct g as [w sc h st wa fs ts dr dc ds nu]. simpl in Ht.
  do 8 (destruct ts as [|? ts]; try discriminate Ht).
  do 53 (destruct deck as [|? deck]; try discriminate Hp).
  clear Hp Ht.
  match goal with
  | |- exists g', ?x = _ /\ _ =>
      let y := eval vm_compute in x in change x with y
  end.
  eexists; split; [reflexivity|].
  repeat split.
  - intros j Hj.
    do 7 (destruct j as [|j]; [eexists; repeat split; reflexivity|]). lia.
  - simpl. clear. induction fs; constructor; auto.
Qed.

(** ** Snapshots and undo *)

Lemma restore_cards_view (u : nat) (st : list CardState) :
  card_state <$> restore_cards u st = st.
Proof.
  unfold restore_cards. revert u.
  induction st as [|[[s r] b] st IH]; intros u; [done|].
  simpl. f_equal.
  rewrite <- (IH (S u)) at 2. f_equal.
  apply imap_ext. intros i [[s' r'] b'] _. simpl.
  by rewrite Nat.add_succ_r.
Qed.

Lemma restore_foundations_view (sts : list (list CardState)) :
  forall (u : nat) (fs : list FoundationPile),
    length fs = length sts ->
    exists fs' u',
      restore_foundations u fs sts = Some (fs', u')
      /\ (fun f : FoundationPile => card_state <$> f_cards f) <$> fs' = sts
      /\ f_suit <$> fs' = f_suit <$> fs.
Proof.
  induction sts as [|st sts IH]; intros u fs Hlen.
  - destruct fs; [|done]. by exists [], u.
  - destruct fs as [|f fs]; [done|]. simpl in Hlen.
    destruct (IH (u + length st)%nat fs) as (fs' & u' & E & Hv & Hm); [lia|].
    exists (set_f_cards f (restore_cards u st) :: fs'), u'.
    simpl. rewrite E. simpl. split; [done|]. split.
    + f_equal; [apply restore_cards_view | exact Hv].
    + f_equal. exact Hm.
Qed.

Lemma restore_tableaus_view (sts : list (list CardState)) :
  forall (u : nat) (ts : list (list Card)),
    length ts = length sts ->
    exists ts' u',
      restore_tableaus u ts sts = Some (ts', u')
      /\ (fun t : list Card => card_state <$> t) <$> ts' = sts.
Proof.
  induction sts as [|st sts IH]; intros u ts Hlen.
  - destruct ts; [|done]. by exists [], u.
  - destruct ts as [|t ts]; [done|]. simpl in Hlen.
    destruct (IH (u + length st)%nat ts) as (ts' & u' & E & Hv); [lia|].
    exists (restore_cards u st :: ts'), u'.
    simpl. rewrite E. simpl. split; [done|].
    f_equal; [apply restore_cards_view | exact Hv].
Qed.

(** [undo] with a non-empty history whose last snapshot fits the piles:
    no exception, the snapshot is what the piles and the score show
    afterwards, the win flag is cleared, the history lost its last entry. *)
Lemma undo_restores (g : Game) (h : list Snapshot) (s : Snapshot) :
  move_history g = h ++ [s] ->
  length (s_foundations s) = length (foundations g) ->
  length (s_tableaus s) = length (tableaus g) ->
  exists g',
    undo g = Some (true, g')
    /\ snapshot g' = s
    /\ move_history g' = h
    /\ won g' = false
    /\ f_suit <$> foundations g' = f_suit <$> foundations g
    /\ dragging g' = dragging g
    /\ dragged_cards g' = dragged_cards g
    /\ drag_source g' = drag_source g.
Proof.
  intros Hh Hf Ht. unfold undo. rewrite Hh, last_snoc, removelast_last.
  simpl.
  destruct (restore_foundations_view (s_foundations s)
              (next_uid g + length (s_stock s) + length (s_waste s))%nat
              (foundations g)) as (fs' & u' & E1 & Hv1 & Hm); [done|].
  rewrite E1. simpl.
  destruct (restore_tableaus_view (s_tableaus s) u' (tableaus g))
    as (ts' & u'' & E2 & Hv2); [done|].
  rewrite E2. simpl.
  eexists. split; [reflexivity|].
  unfold snapshot. simpl.
  rewrite !restore_cards_view, Hv1, Hv2.
  repeat split; try done. by destruct s.
Qed.

Lemma save_state_history (g : Game) :
  exists h, move_history (save_state g) = h ++ [snapshot g].
Proof.
  unfold save_state. simpl.
  destruct (move_history g) as [|s0 h]; [by exists []|].
  destruct (100 <? length ((s0 :: h) ++ [snapshot g]))%nat.
  - by exists h.
  - by exists (s0 :: h).
Qed.

(** ** The frame of the moves *)

#[local] Arguments to_foundation : simpl never.
#[local] Arguments reveal : simpl never.
#[local] Arguments execute_drop : simpl never.
#[local] Arguments remove_run : simpl never.
#[local] Arguments score_drop : simpl never.
#[local] Arguments set_pile_cards : simpl never.
#[local] Arguments pile_cards : simpl never.
#[local] Arguments save_state : simpl never.
#[local] Arguments add_score : simpl never.
#[local] Arguments check_win : simpl never.
#[local] Arguments accepting_foundation : simpl never.
#[local] Arguments auto_pass : simpl never.
#[local] Arguments auto_waste : simpl never.

Lemma alter_set_f_cards_marker (fs : list FoundationPile) (i : nat)
    (cs : list Card) :
  f_suit <$> alter (fun f => set_f_cards f cs) i fs = f_suit <$> fs.
Proof.
  revert i. induction fs as [|f fs IH]; intros [|i]; simpl; try done.
  f_equal. apply IH.
Qed.

Lemma frame_set_pile_cards (g : Game) (p : PileId) (cs : list Card) :
  frame (set_pile_cards g p cs) = frame g.
Proof.
  destruct p; unfold frame; simpl; try done.
  - by rewrite alter_set_f_cards_marker.
  - by rewrite length_insert.
Qed.

Lemma frame_add_score (g : Game) (z : Z) : frame (add_score g z) = frame g.
Proof. done. Qed.

Lemma frame_set_drag (g : Game) d cs src :
  frame (set_drag g d cs src) = frame g.
Proof. done. Qed.

Lemma frame_check_win (g : Game) : frame (check_win g) = frame g.
Proof. unfold check_win. by destruct (forallb _ _). Qed.

Lemma frame_reveal (g : Game) (p : PileId) : frame (reveal g p) = frame g.
Proof.
  unfold reveal. destruct p; try done.
  destruct (top_card _) as [top|]; [|done].
  destruct (negb (face_up top)); [|done].
  by rewrite frame_add_score, frame_set_pile_cards.
Qed.

Lemma frame_to_foundation (g : Game) (p : PileId) (c : Card) (i : nat) :
  frame (to_foundation g p c i) = frame g.
Proof.
  unfold to_foundation.
  by rewrite frame_reveal, frame_add_score, !frame_set_pile_cards.
Qed.

Lemma frame_remove_run (g : Game) (src : PileId) :
  frame (remove_run g src) = frame g.
Proof.
  unfold remove_run. destruct src; try apply frame_set_pile_cards.
  destruct (dragged_cards g); [done|apply frame_set_pile_cards].
Qed.

Lemma frame_score_drop (g : Game) (src target : PileId) :
  frame (score_drop g src target) = frame g.
Proof. by destruct target, src. Qed.

Lemma frame_execute_drop (g : Game) (src target : PileId) :
  frame (execute_drop g src target) = frame (save_state g).
Proof.
  unfold execute_drop.
  by rewrite frame_reveal, frame_score_drop, frame_set_pile_cards,
    frame_remove_run.
Qed.

Lemma frame_auto_waste (g : Game) : frame (auto_waste g).1 = frame g.
Proof.
  unfold auto_waste. destruct (top_card _); [|done].
  destruct (accepting_foundation _ _); [|done].
  apply frame_to_foundation.
Qed.

Lemma frame_auto_tableaus (idx : list nat) :
  forall g moved, frame (auto_tableaus idx g moved).1 = frame g.
Proof.
  induction idx as [|i idx IH]; intros g moved; [done|]. simpl.
  destruct (top_card _) as [card|].
  - destruct (accepting_foundation g card).
    + simpl. apply frame_to_foundation.
    + destruct moved; [done|apply IH].
  - apply IH.
Qed.

Lemma frame_auto_pass (g : Game) : frame (auto_pass g).1 = frame g.
Proof.
  unfold auto_pass. pose proof (frame_auto_waste g) as Hw.
  destruct (auto_waste g) as [g1 moved]. simpl in Hw.
  by rewrite frame_auto_tableaus.
Qed.

Lemma frame_auto_loop (fuel : nat) :
  forall g g', auto_loop fuel g = Some g' -> frame g' = frame g.
Proof.
  induction fuel as [|fuel IH]; intros g g' H; [done|]. simpl in H.
  pose proof (frame_auto_pass g) as Hp.
  destruct (auto_pass g) as [g1 moved]. simpl in Hp.
  destruct moved.
  - rewrite (IH _ _ H). exact Hp.
  - congruence.
Qed.

Lemma frame_draw_card_from_stock (g : Game) :
  frame (draw_card_from_stock g) = frame (save_state g).
Proof.
  unfold draw_card_from_stock.
  destruct (remove_card (stock (save_state g))) as [[card|] stock'];
    [done|].
  destruct (waste (save_state g)); [done|].
  by destruct (pour_face_down _ _ _).
Qed.

Lemma undo_after_save (g0 g' : Game) :
  frame g' = frame (save_state g0) ->
  exists g'', undo g' = Some (true, g'') /\ snapshot g'' = snapshot g0.
Proof.
  intros Hf. destruct (save_state_history g0) as [h Hh].
  assert (Hhist : move_history g' = move_history (save_state g0))
    by exact (f_equal (fun x => x.1.1) Hf).
  assert (Hlen : length (tableaus g') = length (tableaus g0))
    by exact (f_equal (fun x => x.1.2) Hf).
  assert (Hmark : f_suit <$> foundations g' = f_suit <$> foundations g0)
    by exact (f_equal snd Hf).
  rewrite Hh in Hhist.
  destruct (undo_restores g' h (snapshot g0)) as (g'' & Hu & Hs & _).
  - exact Hhist.
  - apply (f_equal length) in Hmark. rewrite !length_fmap in Hmark.
    simpl. rewrite length_fmap, Hmark. done.
  - simpl. rewrite length_fmap, Hlen. done.
  - by exists g''.
Qed.

(** ** Termination of auto-complete *)

Lemma concat_insert_length (ts : list (list Card)) (k : nat) (t t' : list Card) :
  ts !! k = Some t ->
  (length (concat (<[k:=t']> ts)) + length t
   = length (concat ts) + length t')%nat.
Proof.
  revert k. induction ts as [|t0 ts IH]; intros [|k] H; simpl in *; try done.
  - simplify_eq. rewrite !length_app. lia.
  - rewrite !length_app. specialize (IH k H). lia.
Qed.

Lemma flip_top_card_length (cards : list Card) :
  length (TableauPile.flip_top_card cards) = length cards.
Proof.
  unfold TableauPile.flip_top_card.
  destruct (last cards) as [top|] eqn:E; [|done].
  destruct (negb (face_up top)); [|done].
  apply last_Some in E as [pre ->].
  by rewrite removelast_last, !length_app.
Qed.

Lemma movable_to_foundation (g : Game) (p : PileId) (c : Card) (i : nat) :
  p = Waste \/ (exists k, p = Tableau k) ->
  top_card (pile_cards g p) = Some c ->
  (movable_cards (to_foundation g p c i) < movable_cards g)%nat.
Proof.
  intros Hp Htop. apply last_Some in Htop as [pre Hpre].
  destruct Hp as [->|[k ->]]; unfold to_foundation, movable_cards.
  - unfold pile_cards in Hpre. rewrite Hpre.
    unfold reveal, add_score, set_pile_cards, pile_cards. simpl.
    rewrite Hpre, remove_card_snoc, length_app. simpl. lia.
  - unfold pile_cards in Hpre.
    destruct (tableaus g !! k) as [t|] eqn:Et; simpl in Hpre; [|by destruct pre].
    subst t.
    assert (Hk : (k < length (tableaus g))%nat) by (eapply lookup_lt_Some; eauto).
    pose proof (concat_insert_length _ _ _ pre Et) as H1.
    rewrite length_app in H1. simpl in H1.
    unfold reveal, add_score, set_pile_cards, pile_cards. simpl.
    rewrite Et. simpl. rewrite remove_card_snoc. simpl.
    rewrite list_lookup_insert_eq by done. simpl.
    destruct (top_card pre) as [top|]; simpl; [|lia].
    destruct (negb (face_up top)); simpl; [|lia].
    rewrite list_insert_insert_eq.
    pose proof (concat_insert_length _ _ _ (TableauPile.flip_top_card pre) Et) as H2.
    rewrite flip_top_card_length, length_app in H2. simpl in H2. lia.
Qed.

Lemma movable_auto_waste (g : Game) :
  (movable_cards (auto_waste g).1 <= movable_cards g)%nat
  /\ ((auto_waste g).2 = true ->
      (movable_cards (auto_waste g).1 < movable_cards g)%nat).
Proof.
  unfold auto_waste.
  destruct (top_card (waste g)) as [card|] eqn:Et; simpl; [|split; [lia|done]].
  destruct (accepting_foundation g card) as [i|]; simpl; [|split; [lia|done]].
  pose proof (movable_to_foundation g Waste card i (or_introl eq_refl) Et).
  split; [lia|done].
Qed.

Lemma movable_auto_tableaus (idx : list nat) :
  forall g moved,
    (movable_cards (auto_tableaus idx g moved).1 <= movable_cards g)%nat
    /\ ((auto_tableaus idx g moved).2 = true ->
        moved = true
        \/ (movable_cards (auto_tableaus idx g moved).1 < movable_cards g)%nat).
Proof.
  induction idx as [|i idx IH]; intros g moved; simpl.
  - split; [lia|auto].
  - destruct (top_card (pile_cards g (Tableau i))) as [card|] eqn:Et.
    + destruct (accepting_foundation g card) as [k|]; simpl.
      * pose proof (movable_to_foundation g (Tableau i) card k
                      (or_intror (ex_intro _ i eq_refl)) Et).
        split; [lia|auto].
      * destruct moved; simpl; [split; [lia|auto]|apply IH].
    + apply IH.
Qed.

Lemma movable_auto_pass (g : Game) :
  (auto_pass g).2 = true ->
  (movable_cards (auto_pass g).1 < movable_cards g)%nat.
Proof.
  unfold auto_pass. pose proof (movable_auto_waste g) as [Hle Hlt].
  destruct (auto_waste g) as [g1 moved]. simpl in *.
  pose proof (movable_auto_tableaus (seq 0 (length (tableaus g1))) g1 moved)
    as [Hle' Hlt'].
  intros Hm. destruct (Hlt' Hm) as [->|?]; [|lia].
  specialize (Hlt eq_refl). lia.
Qed.

Lemma auto_loop_total (fuel : nat) :
  forall g, (movable_cards g < fuel)%nat -> is_Some (auto_loop fuel g).
Proof.
  induction fuel as [|fuel IH]; intros g Hlt; [lia|]. simpl.
  pose proof (movable_auto_pass g) as Hp.
  destruct (auto_pass g) as [g1 moved]. simpl in Hp.
  destruct moved; [|done].
  apply IH. specialize (Hp eq_refl). lia.
Qed.

Lemma auto_move_total (fuel : nat) (g : Game) :
  (movable_cards g < fuel)%nat ->
  is_Some (auto_move_to_foundation fuel g).
Proof.
  intros Hlt. unfold auto_move_to_foundation.
  destruct (auto_loop_total fuel (save_state g)) as [g1 E]; [exact Hlt|].
  rewrite E. done.
Qed.

(** Two states with the same snapshot look the same. *)
Lemma view_of_snapshot (g1 g2 : Game) :
  snapshot g1 = snapshot g2 -> view g1 = view g2.
Proof.
  unfold snapshot. intros H. injection H as Hscore Hstock Hwaste Hf Ht.
  change (shown <$> stock g1 = shown <$> stock g2) in Hstock.
  change (shown <$> waste g1 = shown <$> waste g2) in Hwaste.
  change ((fun f : FoundationPile => shown <$> f_cards f) <$> foundations g1
          = (fun f : FoundationPile => shown <$> f_cards f) <$> foundations g2)
    in Hf.
  change ((fun t : list Card => shown <$> t) <$> tableaus g1
          = (fun t : list Card => shown <$> t) <$> tableaus g2) in Ht.
  unfold view. by rewrite Hscore, Hstock, Hwaste, Hf, Ht.
Qed.

(** C1. Every move (stock draw, executed drop, executed double click,
    auto-complete run) followed at once by [undo] makes [undo] return [True]
    and leaves the score and the cards of every pile, with their order and
    face-up flags, as they were before the move.  An auto-complete run always
    ends: enough fuel yields its result. *)
Theorem undo_round_trip :
  (forall g g' : Game,
      legal_move g g' ->
      exists g'', undo g' = Some (true, g'') /\ view g'' = view g)
  /\ (forall (g : Game) (fuel : nat),
         (movable_cards g < fuel)%nat ->
         exists g', auto_move_to_foundation fuel g = Some g'
                    /\ legal_move g g').
Proof.
  split.
  - intros g g' Hmove.
    cut (exists g'', undo g' = Some (true, g'') /\ snapshot g'' = snapshot g).
    { intros (g'' & Hu & Hs). exists g''. split; [done|].
      by apply view_of_snapshot. }
    destruct Hmove as [|hit src target g' Hd Hsrc Hfind Hne Hdrop
                       |pile at_card card i Hp Htop Hacc
                       |fuel g' Hauto].
    + apply undo_after_save. apply frame_draw_card_from_stock.
    + unfold handle_drop in Hdrop. rewrite Hd in Hdrop. simpl in Hdrop.
      rewrite Hsrc in Hdrop. simpl in Hdrop.
      change (find_drop_target (set_drag g false (dragged_cards g) (Some src)) hit)
        with (find_drop_target g hit) in Hdrop.
      rewrite Hfind, bool_decide_eq_true_2 in Hdrop by done.
      injection Hdrop as <-.
      apply (undo_after_save (set_drag g false (dragged_cards g) (Some src))).
      by rewrite frame_check_win, frame_set_drag, frame_execute_drop.
    + assert (E : double_click g (OnPile pile at_card)
                  = check_win (to_foundation (save_state g) pile card i)).
      { unfold double_click. destruct Hp as [->|[k ->]]; by rewrite Htop, Hacc. }
      rewrite E. apply undo_after_save.
      by rewrite frame_check_win, frame_to_foundation.
    + unfold auto_move_to_foundation in Hauto.
      destruct (auto_loop fuel (save_state g)) as [g1|] eqn:E; [|done].
      simpl in Hauto. injection Hauto as <-.
      apply undo_after_save.
      rewrite frame_check_win. by apply (frame_auto_loop fuel).
  - intros g fuel Hlt.
    destruct (auto_move_total fuel g Hlt) as [g' E].
    exists g'. split; [done|]. by eapply move_auto.
Qed.

(** ** Reading and writing piles *)

Lemma pile_cards_set_ne (g : Game) (p q : PileId) (cs : list Card) :
  p <> q -> pile_cards (set_pile_cards g p cs) q = pile_cards g q.
Proof.
  intros Hne. destruct p, q; try done; unfold pile_cards, set_pile_cards; simpl.
  - rewrite list_lookup_alter_ne; [done|congruence].
  - rewrite list_lookup_insert_ne; [done|congruence].
Qed.

Lemma pile_cards_set_tableau (g : Game) (k : nat) (cs : list Card) :
  pile_cards (set_pile_cards g (Tableau k) cs) (Tableau k)
  = if decide (k < length (tableaus g))%nat then cs else [].
Proof.
  unfold pile_cards, set_pile_cards. simpl. case_decide as Hk.
  - by rewrite list_lookup_insert_eq.
  - rewrite list_insert_ge by lia.
    rewrite lookup_ge_None_2 by lia. done.
Qed.

Lemma pile_cards_set_foundation (g : Game) (k : nat) (cs : list Card) :
  pile_cards (set_pile_cards g (Foundation k) cs) (Foundation k)
  = if decide (k < length (foundations g))%nat then cs else [].
Proof.
  unfold pile_cards, set_pile_cards. simpl. rewrite list_lookup_alter_eq.
  case_decide as Hk.
  - destruct (lookup_lt_is_Some_2 (foundations g) k Hk) as [f ->]. done.
  - rewrite lookup_ge_None_2 by lia. done.
Qed.

Lemma pile_cards_tableau_nonempty (g : Game) (k : nat) :
  pile_cards g (Tableau k) <> [] -> (k < length (tableaus g))%nat.
Proof.
  unfold pile_cards. intros H.
  destruct (tableaus g !! k) eqn:E; [by eapply lookup_lt_Some|done].
Qed.

Lemma remove_cards_from_rest_nonempty (cards : list Card) (c : Card) :
  (remove_cards_from cards c).2 <> [] -> cards <> [].
Proof.
  unfold remove_cards_from. destruct (index_of _ _); simpl; [|done].
  intros H ->. by rewrite take_nil in H.
Qed.

(** ** Scoring of a drop *)

Lemma find_drop_target_foundation (g : Game) hit (i : nat) :
  find_drop_target g hit = Some (Foundation i) ->
  length (dragged_cards g) = 1%nat.
Proof.
  unfold find_drop_target. destruct (dragged_cards g) as [|c cs]; [done|].
  destruct (length (c :: cs) =? 1)%nat eqn:E.
  - intros _. by apply Nat.eqb_eq.
  - simpl. destruct (find_index _ _ _); simpl; done.
Qed.

Lemma find_drop_target_kind (g : Game) hit (target : PileId) :
  find_drop_target g hit = Some target ->
  (exists i, target = Foundation i) \/ (exists i, target = Tableau i).
Proof.
  unfold find_drop_target. destruct (dragged_cards g) as [|c cs]; [done|].
  destruct (if (length (c :: cs) =? 1)%nat then _ else _).
  - intros [= <-]. eauto.
  - destruct (find_index _ _ _); simpl; intros [= <-]. eauto.
Qed.

Lemma score_drop_spec (g : Game) (src target : PileId) :
  0 <= score g ->
  (exists i, target = Foundation i) \/ (exists i, target = Tableau i) ->
  score (score_drop g src target)
  = Z.max 0 (score g + move_delta src target (length (dragged_cards g)))
  /\ (forall p, pile_cards (score_drop g src target) p = pile_cards g p)
  /\ tableaus (score_drop g src target) = tableaus g.
Proof.
  intros Hpos [[i ->]|[i ->]]; unfold score_drop, move_delta; [done|].
  destruct src; unfold add_score; simpl; repeat split; try done.
  all: lia.
Qed.

Lemma remove_run_rest (g : Game) (k : nat) (target : PileId) cs :
  target <> Tableau k ->
  pile_cards (set_pile_cards (remove_run g (Tableau k)) target cs) (Tableau k)
  = pile_cards (remove_run g (Tableau k)) (Tableau k).
Proof. intros. by apply pile_cards_set_ne. Qed.

(** C2. An executed drop changes the score by [move_delta] of the kinds of
    source and destination (floored at 0); and when the source is a tableau
    whose top card after the removal is face down, that card is turned face
    up and 5 more points are added (floored at 0 again).  The score before
    the drop is not negative, as in every state of a game. *)
Theorem drop_score (g : Game) (hit : PileId -> bool) (src target : PileId) :
  0 <= score g ->
  dragging g = true ->
  drag_source g = Some src ->
  find_drop_target g hit = Some target ->
  target <> src ->
  exists g',
    handle_drop g hit = Some g'
    /\ let n := length (dragged_cards g) in
       let s1 := Z.max 0 (score g + move_delta src target n) in
       let rest := pile_cards (remove_run g src) src in
       match src, top_card rest with
       | Tableau _, Some top =>
           if face_up top
           then score g' = s1 /\ pile_cards g' src = rest
           else score g' = Z.max 0 (s1 + SCORE_REVEAL_CARD)
                /\ pile_cards g' src = removelast rest ++ [set_face_up true top]
       | _, _ => score g' = s1
       end.
Proof.
  intros Hpos Hd Hsrc Hfind Hne.
  unfold handle_drop. rewrite Hd. simpl. rewrite Hsrc. simpl.
  change (find_drop_target (set_drag g false (dragged_cards g) (Some src)) hit)
    with (find_drop_target g hit).
  rewrite Hfind, bool_decide_eq_true_2 by done.
  eexists. split; [reflexivity|].
  assert (Hscore : forall x d cs s,
             score (check_win (set_drag x d cs s)) = score x).
  { intros. unfold check_win. by destruct (forallb _ _). }
  assert (Hpile : forall x d cs s p,
             pile_cards (check_win (set_drag x d cs s)) p = pile_cards x p).
  { intros. unfold check_win. by destruct (forallb _ _). }
  rewrite Hscore, Hpile. clear Hscore Hpile.
  unfold execute_drop.
  remember (save_state (set_drag g false (dragged_cards g) (Some src))) as g1
    eqn:E1.
  assert (Hrun : remove_run g1 src
                 = set_move_history
                     (set_drag (remove_run g src) false (dragged_cards g) (Some src))
                     (move_history g1)).
  { subst g1. unfold remove_run. destruct src; try done.
    simpl. by destruct (dragged_cards g). }
  remember (remove_run g1 src) as g2 eqn:E2.
  assert (Hg2 : score g2 = score g
                /\ dragged_cards g2 = dragged_cards g
                /\ pile_cards g2 src = pile_cards (remove_run g src) src).
  { rewrite Hrun. repeat split.
    unfold remove_run. destruct src; try done. by destruct (dragged_cards g). }
  destruct Hg2 as (Hs2 & Hdr2 & Hp2). clear Hrun E2 E1.
  remember (set_pile_cards g2 target
              (add_cards (pile_cards g2 target) (dragged_cards g2))) as g3 eqn:E3.
  assert (Hg3 : score g3 = score g
                /\ dragged_cards g3 = dragged_cards g
                /\ pile_cards g3 src = pile_cards (remove_run g src) src).
  { subst g3. rewrite pile_cards_set_ne by done.
    repeat split; try done; by destruct target. }
  destruct Hg3 as (Hs3 & Hdr3 & Hp3). clear E3 Hs2 Hdr2 Hp2.
  destruct (score_drop_spec g3 src target) as (Hs4 & Hp4 & _);
    [lia|by eapply find_drop_target_kind|].
  rewrite Hs3, Hdr3 in Hs4.
  remember (score_drop g3 src target) as g4 eqn:E4.
  rewrite <- (Hp4 src) in Hp3. clear E4 Hp4 Hs3 Hdr3.
  destruct src as [| |k|k]; try (simpl; exact Hs4).
  unfold reveal. rewrite Hp3.
  destruct (top_card (pile_cards (remove_run g (Tableau k)) (Tableau k)))
    as [top|] eqn:Etop; [|exact Hs4].
  destruct (face_up top) eqn:Eface; simpl.
  - split; [exact Hs4|exact Hp3].
  - split.
    + unfold add_score. simpl.
      change (score (set_pile_cards g4 (Tableau k) ?x)) with (score g4).
      by rewrite Hs4.
    + change (pile_cards (add_score ?x ?y) ?p) with (pile_cards x p).
      rewrite pile_cards_set_tableau.
      assert (Hk : (k < length (tableaus g4))%nat).
      { apply pile_cards_tableau_nonempty. rewrite Hp3.
        intros E. by rewrite E in Etop. }
      rewrite decide_True by done.
      unfold TableauPile.flip_top_card. unfold top_card in Etop.
      by rewrite Etop, Eface.
Qed.

(** ** Runs of cards *)

Lemma ordered_app (a b : list CardState) :
  ordered (a ++ b)
  <-> ordered a /\ ordered b
      /\ (forall x y, last a = Some x -> head b = Some y -> link x y).
Proof.
  induction a as [|x a IH]; simpl.
  - split; [intros H; split; [|split]; done|by intros (_ & H & _)].
  - rewrite IH. split.
    + intros (Hh & Ha & Hb & Hl). split; [split|split]; try done.
      * intros y Hy. apply Hh. destruct a; [done|exact Hy].
      * intros x' y Hx Hy. destruct a as [|x2 a].
        -- simpl in Hx. simplify_eq. by apply Hh.
        -- apply Hl; [|done]. by rewrite last_cons_cons in Hx.
    + intros ((Hh & Ha) & Hb & Hl). split; [|split; [|split]]; try done.
      * intros y Hy. destruct a as [|x2 a]; [|by apply Hh].
        simpl in Hy. by apply Hl.
      * intros x' y Hx Hy. apply Hl; [|done].
        destruct a as [|x2 a]; [done|]. by rewrite last_cons_cons.
Qed.

Lemma ordered_take (n : nat) (v : list CardState) :
  ordered v -> ordered (take n v).
Proof.
  intros H. rewrite <- (take_drop n v) in H.
  by destruct (proj1 (ordered_app _ _) H) as (? & _).
Qed.

Lemma ordered_drop (n : nat) (v : list CardState) :
  ordered v -> ordered (drop n v).
Proof.
  intros H. rewrite <- (take_drop n v) in H.
  by destruct (proj1 (ordered_app _ _) H) as (_ & ? & _).
Qed.

Lemma ordered_lookup (v : list CardState) (i : nat) (x y : CardState) :
  ordered v -> v !! i = Some x -> v !! S i = Some y -> link x y.
Proof.
  revert i. induction v as [|x0 v IH]; intros i Hord Hx Hy; [done|].
  destruct Hord as [Hh Hv]. destruct i as [|i].
  - simpl in *. simplify_eq. apply Hh. by destruct v.
  - by apply (IH i).
Qed.

(** Over a face-up card of an ordered pile, all cards are face up. *)
Lemma ordered_up_above (v : list CardState) (i : nat) (x : CardState) :
  ordered v -> v !! i = Some x -> x.2 = true -> all_up (drop i v).
Proof.
  revert i x. induction v as [|x0 v IH]; intros i x Hord Hx Hup; [done|].
  destruct i as [|i].
  - simpl in *. simplify_eq. destruct Hord as [Hh Hv].
    constructor; [done|].
    destruct v as [|y v]; [constructor|].
    destruct (Hh y eq_refl Hup) as [Hy _].
    apply (IH 0%nat y); done.
  - simpl. destruct Hord as [_ Hv]. by apply (IH i x).
Qed.

Lemma removelast_take {A} (l : list A) :
  removelast l = take (pred (length l)) l.
Proof.
  induction l as [|x l IH] using rev_ind; [done|].
  rewrite removelast_last, length_app. simpl.
  rewrite Nat.add_comm. simpl. by rewrite take_app_length.
Qed.

Lemma iter_removelast_take {A} (n : nat) (l : list A) :
  Nat.iter n (@removelast A) l = take (length l - n) l.
Proof.
  induction n as [|n IH]; simpl.
  - by rewrite Nat.sub_0_r, firstn_all.
  - rewrite IH, removelast_take, length_take, take_take. f_equal. lia.
Qed.

Lemma remove_card_rest (cards : list Card) :
  (remove_card cards).2 = removelast cards.
Proof.
  unfold remove_card. destruct (last cards) eqn:E; [done|].
  apply last_None in E. by subst.
Qed.

Lemma color_suit_color (c : Card) : color c = suit_color (suit c).
Proof. done. Qed.

(** ** Drag session and score floor along the moves *)

Lemma steady_refl (g : Game) : steady g g.
Proof. by split. Qed.

Lemma steady_trans (g1 g2 g3 : Game) :
  steady g1 g2 -> steady g2 g3 -> steady g1 g3.
Proof.
  intros [Hd1 Hs1] [Hd2 Hs2]. split; [congruence|auto].
Qed.

Lemma steady_set_pile_cards (g : Game) (p : PileId) (cs : list Card) :
  steady g (set_pile_cards g p cs).
Proof. by destruct p. Qed.

Lemma steady_add_score (g : Game) (z : Z) : steady g (add_score g z).
Proof. split; [done|]. intros _. unfold add_score. simpl. lia. Qed.

Lemma steady_save_state (g : Game) : steady g (save_state g).
Proof. by split. Qed.

Lemma steady_check_win (g : Game) : steady g (check_win g).
Proof. unfold check_win. by destruct (forallb _ _). Qed.

Lemma steady_reveal (g : Game) (p : PileId) : steady g (reveal g p).
Proof.
  unfold reveal. destruct p; try apply steady_refl.
  destruct (top_card _) as [top|]; [|apply steady_refl].
  destruct (negb (face_up top)); [|apply steady_refl].
  eapply steady_trans; [apply steady_set_pile_cards|apply steady_add_score].
Qed.

Lemma steady_to_foundation (g : Game) (p : PileId) (c : Card) (i : nat) :
  steady g (to_foundation g p c i).
Proof.
  unfold to_foundation.
  eapply steady_trans; [|apply steady_reveal].
  eapply steady_trans; [|apply steady_add_score].
  eapply steady_trans; apply steady_set_pile_cards.
Qed.

Lemma steady_remove_run (g : Game) (src : PileId) :
  steady g (remove_run g src).
Proof.
  unfold remove_run. destruct src; try apply steady_set_pile_cards.
  destruct (dragged_cards g); [apply steady_refl|apply steady_set_pile_cards].
Qed.

Lemma steady_score_drop (g : Game) (src target : PileId) :
  steady g (score_drop g src target).
Proof.
  unfold score_drop.
  destruct target, src; try apply steady_refl; apply steady_add_score.
Qed.

Lemma steady_execute_drop (g : Game) (src target : PileId) :
  steady g (execute_drop g src target).
Proof.
  unfold execute_drop.
  eapply steady_trans; [|apply steady_reveal].
  eapply steady_trans; [|apply steady_score_drop].
  eapply steady_trans; [|apply steady_set_pile_cards].
  eapply steady_trans; [apply steady_save_state|apply steady_remove_run].
Qed.

Lemma steady_auto_waste (g : Game) : steady g (auto_waste g).1.
Proof.
  unfold auto_waste. destruct (top_card _); [|apply steady_refl].
  destruct (accepting_foundation _ _); [|apply steady_refl].
  apply steady_to_foundation.
Qed.

Lemma steady_auto_tableaus (idx : list nat) :
  forall g moved, steady g (auto_tableaus idx g moved).1.
Proof.
  induction idx as [|i idx IH]; intros g moved; [apply steady_refl|]. simpl.
  destruct (top_card _) as [card|].
  - destruct (accepting_foundation g card).
    + simpl. apply steady_to_foundation.
    + destruct moved; [apply steady_refl|apply IH].
  - apply IH.
Qed.

Lemma steady_auto_pass (g : Game) : steady g (auto_pass g).1.
Proof.
  unfold auto_pass. pose proof (steady_auto_waste g) as Hw.
  destruct (auto_waste g) as [g1 moved]. simpl in Hw.
  eapply steady_trans; [exact Hw|apply steady_auto_tableaus].
Qed.

Lemma steady_auto_loop (fuel : nat) :
  forall g g', auto_loop fuel g = Some g' -> steady g g'.
Proof.
  induction fuel as [|fuel IH]; intros g g' H; [done|]. simpl in H.
  pose proof (steady_auto_pass g) as Hp.
  destruct (auto_pass g) as [g1 moved]. simpl in Hp.
  destruct moved.
  - eapply steady_trans; [exact Hp|by apply IH].
  - congruence.
Qed.

Lemma steady_draw_card_from_stock (g : Game) :
  steady g (draw_card_from_stock g).
Proof.
  unfold draw_card_from_stock.
  destruct (remove_card (stock (save_state g))) as [[card|] stock'];
    [by split|].
  destruct (waste (save_state g)) eqn:Ew; [by split|].
  destruct (pour_face_down _ _ _).
  split; [done|]. intros _. simpl. lia.
Qed.

(** ** The piles along the moves *)

Lemma pile_ok_nil (p : PileId) : pile_ok p [].
Proof. destruct p; simpl; try done; try constructor; done. Qed.

Lemma pile_ok_weak (p : PileId) (v : list CardState) :
  pile_ok p v -> pile_weak p v.
Proof. destruct p; simpl; tauto. Qed.

Lemma pile_weak_take (p : PileId) (v : list CardState) (n : nat) :
  pile_weak p v -> pile_weak p (take n v).
Proof.
  destruct p; simpl; try done; try apply Forall_take. apply ordered_take.
Qed.

Lemma pile_cards_set_same (g : Game) (p : PileId) (cs : list Card) :
  pile_cards (set_pile_cards g p cs) p = cs
  \/ pile_cards (set_pile_cards g p cs) p = [].
Proof.
  destruct p as [| |k|k]; try (by left).
  - rewrite pile_cards_set_foundation. case_decide; auto.
  - rewrite pile_cards_set_tableau. case_decide; auto.
Qed.

Lemma piles_ok_set (g : Game) (p : PileId) (cs : list Card) :
  piles_ok g -> pile_ok p (card_state <$> cs) ->
  piles_ok (set_pile_cards g p cs).
Proof.
  intros Hg Hcs q. destruct (decide (p = q)) as [<-|Hne].
  - destruct (pile_cards_set_same g p cs) as [->| ->];
      [done|apply pile_ok_nil].
  - rewrite pile_cards_set_ne by done. apply Hg.
Qed.

Lemma piles_ok_except_weaken (g : Game) (src : PileId) :
  piles_ok g -> piles_ok_except g src.
Proof. intros Hg. split; [apply pile_ok_weak, Hg|intros; apply Hg]. Qed.

Lemma piles_ok_except_set_src (g : Game) (src : PileId) (cs : list Card) :
  piles_ok_except g src -> pile_weak src (card_state <$> cs) ->
  piles_ok_except (set_pile_cards g src cs) src.
Proof.
  intros [_ Hg] Hcs. split.
  - destruct (pile_cards_set_same g src cs) as [->| ->];
      [done|apply pile_ok_weak, pile_ok_nil].
  - intros q Hq. rewrite pile_cards_set_ne by done. by apply Hg.
Qed.

Lemma piles_ok_except_set_other (g : Game) (src p : PileId) (cs : list Card) :
  piles_ok_except g src -> p <> src -> pile_ok p (card_state <$> cs) ->
  piles_ok_except (set_pile_cards g p cs) src.
Proof.
  intros [Hsrc Hg] Hne Hcs. split.
  - by rewrite pile_cards_set_ne.
  - intros q Hq. destruct (decide (p = q)) as [<-|Hpq].
    + destruct (pile_cards_set_same g p cs) as [->| ->];
        [done|apply pile_ok_nil].
    + rewrite pile_cards_set_ne by done. by apply Hg.
Qed.

Lemma card_state_set_face_up (b : bool) (c : Card) :
  card_state (set_face_up b c) = (suit c, rank c, b).
Proof. done. Qed.

Lemma flip_top_card_ok (cards : list Card) :
  ordered (card_state <$> cards) ->
  ordered (card_state <$> TableauPile.flip_top_card cards)
  /\ top_up (card_state <$> TableauPile.flip_top_card cards).
Proof.
  intros Hord. unfold TableauPile.flip_top_card.
  destruct (last cards) as [top|] eqn:E.
  - destruct (face_up top) eqn:Ef; simpl.
    + split; [done|]. intros x Hx. rewrite fmap_last, E in Hx.
      simpl in Hx. by simplify_eq.
    + apply last_Some in E as [pre ->]. rewrite removelast_last.
      rewrite fmap_app in *. simpl in *.
      apply ordered_app in Hord as (Hpre & _ & Hl). split.
      * apply ordered_app. split; [done|]. split; [simpl; done|].
        intros x y Hx Hy Hup. simpl in Hy. simplify_eq.
        destruct (Hl x (card_state top) Hx eq_refl Hup) as [Htop _].
        simpl in Htop. congruence.
      * intros x Hx. rewrite last_snoc in Hx. by simplify_eq.
  - apply last_None in E as ->. split; [done|]. by intros x Hx.
Qed.

Lemma piles_ok_reveal (g : Game) (src : PileId) :
  piles_ok_except g src -> piles_ok (reveal g src).
Proof.
  intros [Hsrc Hg].
  assert (Hplain : pile_ok src (card_state <$> pile_cards g src) -> piles_ok g).
  { intros H q. destruct (decide (q = src)) as [->|Hq]; [done|by apply Hg]. }
  unfold reveal. destruct src as [| |k|k]; try by apply Hplain.
  simpl in Hsrc.
  destruct (top_card (pile_cards g (Tableau k))) as [top|] eqn:Etop.
  - destruct (face_up top) eqn:Ef; simpl.
    + apply Hplain. split; [done|]. intros x Hx.
      unfold top_card in Etop. rewrite fmap_last, Etop in Hx.
      simpl in Hx. by simplify_eq.
    + intros q.
      change (pile_cards (add_score ?x ?y) q) with (pile_cards x q).
      destruct (decide (Tableau k = q)) as [<-|Hq].
      * destruct (pile_cards_set_same g (Tableau k)
                    (TableauPile.flip_top_card (pile_cards g (Tableau k))))
          as [->| ->]; [by apply flip_top_card_ok|apply pile_ok_nil].
      * rewrite pile_cards_set_ne by done. apply Hg. congruence.
  - apply Hplain. unfold top_card in Etop. apply last_None in Etop.
    rewrite Etop. apply pile_ok_nil.
Qed.

Lemma all_up_snoc (v : list CardState) (x : CardState) :
  all_up (v ++ [x]) <-> all_up v /\ x.2 = true.
Proof.
  unfold all_up. rewrite Forall_app, Forall_singleton. done.
Qed.

Lemma top_of_pile_up (g : Game) (p : PileId) (c : Card) :
  piles_ok g ->
  p = Waste \/ (exists k, p = Foundation k) \/ (exists k, p = Tableau k) ->
  top_card (pile_cards g p) = Some c ->
  face_up c = true.
Proof.
  intros Hg Hp Htop. specialize (Hg p).
  apply last_Some in Htop as [pre Hpre]. rewrite Hpre, fmap_app in Hg.
  destruct Hp as [->|[[k ->]|[k ->]]]; simpl in Hg.
  - by destruct (proj1 (all_up_snoc _ _) Hg) as [_ ?].
  - by destruct (proj1 (all_up_snoc _ _) Hg) as [_ ?].
  - destruct Hg as [_ Hg]. apply (Hg (card_state c)). by rewrite last_snoc.
Qed.

Lemma piles_ok_to_foundation (g : Game) (p : PileId) (c : Card) (i : nat) :
  piles_ok g ->
  p = Waste \/ (exists k, p = Tableau k) ->
  top_card (pile_cards g p) = Some c ->
  piles_ok (to_foundation g p c i).
Proof.
  intros Hg Hp Htop. unfold to_foundation.
  assert (Hup : face_up c = true).
  { apply (top_of_pile_up g p c Hg); [|done].
    destruct Hp as [->|[k ->]]; eauto. }
  assert (Hne : Foundation i <> p) by (destruct Hp as [->|[k ->]]; done).
  apply piles_ok_reveal.
  change (piles_ok_except (add_score ?x ?y) p) with (piles_ok_except x p).
  set (g1 := set_pile_cards g p (remove_card (pile_cards g p)).2).
  assert (H1 : piles_ok_except g1 p).
  { apply piles_ok_except_set_src; [by apply piles_ok_except_weaken|].
    rewrite remove_card_rest, removelast_take, fmap_take.
    apply pile_weak_take, pile_ok_weak, Hg. }
  apply piles_ok_except_set_other; [done|done|].
  unfold add_card. rewrite fmap_app. simpl.
  apply all_up_snoc. split; [|done].
  destruct H1 as [_ H1]. apply (H1 (Foundation i) Hne).
Qed.

(** ** Drops *)

Lemma find_index_Some {A} (p : nat -> A -> bool) (l : list A) :
  forall i0 i,
    find_index p i0 l = Some i ->
    exists x, (i0 <= i)%nat /\ l !! (i - i0)%nat = Some x /\ p i x = true.
Proof.
  induction l as [|x l IH]; intros i0 i H; [done|]. simpl in H.
  destruct (p i0 x) eqn:E.
  - simplify_eq. exists x. by rewrite Nat.sub_diag.
  - destruct (IH _ _ H) as (y & Hle & Hy & Hp).
    exists y. split; [lia|]. split; [|done].
    replace (i - i0)%nat with (S (i - S i0)) by lia. done.
Qed.

Lemma tableau_can_add_top (t : list Card) (top card : Card) :
  TableauPile.can_add t card = true ->
  last t = Some top ->
  face_up top = true /\ stackable (card_state top) (card_state card).
Proof.
  unfold TableauPile.can_add, top_card. intros H Htop. rewrite Htop in H.
  destruct (face_up top); [|done]. simpl in H.
  case_bool_decide as Hc; [done|].
  destruct (Z.eqb_spec (value card) (value top - 1)); [|done].
  done.
Qed.

(** What [find_drop_target] promises of the pile it returns. *)
Lemma find_drop_target_Some (g : Game) hit (target : PileId) :
  find_drop_target g hit = Some target ->
  exists first_card run,
    dragged_cards g = first_card :: run
    /\ ((exists i, target = Foundation i)
        \/ (exists j, target = Tableau j
                       /\ TableauPile.can_add (pile_cards g target) first_card
                          = true)).
Proof.
  unfold find_drop_target.
  destruct (dragged_cards g) as [|first_card run]; [done|].
  intros H. exists first_card, run. split; [done|].
  destruct (if (length (first_card :: run) =? 1)%nat then _ else _).
  - simplify_eq. eauto.
  - destruct (find_index _ _ _) as [j|] eqn:E; simpl in H; [|done].
    simplify_eq. right. exists j. split; [done|].
    apply find_index_Some in E as (t & _ & Ht & Hp).
    rewrite Nat.sub_0_r in Ht. unfold pile_cards. rewrite Ht. simpl.
    by apply andb_true_iff in Hp as [_ ?].
Qed.

Lemma iter_remove_card_take (n : nat) (cards : list Card) :
  Nat.iter n (fun cs => (remove_card cs).2) cards
  = take (length cards - n) cards.
Proof.
  rewrite <- iter_removelast_take. induction n as [|n IH]; [done|].
  simpl. by rewrite IH, remove_card_rest.
Qed.

Lemma remove_cards_from_take (cards : list Card) (c : Card) :
  exists n, (remove_cards_from cards c).2 = take n cards.
Proof.
  unfold remove_cards_from. destruct (index_of c cards) as [i|].
  - by exists i.
  - exists (length cards). by rewrite firstn_all.
Qed.

Lemma piles_ok_except_remove_run (g : Game) (src : PileId) :
  piles_ok g -> piles_ok_except (remove_run g src) src.
Proof.
  intros Hg. unfold remove_run.
  assert (Htake : forall n,
             piles_ok_except
               (set_pile_cards g src (take n (pile_cards g src))) src).
  { intros n. apply piles_ok_except_set_src; [by apply piles_ok_except_weaken|].
    rewrite fmap_take. apply pile_weak_take, pile_ok_weak, Hg. }
  destruct src; try (rewrite iter_remove_card_take; apply Htake).
  destruct (dragged_cards g) as [|c run]; [by apply piles_ok_except_weaken|].
  destruct (remove_cards_from_take (pile_cards g (Tableau i)) c) as [n ->].
  apply Htake.
Qed.

Lemma pile_cards_remove_run_ne (g : Game) (src p : PileId) :
  p <> src -> pile_cards (remove_run g src) p = pile_cards g p.
Proof.
  intros Hne. unfold remove_run.
  destruct src; try (by apply pile_cards_set_ne).
  destruct (dragged_cards g); [done|by apply pile_cards_set_ne].
Qed.

Lemma dragged_cards_remove_run (g : Game) (src : PileId) :
  dragged_cards (remove_run g src) = dragged_cards g.
Proof.
  pose proof (steady_remove_run g src) as [H _].
  exact (f_equal (fun x => x.1.2) H).
Qed.

Lemma tableau_add_run_ok (t run : list Card) (first_card : Card)
    (rest : list Card) :
  ordered (card_state <$> t) /\ top_up (card_state <$> t) ->
  run = first_card :: rest ->
  all_up (card_state <$> run) ->
  ordered (card_state <$> run) ->
  TableauPile.can_add t first_card = true ->
  ordered (card_state <$> add_cards t run)
  /\ top_up (card_state <$> add_cards t run).
Proof.
  intros [Hord Htop] -> Hup Hrun Hcan. unfold add_cards.
  rewrite fmap_app. split.
  - apply ordered_app. split; [done|]. split; [done|].
    intros x y Hx Hy _. simpl in Hy. simplify_eq.
    rewrite fmap_last in Hx.
    destruct (last t) as [top|] eqn:Et; [|done]. simpl in Hx. simplify_eq.
    destruct (tableau_can_add_top t top first_card Hcan Et) as [_ Hst].
    split; [|done].
    apply Forall_cons in Hup as [Hup _]. exact Hup.
  - intros x Hx. rewrite fmap_cons in Hx. rewrite last_app_cons in Hx.
    apply last_Some_elem_of in Hx.
    unfold all_up in Hup. rewrite Forall_forall in Hup. by apply Hup.
Qed.

Lemma piles_ok_execute_drop (g : Game) hit (src target : PileId) :
  piles_ok g -> drag_ok g ->
  find_drop_target g hit = Some target ->
  target <> src ->
  piles_ok (execute_drop g src target).
Proof.
  intros Hg (Hup & Hrun & _) Hfind Hne. unfold execute_drop.
  apply piles_ok_reveal.
  assert (Hscore : forall x, piles_ok_except x src ->
                             piles_ok_except (score_drop x src target) src).
  { intros x Hx. unfold score_drop. destruct target, src; done. }
  apply Hscore. clear Hscore.
  assert (Hg1 : piles_ok (save_state g)) by exact Hg.
  pose proof (piles_ok_except_remove_run (save_state g) src Hg1) as H2.
  rewrite dragged_cards_remove_run, pile_cards_remove_run_ne by done.
  change (dragged_cards (save_state g)) with (dragged_cards g).
  change (pile_cards (save_state g) target) with (pile_cards g target).
  apply piles_ok_except_set_other; [done|done|].
  destruct (find_drop_target_Some g hit target Hfind)
    as (first_card & run & Hdrag & [[i ->]|(j & -> & Hcan)]).
  - simpl. unfold add_cards. rewrite fmap_app. apply Forall_app. split.
    + apply (Hg (Foundation i)).
    + exact Hup.
  - simpl. eapply tableau_add_run_ok; eauto. apply (Hg (Tableau j)).
Qed.

(** ** The invariant along the moves *)

Lemma pile_cards_foundation (g : Game) (i : nat) (f : FoundationPile) :
  foundations g !! i = Some f -> pile_cards g (Foundation i) = f_cards f.
Proof. intros H. unfold pile_cards. by rewrite H. Qed.

Lemma pile_cards_tableau (g : Game) (i : nat) (t : list Card) :
  tableaus g !! i = Some t -> pile_cards g (Tableau i) = t.
Proof. intros H. unfold pile_cards. by rewrite H. Qed.

(** The pile conditions, pile by pile, are the pile conditions of the
    snapshot. *)
Lemma piles_ok_snapshot (g : Game) :
  piles_ok g
  <-> all_up (s_waste (snapshot g))
      /\ Forall all_up (s_foundations (snapshot g))
      /\ Forall (fun v => ordered v /\ top_up v) (s_tableaus (snapshot g)).
Proof.
  split.
  - intros Hg. split; [exact (Hg Waste)|]. split.
    + simpl. apply Forall_fmap, Forall_lookup. intros i f Hf. simpl.
      rewrite <- (pile_cards_foundation g i f Hf). apply (Hg (Foundation i)).
    + simpl. apply Forall_fmap, Forall_lookup. intros i t Ht. simpl.
      rewrite <- (pile_cards_tableau g i t Ht). apply (Hg (Tableau i)).
  - intros (Hw & Hf & Ht) p. simpl in Hf, Ht.
    apply (proj1 (Forall_fmap _ _ _)) in Hf.
    apply (proj1 (Forall_fmap _ _ _)) in Ht.
    destruct p as [| |i|i]; simpl; [done|exact Hw| |].
    + destruct (foundations g !! i) as [f|] eqn:E.
      * rewrite (pile_cards_foundation g i f E).
        apply (Forall_lookup_1 _ _ _ _ Hf E).
      * unfold pile_cards. rewrite E. constructor.
    + destruct (tableaus g !! i) as [t|] eqn:E.
      * rewrite (pile_cards_tableau g i t E).
        apply (Forall_lookup_1 _ _ _ _ Ht E).
      * unfold pile_cards. rewrite E. simpl. split; [done|by intros x Hx].
Qed.

Lemma markers_length (g : Game) :
  f_suit <$> foundations g = Some <$> SUITS ->
  length (foundations g) = 4%nat.
Proof.
  intros H. apply (f_equal length) in H. by rewrite !length_fmap in H.
Qed.

Lemma Inv_snap_ok (g : Game) : Inv g -> snap_ok (snapshot g).
Proof.
  intros [Hs Hp Hh Ht Hm Hd].
  apply piles_ok_snapshot in Hp as (Hw & Hf & Hta).
  split; [done|]. split; [done|]. split; [done|]. split; [done|].
  simpl. rewrite !length_fmap. split; [by apply markers_length|done].
Qed.

Lemma Inv_transfer (g g' : Game) :
  Inv g -> frame g' = frame g -> steady g g' -> piles_ok g' -> Inv g'.
Proof.
  intros [Hs Hp Hh Ht Hm Hd] Hf [Hdr Hsc] Hp'.
  assert (Hhist : move_history g' = move_history g)
    by exact (f_equal (fun x => x.1.1) Hf).
  assert (Hlen : length (tableaus g') = length (tableaus g))
    by exact (f_equal (fun x => x.1.2) Hf).
  assert (Hmark : f_suit <$> foundations g' = f_suit <$> foundations g)
    by exact (f_equal snd Hf).
  assert (Hd1 : dragging g' = dragging g)
    by exact (f_equal (fun x => x.1.1) Hdr).
  assert (Hd2 : dragged_cards g' = dragged_cards g)
    by exact (f_equal (fun x => x.1.2) Hdr).
  assert (Hd3 : drag_source g' = drag_source g)
    by exact (f_equal snd Hdr).
  split; try congruence; auto.
  unfold drag_ok. by rewrite Hd1, Hd2, Hd3.
Qed.

Lemma Inv_save_state (g : Game) : Inv g -> Inv (save_state g).
Proof.
  intros Hg. pose proof (Inv_snap_ok g Hg) as Hsnap.
  destruct Hg as [Hs Hp Hh Ht Hm Hd]. split; try done.
  unfold save_state. simpl.
  assert (Hall : Forall snap_ok (move_history g ++ [snapshot g])).
  { apply Forall_app. split; [done|]. by apply Forall_singleton. }
  destruct (100 <? length (move_history g ++ [snapshot g]))%nat; [|done].
  by apply Forall_tail.
Qed.

Lemma Inv_check_win (g : Game) : Inv g -> Inv (check_win g).
Proof.
  intros Hg. unfold check_win. destruct (forallb _ _); [|done].
  by destruct Hg.
Qed.

Lemma Inv_to_foundation (g : Game) (p : PileId) (c : Card) (i : nat) :
  Inv g ->
  p = Waste \/ (exists k, p = Tableau k) ->
  top_card (pile_cards g p) = Some c ->
  Inv (to_foundation g p c i).
Proof.
  intros Hg Hp Htop. apply (Inv_transfer g); [done| | |].
  - apply frame_to_foundation.
  - apply steady_to_foundation.
  - apply piles_ok_to_foundation; [by destruct Hg|done|done].
Qed.

Lemma Inv_draw_card_from_stock (g : Game) :
  Inv g -> Inv (draw_card_from_stock g).
Proof.
  intros Hg. apply Inv_save_state in Hg.
  apply (Inv_transfer (save_state g)); [done| | |].
  - apply frame_draw_card_from_stock.
  - eapply steady_trans; [|apply steady_draw_card_from_stock].
    split; [done|]. intros _. by destruct Hg.
  - destruct Hg as [_ Hp _ _ _ _].
    unfold draw_card_from_stock.
    destruct (remove_card (stock (save_state g))) as [[card|] stock'].
    + intros p. destruct p as [| |i|i];
        [done| |apply (Hp (Foundation i))|apply (Hp (Tableau i))].
      unfold pile_ok, pile_cards. simpl.
      unfold add_card. rewrite fmap_app. apply all_up_snoc.
      split; [apply (Hp Waste)|done].
    + destruct (waste (save_state g)) eqn:Ew; [done|].
      destruct (pour_face_down _ _ _) as [w st] eqn:Epour.
      rewrite pour_face_down_all in Epour. simplify_eq.
      intros p. destruct p as [| |i|i];
        [done| |apply (Hp (Foundation i))|apply (Hp (Tableau i))].
      unfold pile_ok, pile_cards. simpl. constructor.
Qed.

Lemma Inv_double_click (g : Game) (ptr : Pointer) :
  Inv g -> Inv (double_click g ptr).
Proof.
  intros Hg. unfold double_click.
  destruct ptr as [|pile at_card]; [done|].
  destruct pile as [| |i|i]; try done.
  - destruct (top_card (pile_cards g Waste)) as [card|] eqn:Et; [|done].
    destruct (accepting_foundation g card) as [k|]; [|done].
    apply Inv_check_win, Inv_to_foundation; [by apply Inv_save_state|auto|done].
  - destruct (top_card (pile_cards g (Tableau i))) as [card|] eqn:Et; [|done].
    destruct (accepting_foundation g card) as [k|]; [|done].
    apply Inv_check_win, Inv_to_foundation;
      [by apply Inv_save_state|eauto|done].
Qed.

Lemma Inv_auto_waste (g : Game) : Inv g -> Inv (auto_waste g).1.
Proof.
  intros Hg. unfold auto_waste.
  destruct (top_card (waste g)) as [card|] eqn:Et; [|done].
  destruct (accepting_foundation g card) as [k|]; [|done].
  simpl. apply Inv_to_foundation; auto.
Qed.

Lemma Inv_auto_tableaus (idx : list nat) :
  forall g moved, Inv g -> Inv (auto_tableaus idx g moved).1.
Proof.
  induction idx as [|i idx IH]; intros g moved Hg; [done|]. simpl.
  destruct (top_card (pile_cards g (Tableau i))) as [card|] eqn:Et.
  - destruct (accepting_foundation g card) as [k|].
    + simpl. apply Inv_to_foundation; eauto.
    + destruct moved; [done|by apply IH].
  - by apply IH.
Qed.

Lemma Inv_auto_pass (g : Game) : Inv g -> Inv (auto_pass g).1.
Proof.
  intros Hg. unfold auto_pass. pose proof (Inv_auto_waste g Hg) as Hw.
  destruct (auto_waste g) as [g1 moved]. simpl in Hw.
  by apply Inv_auto_tableaus.
Qed.

Lemma Inv_auto_loop (fuel : nat) :
  forall g g', Inv g -> auto_loop fuel g = Some g' -> Inv g'.
Proof.
  induction fuel as [|fuel IH]; intros g g' Hg H; [done|]. simpl in H.
  pose proof (Inv_auto_pass g Hg) as Hp.
  destruct (auto_pass g) as [g1 moved]. simpl in Hp.
  destruct moved; [by eapply IH|]. by injection H as <-.
Qed.

Lemma Inv_auto_move_to_foundation (fuel : nat) (g g' : Game) :
  Inv g -> auto_move_to_foundation fuel g = Some g' -> Inv g'.
Proof.
  intros Hg H. unfold auto_move_to_foundation in H.
  destruct (auto_loop fuel (save_state g)) as [g1|] eqn:E; [|done].
  simpl in H. injection H as <-.
  apply Inv_check_win. eapply Inv_auto_loop; [|exact E].
  by apply Inv_save_state.
Qed.

Lemma Inv_set_drag (g : Game) (d : bool) (cs : list Card) (src : option PileId) :
  Inv g ->
  all_up (card_state <$> cs) ->
  ordered (card_state <$> cs) ->
  (d = true -> is_Some src) ->
  Inv (set_drag g d cs src).
Proof. intros [Hs Hp Hh Ht Hm Hd] Hup Hord Hsrc. by split. Qed.

Lemma index_of_Some (card : Card) (cards : list Card) (i : nat) :
  index_of card cards = Some i -> cards !! i = Some card.
Proof.
  revert i. induction cards as [|c cards IH]; intros i H; [done|].
  simpl in H. case_bool_decide as Hc.
  - by simplify_eq.
  - destruct (index_of card cards) as [j|]; [|done].
    simpl in H. simplify_eq. simpl. by apply IH.
Qed.

Lemma remove_cards_from_app (cards : list Card) (card : Card) :
  (remove_cards_from cards card).2 ++ (remove_cards_from cards card).1 = cards.
Proof.
  unfold remove_cards_from. destruct (index_of card cards) as [i|]; simpl.
  - apply take_drop.
  - apply app_nil_r.
Qed.

(** During [start_drag] a tableau loses the run and gets it back at once:
    the piles are as before, only the drag session changes. *)
Lemma start_drag_tableau_piles (g : Game) (k : nat) (card : Card)
    d (src : option PileId) :
  let cards := pile_cards g (Tableau k) in
  let removed := (remove_cards_from cards card).1 in
  let rest := (remove_cards_from cards card).2 in
  let g1 := set_drag (set_pile_cards g (Tableau k) rest) d removed src in
  set_pile_cards g1 (Tableau k) (add_cards (pile_cards g1 (Tableau k)) removed)
  = set_drag g d removed src.
Proof.
  intros cards removed rest g1.
  assert (Hts : <[k := add_cards (pile_cards g1 (Tableau k)) removed]>
                  (tableaus g1) = tableaus g).
  { subst g1. unfold pile_cards, set_pile_cards. simpl.
    destruct (tableaus g !! k) as [t|] eqn:Et.
    - assert (Hk : (k < length (tableaus g))%nat) by by eapply lookup_lt_Some.
      rewrite list_lookup_insert_eq by done. simpl.
      rewrite list_insert_insert_eq. apply list_insert_id.
      subst rest removed cards. unfold add_cards, pile_cards. rewrite Et.
      simpl. by rewrite remove_cards_from_app.
    - apply lookup_ge_None in Et.
      rewrite (list_insert_ge (tableaus g)) by lia.
      by rewrite list_insert_ge by lia. }
  unfold set_pile_cards at 1. unfold set_tableaus. rewrite Hts.
  subst g1. by destruct g.
Qed.

Lemma start_drag_spec (g : Game) (pile : PileId) (card : Card) :
  start_drag g pile card
  = match pile with
    | Stock => Some g
    | Tableau _ =>
        let run := (remove_cards_from (pile_cards g pile) card).1 in
        Some match run with
             | [] => set_drag g (dragging g) [] (drag_source g)
             | _ :: _ => set_drag g true run (Some pile)
             end
    | _ =>
        match top_card (pile_cards g pile) with
        | Some top => Some (set_drag g true [top] (Some pile))
        | None => None
        end
    end.
Proof.
  unfold start_drag. destruct pile as [| |i|k]; try done.
  destruct (remove_cards_from (pile_cards g (Tableau k)) card)
    as [removed rest] eqn:E.
  pose proof (start_drag_tableau_piles g k card (dragging g) (drag_source g))
    as H. simpl in H. rewrite E in H. simpl in H.
  change (dragging (set_pile_cards g (Tableau k) rest)) with (dragging g).
  change (drag_source (set_pile_cards g (Tableau k) rest))
    with (drag_source g).
  rewrite H. unfold open_drag. simpl. by destruct removed.
Qed.

(** The state in which [start_drag] leaves the game when it returns. *)
Lemma start_drag_Some (g g' : Game) (pile : PileId) (card : Card) :
  start_drag g pile card = Some g' ->
  g' = match pile with
       | Stock => g
       | _ =>
           let run :=
             match pile with
             | Tableau _ => (remove_cards_from (pile_cards g pile) card).1
             | _ => option_list (top_card (pile_cards g pile))
             end in
           match run with
           | [] => set_drag g (dragging g) [] (drag_source g)
           | _ :: _ => set_drag g true run (Some pile)
           end
       end.
Proof.
  rewrite start_drag_spec. intros H. destruct pile as [| |i|k].
  - by injection H.
  - destruct (top_card _); [by injection H|done].
  - destruct (top_card _); [by injection H|done].
  - by injection H.
Qed.

(** [start_drag] raises on an empty waste or foundation pile only. *)
Lemma start_drag_None (g : Game) (pile : PileId) (card : Card) :
  start_drag g pile card = None
  <-> (pile = Waste \/ exists i, pile = Foundation i)
      /\ pile_cards g pile = [].
Proof.
  rewrite start_drag_spec. destruct pile as [| |i|k]; simpl.
  - split; [done|]. by intros [[|[? ?]] _].
  - unfold top_card. destruct (pile_cards g Waste) as [|c l] eqn:E.
    + split; auto.
    + rewrite last_cons. destruct (last l); split; try done; by intros [_ ?].
  - unfold top_card. destruct (pile_cards g (Foundation i)) as [|c l] eqn:E.
    + split; eauto.
    + rewrite last_cons. destruct (last l); split; try done; by intros [_ ?].
  - split; [done|]. by intros [[|[? ?]] _].
Qed.

(** What a click does: nothing, a draw, or the start of a drag on a face-up
    card of a pile. *)
Lemma handle_click_cases (g g' : Game) (ptr : Pointer) :
  handle_click g ptr = Some g' ->
  g' = g
  \/ g' = draw_card_from_stock g
  \/ exists pile k card,
      pile_cards g pile !! k = Some card
      /\ face_up card = true
      /\ start_drag g pile card = Some g'.
Proof.
  unfold handle_click. intros H. destruct ptr as [|pile at_card].
  { left. by injection H. }
  destruct pile as [| |i|i].
  { right. left. by injection H. }
  all: destruct (pile_cards g _) eqn:Ep; [left; by injection H|];
    rewrite <- Ep in H.
  all: destruct at_card as [k|]; [|left; by injection H].
  all: destruct (pile_cards g _ !! k) as [card|] eqn:Ek;
    [|left; by injection H].
  all: destruct (face_up card) eqn:Ef; [|left; by injection H].
  all: right; right; eauto 10.
Qed.

(** [handle_click] never raises: it calls [start_drag] behind the test
    [pile.cards]. *)
Lemma handle_click_total (g : Game) (ptr : Pointer) :
  is_Some (handle_click g ptr).
Proof.
  unfold handle_click. destruct ptr as [|pile at_card]; [done|].
  destruct pile as [| |i|i]; [done| | |].
  all: destruct (pile_cards g _) as [|c l] eqn:Ep; [done|]; rewrite <- Ep.
  all: destruct at_card as [k|]; [|done].
  all: destruct (pile_cards g _ !! k) as [card|] eqn:Ek; [|done].
  all: destruct (face_up card) eqn:Ef; [|done].
  all: destruct (start_drag g _ card) eqn:Es; [done|].
  all: apply start_drag_None in Es as [_ Es]; congruence.
Qed.

Lemma Inv_start_drag (g : Game) (pile : PileId) (k : nat) (card : Card) :
  Inv g ->
  pile_cards g pile !! k = Some card ->
  face_up card = true ->
  forall g', start_drag g pile card = Some g' -> Inv g'.
Proof.
  intros Hg Hk Hup g' Hs. rewrite (start_drag_Some _ _ _ _ Hs).
  assert (Hrun : forall run,
             all_up (card_state <$> run) -> ordered (card_state <$> run) ->
             Inv match run with
                 | [] => set_drag g (dragging g) [] (drag_source g)
                 | _ :: _ => set_drag g true run (Some pile)
                 end).
  { intros run Ha Ho. destruct run.
    - apply Inv_set_drag; [done|constructor|done|]. by destruct Hg as [_ _ _ _ _ (_ & _ & ?)].
    - by apply Inv_set_drag. }
  assert (Htop : forall p,
             p = Waste \/ (exists i, p = Foundation i) \/ (exists i, p = Tableau i) ->
             all_up (card_state <$> option_list (top_card (pile_cards g p)))
             /\ ordered (card_state <$> option_list (top_card (pile_cards g p)))).
  { intros p Hp. destruct (top_card (pile_cards g p)) as [c|] eqn:Et; simpl.
    - split; [|done]. apply Forall_singleton.
      eapply (top_of_pile_up g p c); [by destruct Hg|done|done].
    - split; [constructor|done]. }
  destruct pile as [| |i|i]; [done| | |].
  - apply Hrun; apply Htop; auto.
  - apply Hrun; apply Htop; eauto.
  - apply Hrun.
    + unfold remove_cards_from.
      destruct (index_of card (pile_cards g (Tableau i))) as [j|] eqn:Ej;
        simpl; [|constructor].
      apply index_of_Some in Ej. rewrite fmap_drop.
      apply (ordered_up_above _ j (card_state card)); [|by rewrite list_lookup_fmap, Ej|done].
      destruct Hg as [_ Hp _ _ _ _]. apply (Hp (Tableau i)).
    + unfold remove_cards_from.
      destruct (index_of card (pile_cards g (Tableau i))) as [j|] eqn:Ej;
        simpl; [|done].
      rewrite fmap_drop. apply ordered_drop.
      destruct Hg as [_ Hp _ _ _ _]. apply (Hp (Tableau i)).
Qed.

Lemma Inv_handle_click (g g' : Game) (ptr : Pointer) :
  Inv g -> handle_click g ptr = Some g' -> Inv g'.
Proof.
  intros Hg H.
  destruct (handle_click_cases _ _ _ H)
    as [->|[->|(pile & k & card & Hk & Hup & Hs)]].
  - done.
  - by apply Inv_draw_card_from_stock.
  - by eapply Inv_start_drag.
Qed.

Lemma Inv_handle_drop (g g' : Game) hit :
  Inv g -> handle_drop g hit = Some g' -> Inv g'.
Proof.
  intros Hg H. unfold handle_drop in H.
  destruct (dragging g) eqn:Ed; simpl in H; [|by simplify_eq].
  destruct (drag_source g) as [src|] eqn:Es; simpl in H; [|done].
  injection H as <-.
  apply Inv_check_win.
  set (g0 := set_drag g false (dragged_cards g) (Some src)).
  assert (Hg0 : Inv g0).
  { destruct Hg as [? ? ? ? ? (Hup & Hord & ?)]. by apply Inv_set_drag. }
  assert (Hfalse : forall x, Inv x -> dragging x = false ->
                             Inv (set_drag x (dragging x) [] None)).
  { intros x Hx Hdx. rewrite Hdx.
    apply Inv_set_drag; [done|constructor|done|done]. }
  destruct (find_drop_target g0 hit) as [target|] eqn:Ef.
  - case_bool_decide as Hne.
    + assert (Hx : Inv (execute_drop g0 src target)).
      { apply (Inv_transfer (save_state g0)); [by apply Inv_save_state| | |].
        - apply frame_execute_drop.
        - exact (steady_execute_drop g0 src target).
        - eapply piles_ok_execute_drop; [by destruct Hg0|by destruct Hg0|done|done]. }
      apply Hfalse; [done|].
      pose proof (steady_execute_drop g0 src target) as [Hdr _].
      exact (f_equal (fun x => x.1.1) Hdr).
    + by apply Hfalse.
  - by apply Hfalse.
Qed.

Lemma Inv_undo (g g' : Game) (b : bool) :
  Inv g -> undo g = Some (b, g') -> Inv g'.
Proof.
  intros Hg H.
  destruct (last (move_history g)) as [s|] eqn:El.
  - apply last_Some in El as [h Hh].
    pose proof Hg as [Hs Hp Hhist Ht Hm Hd].
    rewrite Hh in Hhist.
    destruct (proj1 (Forall_app _ _ _) Hhist) as [Hh_ok Hs_ok].
    apply (proj1 (Forall_singleton _ _)) in Hs_ok.
    destruct Hs_ok as (Hsc & Hw & Hf & Hta & Hl4 & Hl7).
    destruct (undo_restores g h s Hh) as (g'' & Hu & Hsnap & Hh' & _ & Hm' & Hd1 & Hd2 & Hd3).
    { rewrite Hl4. symmetry. by apply markers_length. }
    { by rewrite Hl7. }
    rewrite Hu in H. injection H as <- <-.
    split.
    + by rewrite <- (f_equal s_score Hsnap) in Hsc.
    + apply piles_ok_snapshot. rewrite Hsnap. done.
    + by rewrite Hh'.
    + rewrite <- Hsnap in Hl7. simpl in Hl7. by rewrite length_fmap in Hl7.
    + by rewrite Hm'.
    + unfold drag_ok. by rewrite Hd1, Hd2, Hd3.
  - unfold undo in H. rewrite El in H. by simplify_eq.
Qed.

(** ** The deal and the states of a session *)

Lemma new_game_result (g : Game) (deck : list Card) :
  length (tableaus g) = 7%nat ->
  length deck = 52%nat ->
  exists g',
    new_game g deck = Some g'
    /\ (forall j, (j < 7)%nat ->
          exists t, tableaus g' !! j = Some t
                    /\ face_up <$> t = replicate j false ++ [true])
    /\ length (tableaus g') = 7%nat
    /\ waste g' = []
    /\ foundations g' = (fun f => set_f_cards f []) <$> foundations g
    /\ score g' = 0
    /\ move_history g' = []
    /\ drag_state g' = drag_state g.
Proof.
  intros Ht Hp.
  destruct g as [w sc h st wa fs ts dr dc ds nu]. simpl in Ht.
  do 8 (destruct ts as [|? ts]; try discriminate Ht).
  do 53 (destruct deck as [|? deck]; try discriminate Hp).
  clear Hp Ht.
  match goal with
  | |- exists g', ?x = _ /\ _ =>
      let y := eval vm_compute in x in change x with y
  end.
  eexists; split; [reflexivity|].
  split; [|by repeat split].
  intros j Hj.
  do 7 (destruct j as [|j]; [eexists; split; reflexivity|]). lia.
Qed.

Lemma dealt_tableau_ok (t : list Card) :
  forall j,
    face_up <$> t = replicate j false ++ [true] ->
    ordered (card_state <$> t) /\ top_up (card_state <$> t).
Proof.
  induction t as [|c t IH]; intros j H.
  - by destruct j.
  - destruct j as [|j]; simpl in H.
    + injection H as Hc Ht. apply fmap_nil_inv in Ht. subst t. simpl.
      split; [done|]. intros x Hx. simpl in Hx. by simplify_eq.
    + injection H as Hc Ht. destruct (IH j Ht) as [Hord Htop].
      split.
      * simpl. split; [|done]. intros y _ Hup. simpl in Hup. congruence.
      * intros x Hx. apply Htop. destruct t; [by destruct j|].
        simpl in *. exact Hx.
Qed.

Lemma Inv_new_game (g g' : Game) (deck : list Card) :
  length (tableaus g) = 7%nat ->
  f_suit <$> foundations g = Some <$> SUITS ->
  drag_ok g ->
  Permutation deck (create_deck (next_uid g)) ->
  new_game g deck = Some g' ->
  Inv g'.
Proof.
  intros Ht Hm Hd Hperm Hnew.
  apply Permutation_length in Hperm. rewrite create_deck_length in Hperm.
  destruct (new_game_result g deck Ht Hperm)
    as (g'' & E & Htab & Hlen & Hw & Hf & Hsc & Hh & Hdr).
  rewrite E in Hnew. injection Hnew as <-.
  split.
  - lia.
  - intros p. destruct p as [| |i|j]; simpl.
    + done.
    + unfold pile_cards. rewrite Hw. constructor.
    + unfold pile_cards. rewrite Hf, list_lookup_fmap.
      destruct (foundations g !! i); simpl; constructor.
    + destruct (decide (j < 7)%nat) as [Hj|Hj].
      * destruct (Htab j Hj) as (t & Et & Hfaces).
        rewrite (pile_cards_tableau _ _ _ Et). by eapply dealt_tableau_ok.
      * unfold pile_cards. rewrite lookup_ge_None_2 by lia.
        simpl. split; [done|by intros x Hx].
  - rewrite Hh. constructor.
  - done.
  - rewrite Hf, <- list_fmap_compose. exact Hm.
  - assert (Hd1 : dragging g'' = dragging g)
      by exact (f_equal (fun x => x.1.1) Hdr).
    assert (Hd2 : dragged_cards g'' = dragged_cards g)
      by exact (f_equal (fun x => x.1.2) Hdr).
    assert (Hd3 : drag_source g'' = drag_source g)
      by exact (f_equal snd Hdr).
    unfold drag_ok. by rewrite Hd1, Hd2, Hd3.
Qed.

Lemma Inv_handle_event (g g' : Game) (e : Event) :
  Inv g -> event_ok g e -> handle_event g e = Some g' -> Inv g'.
Proof.
  intros Hg Hok H. destruct e as [deck| |fuel|ptr|ptr|hit]; simpl in *.
  - destruct Hg as [? ? ? ? ? ?]. by eapply Inv_new_game.
  - destruct (undo g) as [[b g1]|] eqn:E; [|done]. simpl in H.
    injection H as <-. by eapply Inv_undo.
  - by eapply Inv_auto_move_to_foundation.
  - by eapply Inv_handle_click.
  - injection H as <-. by apply Inv_double_click.
  - by eapply Inv_handle_drop.
Qed.

Lemma reachable_Inv (g : Game) : reachable g -> Inv g.
Proof.
  induction 1 as [deck g Hperm Hnew|g e g' Hreach IH Hok Hstep].
  - eapply (Inv_new_game setup_piles); [done|done| |exact Hperm|exact Hnew].
    split; [constructor|]. split; [done|done].
  - by eapply Inv_handle_event.
Qed.

(** ** The sample session is a session *)

Lemma event_okb_ok (g : Game) (e : Event) :
  event_okb g e = true -> event_ok g e.
Proof.
  destruct e; simpl; try done.
  - apply bool_decide_eq_true.
  - by destruct (dragging g).
  - by destruct (dragging g).
Qed.

Lemma play_reachable (es : list Event) :
  forall g g', reachable g -> play g es = Some g' -> reachable g'.
Proof.
  induction es as [|e es IH]; intros g g' Hg H; simpl in H.
  - by simplify_eq.
  - destruct (event_okb g e) eqn:Eok; [|done].
    destruct (handle_event g e) as [g1|] eqn:E1; [|done]. simpl in H.
    apply (IH g1); [|done].
    eapply reach_event; [done|by apply event_okb_ok|done].
Qed.

Lemma winning_deck_shuffled : Permutation winning_deck (create_deck 0).
Proof. apply (bool_decide_unpack _). vm_compute. exact I. Qed.

Lemma first_game_dealt : new_game setup_piles winning_deck = Some first_game.
Proof. vm_compute. reflexivity. Qed.

Lemma first_game_reachable : reachable first_game.
Proof.
  eapply reach_init; [apply winning_deck_shuffled|apply first_game_dealt].
Qed.

Lemma won_game_reachable : reachable won_game.
Proof.
  apply (play_reachable winning_play first_game); [apply first_game_reachable|].
  vm_compute. reflexivity.
Qed.

Lemma king_moved_game_reachable : reachable king_moved_game.
Proof.
  apply (play_reachable king_move won_game); [apply won_game_reachable|].
  vm_compute. reflexivity.
Qed.

Lemma drag_game_reachable : reachable drag_game.
Proof.
  apply (play_reachable pick_up_two first_game);
    [apply first_game_reachable|].
  vm_compute. reflexivity.
Qed.

(** ** The score floor *)

(** C8. In every state of a session the score is not negative, and
    [add_score] floors every delta at 0. *)
Theorem score_never_negative :
  (forall g : Game, reachable g -> 0 <= score g)
  /\ (forall (g : Game) (points : Z),
         score (add_score g points) = Z.max 0 (score g + points)).
Proof.
  split.
  - intros g Hg. by destruct (reachable_Inv g Hg).
  - done.
Qed.

(** ** Tableau runs *)

Lemma face_up_suffix_is_suffix (cards : list Card) :
  exists below, cards = below ++ face_up_suffix cards.
Proof.
  induction cards as [|c cards IH]; [by exists []|].
  simpl. destruct (face_up c && forallb face_up cards).
  - by exists [].
  - destruct IH as [below IH]. exists (c :: below). simpl. by f_equal.
Qed.

Lemma face_up_suffix_face_up (cards : list Card) :
  forallb face_up (face_up_suffix cards) = true.
Proof.
  induction cards as [|c cards IH]; [done|].
  simpl. by destruct (face_up c && forallb face_up cards) eqn:E.
Qed.

Lemma forallb_lookup {A} (f : A -> bool) (l : list A) (i : nat) (x : A) :
  forallb f l = true -> l !! i = Some x -> f x = true.
Proof.
  revert i. induction l as [|y l IH]; intros i H Hx; [done|].
  simpl in H. apply andb_true_iff in H as [Hy Hl].
  destruct i as [|i]; simpl in Hx; [by simplify_eq|by eapply IH].
Qed.

Lemma ordered_face_up_suffix (cards : list Card) :
  ordered (card_state <$> cards) ->
  descending_alternating (face_up_suffix cards).
Proof.
  intros Hord i below above Hb Ha.
  destruct (face_up_suffix_is_suffix cards) as [pre Hpre].
  rewrite Hpre, fmap_app in Hord.
  destruct (proj1 (ordered_app _ _) Hord) as (_ & Hsuf & _).
  pose proof (ordered_lookup _ i (card_state below) (card_state above) Hsuf)
    as Hlink.
  rewrite !list_lookup_fmap, Hb, Ha in Hlink.
  destruct (Hlink eq_refl eq_refl) as [_ Hst].
  - simpl. eapply forallb_lookup; [apply face_up_suffix_face_up|exact Hb].
  - exact Hst.
Qed.

(** C9. In every state of a session, the longest face-up suffix of each
    tableau descends by one with alternating colours.  (The session covers
    the deal and every event: drops, double clicks, auto-complete, undo.) *)
Theorem tableau_runs_descend (g : Game) :
  reachable g ->
  forall (i : nat) (t : list Card),
    tableaus g !! i = Some t ->
    descending_alternating (face_up_suffix t).
Proof.
  intros Hg i t Ht. apply ordered_face_up_suffix.
  destruct (reachable_Inv g Hg) as [_ Hp _ _ _ _].
  specialize (Hp (Tableau i)). rewrite (pile_cards_tableau g i t Ht) in Hp.
  by destruct Hp.
Qed.

(** ** The suit markers of the foundations *)

(** C10. An empty foundation accepts every Ace, whatever suit marker the
    pile carries; [can_add] never reads the marker; and no event of a
    session changes the markers given by [setup_piles]. *)
Theorem ace_on_any_empty_foundation :
  (forall (marker : option Suit) (u : nat) (s : Suit) (b : bool),
      FoundationPile.can_add (mkFoundation marker []) (mkCard u s RA b) = true)
  /\ (forall (m1 m2 : option Suit) (cards : list Card) (card : Card),
         FoundationPile.can_add (mkFoundation m1 cards) card
         = FoundationPile.can_add (mkFoundation m2 cards) card)
  /\ (forall g : Game,
         reachable g -> f_suit <$> foundations g = Some <$> SUITS).
Proof.
  split; [done|]. split; [done|].
  intros g Hg. by destruct (reachable_Inv g Hg).
Qed.

(** ** The win flag *)

Lemma check_win_won (g : Game) :
  won (check_win g) = won g || all_complete g.
Proof.
  unfold check_win, all_complete.
  destruct (forallb _ _); simpl; [by rewrite orb_true_r|by rewrite orb_false_r].
Qed.

Lemma check_win_all_complete (g : Game) :
  all_complete (check_win g) = all_complete g.
Proof. unfold check_win. by destruct (forallb _ _). Qed.

Lemma won_reveal (g : Game) (p : PileId) : won (reveal g p) = won g.
Proof.
  unfold reveal. destruct p; try done.
  destruct (top_card _) as [top|]; [|done].
  destruct (negb (face_up top)); [|done].
  change (won (add_score ?x ?z)) with (won x).
  by destruct g.
Qed.

Lemma won_set_pile_cards (g : Game) (p : PileId) (cs : list Card) :
  won (set_pile_cards g p cs) = won g.
Proof. by destruct p. Qed.

Lemma won_to_foundation (g : Game) (p : PileId) (c : Card) (i : nat) :
  won (to_foundation g p c i) = won g.
Proof.
  unfold to_foundation. rewrite won_reveal.
  change (won (add_score ?x ?z)) with (won x).
  by rewrite !won_set_pile_cards.
Qed.

Lemma won_execute_drop (g : Game) (src target : PileId) :
  won (execute_drop g src target) = won g.
Proof.
  unfold execute_drop. rewrite won_reveal.
  assert (H : forall x, won (score_drop x src target) = won x)
    by (intros x; by destruct target, src).
  rewrite H, won_set_pile_cards.
  unfold remove_run. destruct src; rewrite ?won_set_pile_cards; try done.
  destruct (dragged_cards (save_state g)); rewrite ?won_set_pile_cards; done.
Qed.

Lemma won_auto_tableaus (idx : list nat) :
  forall g moved, won (auto_tableaus idx g moved).1 = won g.
Proof.
  induction idx as [|i idx IH]; intros g moved; [done|]. simpl.
  destruct (top_card _) as [card|].
  - destruct (accepting_foundation g card).
    + simpl. apply won_to_foundation.
    + destruct moved; [done|apply IH].
  - apply IH.
Qed.

Lemma won_auto_pass (g : Game) : won (auto_pass g).1 = won g.
Proof.
  unfold auto_pass, auto_waste.
  destruct (top_card (waste g)) as [card|]; [|apply won_auto_tableaus].
  destruct (accepting_foundation g card);
    rewrite won_auto_tableaus; [apply won_to_foundation|done].
Qed.

Lemma won_auto_loop (fuel : nat) :
  forall g g', auto_loop fuel g = Some g' -> won g' = won g.
Proof.
  induction fuel as [|fuel IH]; intros g g' H; [done|]. simpl in H.
  pose proof (won_auto_pass g) as Hp.
  destruct (auto_pass g) as [g1 moved]. simpl in Hp.
  destruct moved; [rewrite (IH _ _ H); exact Hp|congruence].
Qed.

Lemma won_draw_card_from_stock (g : Game) :
  won (draw_card_from_stock g) = won g.
Proof.
  unfold draw_card_from_stock.
  destruct (remove_card (stock (save_state g))) as [[card|] stock']; [done|].
  destruct (waste (save_state g)); [done|].
  by destruct (pour_face_down _ _ _).
Qed.

Lemma won_start_drag (g g' : Game) (pile : PileId) (card : Card) :
  start_drag g pile card = Some g' -> won g' = won g.
Proof.
  intros Hs. rewrite (start_drag_Some _ _ _ _ Hs).
  destruct pile; [done| | |]; simpl.
  - by destruct (option_list _).
  - by destruct (option_list _).
  - by destruct (remove_cards_from _ _).1.
Qed.

Lemma won_handle_click (g g' : Game) (ptr : Pointer) :
  handle_click g ptr = Some g' -> won g' = won g.
Proof.
  intros H.
  destruct (handle_click_cases _ _ _ H)
    as [->|[->|(pile & k & card & _ & _ & Hs)]].
  - done.
  - apply won_draw_card_from_stock.
  - by eapply won_start_drag.
Qed.

(** The flag after an event: either as before, or cleared, or the result of
    a final [check_win]. *)
Lemma won_rises_on_completion (g g' : Game) (e : Event) :
  handle_event g e = Some g' ->
  won g = false -> won g' = true -> all_complete g' = true.
Proof.
  intros H Hw Hw'. destruct e as [deck| |fuel|ptr|ptr|hit]; simpl in H.
  - unfold new_game in H.
    destruct (deal_tableaus _ _ _) as [[d ts]|]; simpl in H; [|done].
    injection H as <-. simpl in Hw'. done.
  - unfold undo in H.
    destruct (last (move_history g));
      [|simpl in H; injection H as <-; congruence].
    simpl in H. destruct (restore_foundations _ _ _) as [[fs u]|];
      simpl in H; [|done].
    destruct (restore_tableaus _ _ _) as [[ts u']|]; simpl in H; [|done].
    injection H as <-. simpl in Hw'. done.
  - unfold auto_move_to_foundation in H.
    destruct (auto_loop fuel (save_state g)) as [g1|] eqn:E; [|done].
    simpl in H. injection H as <-.
    rewrite check_win_won in Hw'. rewrite check_win_all_complete.
    rewrite (won_auto_loop _ _ _ E) in Hw'.
    change (won (save_state g)) with (won g) in Hw'. by rewrite Hw in Hw'.
  - rewrite (won_handle_click _ _ _ H) in Hw'. congruence.
  - injection H as <-. unfold double_click in Hw'. unfold double_click.
    destruct ptr as [|pile at_card]; [congruence|].
    destruct pile; try congruence.
    all: destruct (top_card _) as [card|]; [|congruence].
    all: destruct (accepting_foundation g card); [|congruence].
    all: rewrite check_win_won, won_to_foundation in Hw'.
    all: change (won (save_state g)) with (won g) in Hw'.
    all: rewrite check_win_all_complete.
    all: by rewrite Hw in Hw'.
  - unfold handle_drop in H. destruct (dragging g); simpl in H;
      [|injection H as <-; congruence].
    destruct (drag_source g) as [src|]; simpl in H; [|done].
    injection H as <-.
    rewrite check_win_won in Hw'. rewrite check_win_all_complete.
    assert (Hx : forall x, won x = won g ->
                 won (set_drag x (dragging x) [] None) = false)
      by (intros x Hx; simpl; congruence).
    destruct (find_drop_target _ _) as [target|].
    + case_bool_decide.
      * rewrite Hx in Hw' by (by rewrite won_execute_drop). done.
      * rewrite Hx in Hw' by done. done.
    + rewrite Hx in Hw' by done. done.
Qed.

(** C3, as the code has it.  [check_win] raises the win flag when all four
    foundations hold 13 cards and never lowers it; [new_game] and every
    successful [undo] lower it; an event raises the flag only in a state
    whose four foundations hold 13 cards each; and every event that ends in
    [check_win] (an auto-complete run, a release that ends a drag, a double
    click that moves a card to a foundation) raises it whenever it ends in
    such a state. *)
Theorem win_flag_spec :
  (forall g : Game, won (check_win g) = won g || all_complete g)
  /\ (forall (g g' : Game) (deck : list Card),
         new_game g deck = Some g' -> won g' = false)
  /\ (forall g g' : Game, undo g = Some (true, g') -> won g' = false)
  /\ (forall (g g' : Game) (e : Event),
         handle_event g e = Some g' ->
         won g = false -> won g' = true -> all_complete g' = true)
  /\ (forall (g g' : Game) (e : Event),
         handle_event g e = Some g' ->
         (exists fuel, e = KeyA fuel)
         \/ ((exists hit, e = Release hit) /\ dragging g = true)
         \/ (exists pile at_card card i,
               e = DoubleClick (OnPile pile at_card)
               /\ (pile = Waste \/ exists k, pile = Tableau k)
               /\ top_card (pile_cards g pile) = Some card
               /\ accepting_foundation g card = Some i) ->
         all_complete g' = true -> won g' = true).
Proof.
  split; [apply check_win_won|].
  split.
  { intros g g' deck H. unfold new_game in H.
    destruct (deal_tableaus _ _ _) as [[d ts]|]; simpl in H; [|done].
    by injection H as <-. }
  split.
  { intros g g' H. unfold undo in H.
    destruct (last (move_history g)); [|by simplify_eq].
    simpl in H. destruct (restore_foundations _ _ _) as [[fs u]|];
      simpl in H; [|done].
    destruct (restore_tableaus _ _ _) as [[ts u']|]; simpl in H; [|done].
    by injection H as <-. }
  split; [apply won_rises_on_completion|].
  intros g g' e H He Hc.
  destruct He as [[fuel ->]|[[[hit ->] Hd]
                            |(pile & at_card & card & i & -> & Hp & Ht & Ha)]];
    simpl in H.
  - unfold auto_move_to_foundation in H.
    destruct (auto_loop fuel (save_state g)) as [g1|]; [|done].
    simpl in H. injection H as <-.
    rewrite check_win_won. rewrite check_win_all_complete in Hc.
    rewrite Hc. apply orb_true_r.
  - unfold handle_drop in H. rewrite Hd in H. simpl in H.
    destruct (drag_source g) as [src|]; simpl in H; [|done].
    injection H as <-.
    rewrite check_win_won. rewrite check_win_all_complete in Hc.
    rewrite Hc. apply orb_true_r.
  - change (Some (double_click g (OnPile pile at_card)) = Some g') in H.
    assert (E : double_click g (OnPile pile at_card)
                = check_win (to_foundation (save_state g) pile card i)).
    { unfold double_click. destruct Hp as [->|[k ->]]; by rewrite Ht, Ha. }
    rewrite E in H. injection H as <-.
    rewrite check_win_won. rewrite check_win_all_complete in Hc.
    rewrite Hc. apply orb_true_r.
Qed.

(** The claim C3 as written fails: after a win, moving a king from its
    foundation to an empty tableau leaves the flag set while a foundation
    holds 12 cards. *)
Lemma win_flag_not_iff_complete :
  ~ (forall g : Game,
        reachable g -> (won g = true <-> all_complete g = true)).
Proof.
  intros H. destruct (H king_moved_game king_moved_game_reachable) as [H1 _].
  specialize (H1 eq_refl). vm_compute in H1. discriminate.
Qed.

(** ** The properties on the sample session *)

Lemma undo_round_trip_witness :
  length (stock (draw_card_from_stock first_game)) = 23%nat
  /\ exists g'',
      undo (draw_card_from_stock first_game) = Some (true, g'')
      /\ view g'' = view first_game
      /\ length (stock g'') = 24%nat.
Proof.
  split; [reflexivity|].
  destruct (proj1 undo_round_trip first_game (draw_card_from_stock first_game))
    as (g'' & Hu & Hv); [apply move_draw|].
  exists g''. split; [done|]. split; [done|].
  apply (f_equal (fun v => length v.1.1.1.2)) in Hv. simpl in Hv.
  by rewrite !length_fmap in Hv.
Defined.

Lemma drop_score_witness :
  0 <= score drag_game
  /\ dragging drag_game = true
  /\ drag_source drag_game = Some (Tableau 1)
  /\ find_drop_target drag_game (only (Foundation 0)) = Some (Foundation 0)
  /\ exists g',
       handle_drop drag_game (only (Foundation 0)) = Some g'
       /\ score g' = 25
       /\ pile_cards g' (Tableau 1) = [mkCard 2 hearts R3 true].
Proof.
  split; [vm_compute; discriminate|].
  split; [reflexivity|]. split; [reflexivity|]. split; [reflexivity|].
  destruct (drop_score drag_game (only (Foundation 0)) (Tableau 1) (Foundation 0))
    as (g' & Hdrop & Hscore);
    [vm_compute; discriminate|reflexivity|reflexivity|reflexivity|discriminate|].
  exists g'. split; [exact Hdrop|]. vm_compute in Hscore. exact Hscore.
Defined.

Lemma win_flag_spec_witness :
  won last_card_game = false
  /\ won (double_click last_card_game (OnPile Waste (Some 0%nat))) = true
  /\ handle_event last_card_game (KeyA 30) = Some won_game
  /\ won won_game = true.
Proof.
  split; [reflexivity|]. split; [|split; [vm_compute; reflexivity|]].
  - apply (proj2 (proj2 (proj2 (proj2 win_flag_spec))) last_card_game
             (double_click last_card_game (OnPile Waste (Some 0%nat)))
             (DoubleClick (OnPile Waste (Some 0%nat)))).
    + reflexivity.
    + right. right.
      exists Waste, (Some 0%nat), (mkCard 51 spades RK true), 3%nat.
      split; [reflexivity|]. split; [by left|].
      split; vm_compute; reflexivity.
    + vm_compute. reflexivity.
  - apply (proj2 (proj2 (proj2 (proj2 win_flag_spec))) last_card_game
             won_game (KeyA 30)).
    + vm_compute. reflexivity.
    + left. by exists 30%nat.
    + vm_compute. reflexivity.
Defined.

Lemma recycle_spec_witness :
  stock drawn_game = []
  /\ face_up <$> waste drawn_game = replicate 24 true
  /\ waste (draw_card_from_stock drawn_game) = []
  /\ card_id <$> stock (draw_card_from_stock drawn_game)
     = reverse (card_id <$> waste drawn_game)
  /\ face_up <$> stock (draw_card_from_stock drawn_game)
     = replicate 24 false
  /\ score (draw_card_from_stock drawn_game) = 0
  /\ card_id <$> waste (Nat.iter 24 draw_card_from_stock
                          (draw_card_from_stock drawn_game))
     = card_id <$> waste drawn_game.
Proof.
  split; [reflexivity|]. split; [reflexivity|].
  destruct (recycle_spec drawn_game)
    as (Hw & Hid & Hdown & Hscore & _ & Hid' & _);
    [reflexivity|discriminate|].
  split; [exact Hw|]. split; [exact Hid|]. split; [exact Hdown|].
  split; [exact Hscore|exact Hid'].
Defined.

Lemma new_game_deal_witness :
  exists g', new_game setup_piles winning_deck = Some g' /\ score g' = 0.
Proof.
  destruct (new_game_deal setup_piles winning_deck)
    as (g' & Hnew & _ & _ & _ & _ & _ & Hscore & _);
    [reflexivity|apply (bool_decide_unpack _); vm_compute; exact I|].
  exists g'. split; [exact Hnew|exact Hscore].
Defined.

Lemma score_never_negative_witness : 0 <= score won_game.
Proof.
  apply (proj1 score_never_negative).
  apply (play_reachable winning_play first_game).
  - apply (reach_init winning_deck).
    + apply (bool_decide_unpack _). vm_compute. exact I.
    + vm_compute. reflexivity.
  - vm_compute. reflexivity.
Defined.

Lemma tableau_runs_descend_witness :
  tableaus run_game !! 2%nat
  = Some [mkCard 5 hearts R6 false; mkCard 4 hearts R5 false;
          mkCard 3 hearts R4 true; mkCard 28 clubs R3 true;
          mkCard 1 hearts R2 true]
  /\ descending_alternating
       [mkCard 3 hearts R4 true; mkCard 28 clubs R3 true;
        mkCard 1 hearts R2 true].
Proof.
  split; [reflexivity|].
  apply (tableau_runs_descend run_game) with (i := 2%nat)
    (t := [mkCard 5 hearts R6 false; mkCard 4 hearts R5 false;
           mkCard 3 hearts R4 true; mkCard 28 clubs R3 true;
           mkCard 1 hearts R2 true]).
  - apply (play_reachable build_run first_game).
    + apply (reach_init winning_deck).
      * apply (bool_decide_unpack _). vm_compute. exact I.
      * vm_compute. reflexivity.
    + vm_compute. reflexivity.
  - reflexivity.
Defined.

Lemma ace_on_any_empty_foundation_witness :
  f_suit <$> foundations first_game = Some <$> SUITS.
Proof.
  apply (proj2 (proj2 ace_on_any_empty_foundation)).
  apply (reach_init winning_deck).
  - apply (bool_decide_unpack _). vm_compute. exact I.
  - vm_compute. reflexivity.
Defined.

(** * Further properties of the engine *)

(** ** The deck *)

(** X1. [create_deck] builds 52 distinct objects, face down, showing each of
    the 52 faces (suit, rank) exactly once. *)
Theorem create_deck_complete (u : nat) :
  length (create_deck u) = 52%nat
  /\ NoDup (card_face <$> create_deck u)
  /\ (forall (s : Suit) (r : Rank), (s, r) ∈ (card_face <$> create_deck u))
  /\ NoDup (uid <$> create_deck u)
  /\ Forall (fun c => face_up c = false) (create_deck u).
Proof.
  split; [reflexivity|].
  assert (Hfaces : card_face <$> create_deck u = all_faces) by reflexivity.
  split; [|split; [|split]].
  - rewrite Hfaces. apply (bool_decide_unpack _). vm_compute. exact I.
  - intros s r. rewrite Hfaces.
    destruct s, r; apply (bool_decide_unpack _); vm_compute; exact I.
  - assert (Huid : uid <$> create_deck u = (fun i => (u + i)%nat) <$> seq 0 52).
    { unfold create_deck, deck_of_suit. simpl.
      repeat (f_equal; try lia). }
    rewrite Huid. apply NoDup_fmap_2; [intros i j; lia|apply NoDup_seq].
  - unfold create_deck, deck_of_suit. simpl. repeat constructor.
Qed.

(** ** Removing a run from a pile *)

Lemma index_of_None (card : Card) (cards : list Card) :
  index_of card cards = None <-> card ∉ cards.
Proof.
  induction cards as [|c cards IH]; simpl.
  - split; [intros _; apply not_elem_of_nil|done].
  - case_bool_decide as Hc.
    + subst c. split; [done|]. intros H. destruct H. apply list_elem_of_here.
    + destruct (index_of card cards) as [j|] eqn:E; simpl.
      * split; [done|]. intros H. exfalso.
        assert (Hin : card ∉ cards).
        { intros Hin. apply H. by apply list_elem_of_further. }
        apply IH in Hin. done.
      * split; [|done]. intros _ Hin.
        apply elem_of_cons in Hin as [->|Hin]; [done|].
        by apply (proj1 IH).
Qed.

Lemma index_of_first (card : Card) (cards : list Card) (i : nat) :
  index_of card cards = Some i -> card ∉ take i cards.
Proof.
  revert i. induction cards as [|c cards IH]; intros i H; [done|].
  simpl in H. case_bool_decide as Hc.
  - simplify_eq. simpl. apply not_elem_of_nil.
  - destruct (index_of card cards) as [j|] eqn:E; [|done].
    simpl in H. simplify_eq. simpl.
    intros Hin. apply elem_of_cons in Hin as [->|Hin]; [done|].
    by apply (IH j).
Qed.

(** X2. [remove_cards_from] splits the pile at the first occurrence of the
    card: the rest followed by the removed run is the old pile; a card that
    is not in the pile removes nothing; a card that is in the pile heads the
    removed run and no longer occurs in the rest. *)
Theorem remove_cards_from_spec (cards : list Card) (card : Card) :
  (remove_cards_from cards card).2 ++ (remove_cards_from cards card).1 = cards
  /\ (card ∉ cards -> remove_cards_from cards card = ([], cards))
  /\ (card ∈ cards ->
      head (remove_cards_from cards card).1 = Some card
      /\ card ∉ (remove_cards_from cards card).2).
Proof.
  split; [apply remove_cards_from_app|]. split.
  - intros Hnot. unfold remove_cards_from.
    by rewrite (proj2 (index_of_None card cards) Hnot).
  - intros Hin. unfold remove_cards_from.
    destruct (index_of card cards) as [i|] eqn:E.
    + simpl. split; [|by apply index_of_first].
      apply index_of_Some in E. rewrite head_lookup, lookup_drop.
      by rewrite Nat.add_0_r.
    + apply index_of_None in E. done.
Qed.

Lemma remove_cards_from_spec_witness :
  let two := mkCard 1 hearts R2 true in
  let three := mkCard 2 hearts R3 false in
  head (remove_cards_from [three; two] two).1 = Some two
  /\ two ∉ (remove_cards_from [three; two] two).2.
Proof.
  intros two three.
  apply (proj2 (proj2 (remove_cards_from_spec [three; two] two))).
  apply (bool_decide_unpack _). vm_compute. exact I.
Defined.

(** ** Starting a drag *)

(** X3. [start_drag] raises on an empty waste or foundation pile and on
    nothing else.  When it returns, it has changed nothing but the drag
    session: the cards of all piles, the score, the win flag and the undo
    history stay as they are (the run taken off a tableau is put back at
    once).  From a waste or foundation pile the dragged run is the top card;
    from a tableau that holds the clicked card it is the part of the pile
    from the first occurrence of that card to the top. *)
Theorem start_drag_keeps_table (g : Game) (pile : PileId) (card : Card) :
  (start_drag g pile card = None
   <-> (pile = Waste \/ exists i, pile = Foundation i)
       /\ pile_cards g pile = [])
  /\ forall g',
      start_drag g pile card = Some g' ->
      stock g' = stock g
      /\ waste g' = waste g
      /\ foundations g' = foundations g
      /\ tableaus g' = tableaus g
      /\ score g' = score g
      /\ won g' = won g
      /\ move_history g' = move_history g
      /\ (forall top,
            pile = Waste \/ (exists i, pile = Foundation i) ->
            top_card (pile_cards g pile) = Some top ->
            drag_state g' = (true, [top], Some pile))
      /\ (forall k i,
            pile = Tableau k ->
            index_of card (pile_cards g pile) = Some i ->
            drag_state g' = (true, drop i (pile_cards g pile), Some pile)).
Proof.
  split; [apply start_drag_None|].
  intros g' Hs. rewrite (start_drag_Some _ _ _ _ Hs).
  assert (H : forall run,
             let g' := match run with
                       | [] => set_drag g (dragging g) [] (drag_source g)
                       | _ :: _ => set_drag g true run (Some pile)
                       end in
             stock g' = stock g /\ waste g' = waste g
             /\ foundations g' = foundations g /\ tableaus g' = tableaus g
             /\ score g' = score g /\ won g' = won g
             /\ move_history g' = move_history g).
  { intros run. by destruct run. }
  destruct pile as [| |j|k].
  - repeat split; try done. by intros top [|[? ?]].
  - destruct (H (option_list (top_card (pile_cards g Waste))))
      as (? & ? & ? & ? & ? & ? & ?). repeat split; try done.
    intros top _ Ht. simpl. by rewrite Ht.
  - destruct (H (option_list (top_card (pile_cards g (Foundation j)))))
      as (? & ? & ? & ? & ? & ? & ?). repeat split; try done.
    intros top _ Ht. simpl. by rewrite Ht.
  - destruct (H (remove_cards_from (pile_cards g (Tableau k)) card).1)
      as (? & ? & ? & ? & ? & ? & ?). repeat split; try done.
    { by intros top [|[? ?]]. }
    intros k' i [= <-] Hi. simpl. unfold remove_cards_from. rewrite Hi. simpl.
    apply index_of_Some in Hi.
    destruct (drop i (pile_cards g (Tableau k))) as [|c run] eqn:E; [|done].
    apply (f_equal length) in E. rewrite length_drop in E. simpl in E.
    apply lookup_lt_Some in Hi. lia.
Qed.

Lemma start_drag_keeps_table_witness :
  start_drag drag_game (Tableau 1) (mkCard 1 hearts R2 true)
  = Some (set_drag drag_game true [mkCard 1 hearts R2 true]
            (Some (Tableau 1)))
  /\ tableaus (set_drag drag_game true [mkCard 1 hearts R2 true]
                 (Some (Tableau 1)))
     = tableaus drag_game
  /\ start_drag first_game Waste (mkCard 1 hearts R2 true) = None.
Proof.
  split; [reflexivity|]. split.
  - apply (proj2 (start_drag_keeps_table drag_game (Tableau 1)
                    (mkCard 1 hearts R2 true))).
    reflexivity.
  - apply (proj1 (start_drag_keeps_table first_game Waste
                    (mkCard 1 hearts R2 true))).
    split; [by left|reflexivity].
Defined.

(** ** Drops that do not move anything *)

(** X4. A release without a drag changes nothing at all.  A release during a
    drag that finds no target, or only the source pile itself, moves no card,
    leaves score and undo history alone (no snapshot is taken) and ends the
    drag. *)
Theorem invalid_drop_keeps_table (g : Game) (hit : PileId -> bool) :
  (dragging g = false -> handle_drop g hit = Some g)
  /\ (forall src,
        dragging g = true ->
        drag_source g = Some src ->
        find_drop_target g hit = None \/ find_drop_target g hit = Some src ->
        exists g',
          handle_drop g hit = Some g'
          /\ snapshot g' = snapshot g
          /\ move_history g' = move_history g
          /\ drag_state g' = (false, [], None)).
Proof.
  split.
  - intros Hd. unfold handle_drop. by rewrite Hd.
  - intros src Hd Hsrc Hfind. unfold handle_drop. rewrite Hd. simpl.
    rewrite Hsrc. simpl.
    change (find_drop_target (set_drag g false (dragged_cards g) (Some src)) hit)
      with (find_drop_target g hit).
    assert (E : match find_drop_target g hit with
                | Some target =>
                    if bool_decide (target <> src)
                    then execute_drop
                           (set_drag g false (dragged_cards g) (Some src))
                           src target
                    else set_drag g false (dragged_cards g) (Some src)
                | None => set_drag g false (dragged_cards g) (Some src)
                end = set_drag g false (dragged_cards g) (Some src)).
    { destruct Hfind as [->| ->]; [done|].
      by rewrite bool_decide_eq_false_2 by (intros H; by apply H). }
    rewrite E. eexists. split; [reflexivity|].
    unfold check_win. by destruct (forallb _ _).
Qed.

Lemma invalid_drop_keeps_table_witness :
  exists g',
    handle_drop drag_game (only (Tableau 1)) = Some g'
    /\ snapshot g' = snapshot drag_game
    /\ move_history g' = move_history drag_game
    /\ drag_state g' = (false, [], None).
Proof.
  apply (proj2 (invalid_drop_keeps_table drag_game (only (Tableau 1)))
           (Tableau 1)); [reflexivity|reflexivity|].
  left. reflexivity.
Defined.

(** ** Drawing *)

(** X5. [draw_card_from_stock] on a non-empty stock moves exactly its top
    card, turned face up, onto the waste and leaves score, foundations and
    tableaus alone; with stock and waste both empty it changes no pile and no
    score.  In every case it first records a snapshot of the state it
    found. *)
Theorem draw_card_from_stock_spec (g : Game) :
  (forall below c,
      stock g = below ++ [c] ->
      stock (draw_card_from_stock g) = below
      /\ waste (draw_card_from_stock g) = waste g ++ [set_face_up true c]
      /\ score (draw_card_from_stock g) = score g
      /\ foundations (draw_card_from_stock g) = foundations g
      /\ tableaus (draw_card_from_stock g) = tableaus g)
  /\ (stock g = [] -> waste g = [] ->
      snapshot (draw_card_from_stock g) = snapshot g)
  /\ move_history (draw_card_from_stock g) = move_history (save_state g).
Proof.
  split; [|split].
  - intros below c Hs. unfold draw_card_from_stock.
    assert (Hst : stock (save_state g) = below ++ [c]) by exact Hs.
    rewrite Hst, remove_card_snoc. done.
  - intros Hs Hw. unfold draw_card_from_stock.
    assert (Hst : stock (save_state g) = []) by exact Hs.
    rewrite Hst. simpl. rewrite Hw. done.
  - exact (f_equal (fun x => x.1.1) (frame_draw_card_from_stock g)).
Qed.

Lemma draw_card_from_stock_spec_witness :
  stock (draw_card_from_stock won_game) = []
  /\ snapshot (draw_card_from_stock won_game) = snapshot won_game.
Proof.
  split; [reflexivity|].
  apply (proj1 (proj2 (draw_card_from_stock_spec won_game))); reflexivity.
Defined.

(** ** Undo in general *)

(** X6. [undo] with an empty history returns [False] and changes nothing.
    In a session, [undo] with a non-empty history never fails: it returns
    [True], the piles and the score show exactly the last snapshot, the
    history loses that one entry, the win flag is cleared and the drag
    session is left alone. *)
Theorem undo_pops_last_snapshot :
  (forall g : Game, move_history g = [] -> undo g = Some (false, g))
  /\ (forall (g : Game) (h : list Snapshot) (s : Snapshot),
         reachable g ->
         move_history g = h ++ [s] ->
         exists g',
           undo g = Some (true, g')
           /\ snapshot g' = s
           /\ move_history g' = h
           /\ won g' = false
           /\ drag_state g' = drag_state g).
Proof.
  split.
  - intros g Hh. unfold undo. by rewrite Hh.
  - intros g h s Hg Hh. apply reachable_Inv in Hg.
    destruct Hg as [_ _ Hhist Ht Hm _].
    rewrite Hh in Hhist.
    destruct (proj1 (Forall_app _ _ _) Hhist) as [_ Hs].
    apply (proj1 (Forall_singleton _ _)) in Hs.
    destruct Hs as (_ & _ & _ & _ & Hl4 & Hl7).
    destruct (undo_restores g h s Hh)
      as (g' & Hu & Hsnap & Hh' & Hw & _ & Hd1 & Hd2 & Hd3).
    { rewrite Hl4. symmetry. by apply markers_length. }
    { by rewrite Hl7. }
    exists g'. repeat split; try done.
    unfold drag_state. by rewrite Hd1, Hd2, Hd3.
Qed.

Lemma undo_pops_last_snapshot_witness :
  exists g',
    undo king_moved_game = Some (true, g')
    /\ snapshot g' = snapshot won_game
    /\ move_history g' = move_history won_game
    /\ won g' = false
    /\ drag_state g' = drag_state king_moved_game.
Proof.
  apply (proj2 undo_pops_last_snapshot king_moved_game).
  - apply (play_reachable (winning_play ++ king_move) first_game).
    + apply (reach_init winning_deck).
      * apply (bool_decide_unpack _). vm_compute. exact I.
      * vm_compute. reflexivity.
    + vm_compute. reflexivity.
  - vm_compute. reflexivity.
Defined.

(** ** The bound on the undo history *)

Lemma tail_length {A} (l : list A) : length (tail l) = pred (length l).
Proof. by destruct l. Qed.

Lemma save_state_length (g : Game) :
  (length (move_history g) <= 100)%nat ->
  (length (move_history (save_state g)) <= 100)%nat.
Proof.
  intros H. unfold save_state. simpl.
  destruct (100 <? length (move_history g ++ [snapshot g]))%nat eqn:E.
  - rewrite tail_length, length_app. simpl. lia.
  - by apply Nat.ltb_ge in E.
Qed.

Lemma move_history_start_drag (g g' : Game) (pile : PileId) (card : Card) :
  start_drag g pile card = Some g' -> move_history g' = move_history g.
Proof.
  intros Hs. rewrite (start_drag_Some _ _ _ _ Hs).
  destruct pile; [done| | |]; simpl.
  - by destruct (option_list _).
  - by destruct (option_list _).
  - by destruct (remove_cards_from _ _).1.
Qed.

Lemma history_of_event (g g' : Game) (e : Event) :
  handle_event g e = Some g' ->
  move_history g' = move_history g
  \/ move_history g' = move_history (save_state g)
  \/ move_history g' = removelast (move_history g)
  \/ move_history g' = [].
Proof.
  intros H. destruct e as [deck| |fuel|ptr|ptr|hit]; simpl in H.
  - unfold new_game in H.
    destruct (deal_tableaus _ _ _) as [[d ts]|]; simpl in H; [|done].
    injection H as <-. auto.
  - unfold undo in H.
    destruct (last (move_history g));
      [|simpl in H; injection H as <-; auto].
    simpl in H. destruct (restore_foundations _ _ _) as [[fs u]|];
      simpl in H; [|done].
    destruct (restore_tableaus _ _ _) as [[ts u']|]; simpl in H; [|done].
    injection H as <-. auto.
  - unfold auto_move_to_foundation in H.
    destruct (auto_loop fuel (save_state g)) as [g1|] eqn:E; [|done].
    simpl in H. injection H as <-. right. left.
    pose proof (frame_auto_loop _ _ _ E) as Hf.
    rewrite <- frame_check_win in Hf.
    exact (f_equal (fun x => x.1.1) Hf).
  - destruct (handle_click_cases _ _ _ H)
      as [->|[->|(pile & k & card & _ & _ & Hs)]].
    + auto.
    + right. left.
      exact (f_equal (fun x => x.1.1) (frame_draw_card_from_stock g)).
    + left. by eapply move_history_start_drag.
  - injection H as <-. unfold double_click.
    destruct ptr as [|pile at_card]; [auto|].
    destruct pile; auto.
    all: destruct (top_card _) as [card|]; [|auto].
    all: destruct (accepting_foundation g card); [|auto].
    all: right; left.
    all: match goal with
         | |- context [to_foundation _ ?p _ _] =>
             pose proof (frame_to_foundation (save_state g) p card n) as Hf
         end.
    all: rewrite <- frame_check_win in Hf.
    all: exact (f_equal (fun x => x.1.1) Hf).
  - unfold handle_drop in H. destruct (dragging g); simpl in H;
      [|injection H as <-; auto].
    destruct (drag_source g) as [src|]; simpl in H; [|done].
    injection H as <-.
    assert (Hc : forall x, move_history (check_win (set_drag x (dragging x) [] None))
                           = move_history x).
    { intros x. unfold check_win. by destruct (forallb _ _). }
    rewrite Hc.
    destruct (find_drop_target _ _) as [target|]; [|auto].
    case_bool_decide; [|auto].
    right. left.
    exact (f_equal (fun x => x.1.1) (frame_execute_drop _ src target)).
Qed.

(** X7. The undo history of a session never holds more than 100 snapshots:
    [save_state] appends the current snapshot and, at 100 entries, drops the
    oldest one. *)
Theorem history_bounded :
  (forall g : Game, reachable g -> (length (move_history g) <= 100)%nat)
  /\ (forall g : Game,
         (length (move_history g) < 100)%nat ->
         move_history (save_state g) = move_history g ++ [snapshot g])
  /\ (forall g : Game,
         length (move_history g) = 100%nat ->
         move_history (save_state g) = tail (move_history g) ++ [snapshot g]).
Proof.
  split; [|split].
  - induction 1 as [deck g Hperm Hnew|g e g' Hreach IH Hok Hstep].
    + unfold new_game in Hnew.
      destruct (deal_tableaus _ _ _) as [[d ts]|]; simpl in Hnew; [|done].
      injection Hnew as <-. simpl. lia.
    + destruct (history_of_event g g' e Hstep) as [->|[->|[->| ->]]].
      * done.
      * by apply save_state_length.
      * rewrite removelast_take, length_take. lia.
      * simpl. lia.
  - intros g Hlt. unfold save_state. simpl.
    rewrite (proj2 (Nat.ltb_ge _ _)); [done|].
    rewrite length_app. simpl. lia.
  - intros g Hlen. unfold save_state. simpl.
    rewrite (proj2 (Nat.ltb_lt _ _)) by (rewrite length_app; simpl; lia).
    destruct (move_history g); [done|reflexivity].
Qed.

Lemma history_bounded_witness : (length (move_history won_game) <= 100)%nat.
Proof.
  apply (proj1 history_bounded).
  apply (play_reachable winning_play first_game).
  - apply (reach_init winning_deck).
    + apply (bool_decide_unpack _). vm_compute. exact I.
    + vm_compute. reflexivity.
  - vm_compute. reflexivity.
Defined.

(** ** Faces of the cards in a session *)

Lemma ordered_split (t : list Card) :
  ordered (card_state <$> t) ->
  top_up (card_state <$> t) ->
  exists down up,
    t = down ++ up
    /\ Forall (fun c => face_up c = false) down
    /\ Forall (fun c => face_up c = true) up
    /\ (t <> [] -> up <> []).
Proof.
  induction t as [|x t IH]; intros Hord Htop.
  - exists [], []. repeat split; try constructor. done.
  - destruct (face_up x) eqn:Ex.
    + exists [], (x :: t). repeat split; try constructor; try done.
      * pose proof (ordered_up_above (card_state <$> x :: t) 0
                      (card_state x) Hord eq_refl Ex) as Hall.
        simpl in Hall. apply Forall_cons in Hall as [_ Hall].
        apply (proj1 (Forall_fmap _ _ _)) in Hall. exact Hall.
    + destruct t as [|y t].
      * exfalso. specialize (Htop (card_state x) eq_refl). simpl in Htop.
        congruence.
      * destruct IH as (down & up & Ht & Hd & Hu & Hne).
        { by destruct Hord. }
        { intros z Hz. apply Htop. exact Hz. }
        exists (x :: down), up. repeat split; try done.
        -- simpl. by rewrite Ht.
        -- by constructor.
        -- intros _. by apply Hne.
Qed.

(** X8. In every state of a session the waste and the foundations hold
    face-up cards only, and each tableau is a block of face-down cards under
    a block of face-up cards, the latter not empty unless the tableau is. *)
Theorem faces_in_session (g : Game) :
  reachable g ->
  Forall (fun c => face_up c = true) (waste g)
  /\ (forall i f,
        foundations g !! i = Some f ->
        Forall (fun c => face_up c = true) (f_cards f))
  /\ (forall i t,
        tableaus g !! i = Some t ->
        exists down up,
          t = down ++ up
          /\ Forall (fun c => face_up c = false) down
          /\ Forall (fun c => face_up c = true) up
          /\ (t <> [] -> up <> [])).
Proof.
  intros Hg. destruct (reachable_Inv g Hg) as [_ Hp _ _ _ _].
  split; [|split].
  - pose proof (Hp Waste) as H. simpl in H.
    apply (proj1 (Forall_fmap _ _ _)) in H. exact H.
  - intros i f Hf. pose proof (Hp (Foundation i)) as H.
    rewrite (pile_cards_foundation g i f Hf) in H. simpl in H.
    apply (proj1 (Forall_fmap _ _ _)) in H. exact H.
  - intros i t Ht. pose proof (Hp (Tableau i)) as H.
    rewrite (pile_cards_tableau g i t Ht) in H. destruct H as [Hord Htop].
    by apply ordered_split.
Qed.

Lemma faces_in_session_witness :
  Forall (fun c => face_up c = true) (waste drag_game).
Proof.
  apply (faces_in_session drag_game).
  apply (play_reachable pick_up_two first_game).
  - apply (reach_init winning_deck).
    + apply (bool_decide_unpack _). vm_compute. exact I.
    + vm_compute. reflexivity.
  - vm_compute. reflexivity.
Defined.

Lemma undo_succeeds_Inv (g : Game) (h : list Snapshot) (s : Snapshot) :
  Inv g ->
  move_history g = h ++ [s] ->
  exists g', undo g = Some (true, g').
Proof.
  intros [_ _ Hhist Ht Hm _] Hh. rewrite Hh in Hhist.
  destruct (proj1 (Forall_app _ _ _) Hhist) as [_ Hs].
  apply (proj1 (Forall_singleton _ _)) in Hs.
  destruct Hs as (_ & _ & _ & _ & Hl4 & Hl7).
  destruct (undo_restores g h s Hh) as (g' & Hu & _).
  { rewrite Hl4. symmetry. by apply markers_length. }
  { by rewrite Hl7. }
  by exists g'.
Qed.

(** ** No event of a session raises *)

(** X9. In a session every event is handled without an exception: the deal
    finds its 52 cards and 7 tableaus, [undo] finds a pile for every saved
    list, a release during a drag finds its source pile, and auto-complete
    ends within one pass more than there are waste and tableau cards. *)
Theorem session_never_raises (g : Game) (e : Event) :
  reachable g ->
  event_ok g e ->
  (forall fuel, e = KeyA fuel -> (movable_cards g < fuel)%nat) ->
  is_Some (handle_event g e).
Proof.
  intros Hg Hok Hfuel. pose proof (reachable_Inv g Hg) as HI.
  destruct e as [deck| |fuel|ptr|ptr|hit]; simpl in *; try done.
  - apply Permutation_length in Hok. rewrite create_deck_length in Hok.
    destruct HI as [_ _ _ Ht _ _].
    destruct (new_game_result g deck Ht Hok) as (g' & -> & _). done.
  - destruct (last (move_history g)) as [s0|] eqn:El.
    + apply last_Some in El as [h0 Eh].
      destruct (undo_succeeds_Inv g h0 s0 HI Eh) as (g' & ->). done.
    + unfold undo. rewrite El. done.
  - apply auto_move_total. by apply Hfuel.
  - apply handle_click_total.
  - unfold handle_drop. destruct (dragging g) eqn:Ed; simpl; [|done].
    destruct HI as [_ _ _ _ _ (_ & _ & Hsrc)].
    destruct (Hsrc Ed) as [src ->]. done.
Qed.

Lemma session_never_raises_witness :
  is_Some (handle_event drag_game KeyU).
Proof.
  apply session_never_raises; [|exact I|discriminate].
  apply (play_reachable pick_up_two first_game).
  - apply (reach_init winning_deck).
    + apply (bool_decide_unpack _). vm_compute. exact I.
    + vm_compute. reflexivity.
  - vm_compute. reflexivity.
Defined.

(** ** Auto-complete runs to the end *)

Lemma auto_loop_more_fuel (fuel : nat) :
  forall g g' fuel',
    auto_loop fuel g = Some g' -> (fuel <= fuel')%nat ->
    auto_loop fuel' g = Some g'.
Proof.
  induction fuel as [|fuel IH]; intros g g' fuel' H Hle; [done|].
  destruct fuel' as [|fuel']; [lia|]. simpl in *.
  destruct (auto_pass g) as [g1 moved]. destruct moved; [|done].
  apply (IH _ _ _ H). lia.
Qed.

Lemma auto_tableaus_moved (idx : list nat) (g : Game) :
  (auto_tableaus idx g true).2 = true.
Proof.
  induction idx as [|i idx IH]; [done|]. simpl.
  destruct (top_card _) as [card|]; [|exact IH].
  by destruct (accepting_foundation g card).
Qed.

Lemma auto_tableaus_still (idx : list nat) :
  forall g g',
    auto_tableaus idx g false = (g', false) ->
    g' = g
    /\ forall i c,
         i ∈ idx ->
         top_card (pile_cards g (Tableau i)) = Some c ->
         accepting_foundation g c = None.
Proof.
  induction idx as [|i idx IH]; intros g g' H; simpl in H.
  - injection H as <-. split; [done|]. intros i c Hi. by apply elem_of_nil in Hi.
  - destruct (top_card (pile_cards g (Tableau i))) as [card|] eqn:Et.
    + destruct (accepting_foundation g card) as [k|] eqn:Ea; [done|].
      destruct (IH g g' H) as [-> Hrest]. split; [done|].
      intros j c Hj Hc. apply elem_of_cons in Hj as [->|Hj]; [|by eapply Hrest].
      rewrite Et in Hc. by simplify_eq.
    + destruct (IH g g' H) as [-> Hrest]. split; [done|].
      intros j c Hj Hc. apply elem_of_cons in Hj as [->|Hj]; [|by eapply Hrest].
      rewrite Et in Hc. done.
Qed.

Lemma auto_pass_still (g g' : Game) :
  auto_pass g = (g', false) ->
  g' = g
  /\ (forall c, top_card (waste g) = Some c -> accepting_foundation g c = None)
  /\ (forall i t c,
        tableaus g !! i = Some t -> top_card t = Some c ->
        accepting_foundation g c = None).
Proof.
  unfold auto_pass, auto_waste. intros H.
  destruct (top_card (waste g)) as [card|] eqn:Et.
  - destruct (accepting_foundation g card) as [k|] eqn:Ea.
    + pose proof (auto_tableaus_moved
                    (seq 0 (length (tableaus (to_foundation g Waste card k))))
                    (to_foundation g Waste card k)) as Hm.
      rewrite H in Hm. done.
    + destruct (auto_tableaus_still _ _ _ H) as [-> Hrest].
      split; [done|]. split.
      * intros c [= <-]. done.
      * intros i t c Ht Hc. apply (Hrest i).
        -- apply elem_of_seq. apply lookup_lt_Some in Ht. lia.
        -- by rewrite (pile_cards_tableau g i t Ht).
  - destruct (auto_tableaus_still _ _ _ H) as [-> Hrest].
    split; [done|]. split; [done|].
    intros i t c Ht Hc. apply (Hrest i).
    + apply elem_of_seq. apply lookup_lt_Some in Ht. lia.
    + by rewrite (pile_cards_tableau g i t Ht).
Qed.

Lemma auto_loop_still (fuel : nat) :
  forall g g', auto_loop fuel g = Some g' -> auto_pass g' = (g', false).
Proof.
  induction fuel as [|fuel IH]; intros g g' H; [done|]. simpl in H.
  destruct (auto_pass g) as [g1 moved] eqn:E. destruct moved.
  - by apply (IH g1).
  - injection H as <-. destruct (auto_pass_still g g1 E) as [-> _]. exact E.
Qed.

(** X10. When auto-complete returns, no move is left for it: no foundation
    accepts the top card of the waste or of any tableau.  Its result does not
    depend on the fuel of the model: any two runs that end agree. *)
Theorem auto_complete_exhausts (fuel : nat) (g g' : Game) :
  auto_move_to_foundation fuel g = Some g' ->
  (forall c, top_card (waste g') = Some c -> accepting_foundation g' c = None)
  /\ (forall i t c,
        tableaus g' !! i = Some t -> top_card t = Some c ->
        accepting_foundation g' c = None)
  /\ (forall fuel' g'',
        auto_move_to_foundation fuel' g = Some g'' -> g'' = g').
Proof.
  intros H. unfold auto_move_to_foundation in H.
  destruct (auto_loop fuel (save_state g)) as [g1|] eqn:E; [|done].
  simpl in H. injection H as <-.
  destruct (auto_pass_still g1 g1 (auto_loop_still _ _ _ E)) as (_ & Hw & Ht).
  assert (Hcw : check_win g1 = g1 \/ check_win g1 = set_won g1 true).
  { unfold check_win. destruct (forallb _ _); auto. }
  split; [|split].
  - destruct Hcw as [-> | ->]; exact Hw.
  - destruct Hcw as [-> | ->]; exact Ht.
  - intros fuel' g'' H'. unfold auto_move_to_foundation in H'.
    destruct (auto_loop fuel' (save_state g)) as [g2|] eqn:E'; [|done].
    simpl in H'. injection H' as <-.
    pose proof (auto_loop_more_fuel _ _ _ (Nat.max fuel fuel') E
                  (Nat.le_max_l _ _)) as H1.
    pose proof (auto_loop_more_fuel _ _ _ (Nat.max fuel fuel') E'
                  (Nat.le_max_r _ _)) as H2.
    congruence.
Qed.

Lemma auto_complete_exhausts_witness :
  exists g',
    auto_move_to_foundation 30 first_game = Some g'
    /\ forall i t c,
         tableaus g' !! i = Some t -> top_card t = Some c ->
         accepting_foundation g' c = None.
Proof.
  eexists. split; [vm_compute; reflexivity|].
  apply (auto_complete_exhausts 30 first_game). vm_compute. reflexivity.
Defined.

(** ** Where a drop lands *)

Lemma find_index_None {A} (p : nat -> A -> bool) (l : list A) :
  forall i0,
    (forall i x, l !! i = Some x -> p (i0 + i)%nat x = false) ->
    find_index p i0 l = None.
Proof.
  induction l as [|x l IH]; intros i0 H; [done|]. simpl.
  pose proof (H 0%nat x eq_refl) as H0. rewrite Nat.add_0_r in H0.
  rewrite H0. apply IH. intros i y Hy.
  rewrite Nat.add_succ_l, <- Nat.add_succ_r. by apply (H (S i)).
Qed.

Lemma find_index_first {A} (p : nat -> A -> bool) (l : list A) :
  forall i0 i x,
    l !! i = Some x -> p (i0 + i)%nat x = true ->
    is_Some (find_index p i0 l).
Proof.
  induction l as [|y l IH]; intros i0 i x Hx Hp; [done|]. simpl.
  destruct (p i0 y) eqn:E; [done|].
  destruct i as [|i].
  - simpl in Hx. simplify_eq. rewrite Nat.add_0_r in Hp. congruence.
  - apply (IH (S i0) i x); [done|].
    by rewrite Nat.add_succ_l, <- Nat.add_succ_r.
Qed.

(** X11. [find_drop_target] only returns a pile whose drop zone holds the
    release point and which accepts the first dragged card, a foundation only
    for a single dragged card.  Foundations come first: a single card that
    some hit foundation accepts goes to a foundation.  Without dragged cards,
    or with no drop zone hit, there is no target. *)
Theorem find_drop_target_sound (g : Game) (hit : PileId -> bool) :
  (forall target,
      find_drop_target g hit = Some target ->
      hit target = true
      /\ exists first_card run,
          dragged_cards g = first_card :: run
          /\ ((exists i f,
                  target = Foundation i /\ foundations g !! i = Some f
                  /\ run = []
                  /\ FoundationPile.can_add f first_card = true)
              \/ (exists j t,
                     target = Tableau j /\ tableaus g !! j = Some t
                     /\ TableauPile.can_add t first_card = true)))
  /\ (forall first_card i f,
        dragged_cards g = [first_card] ->
        foundations g !! i = Some f ->
        hit (Foundation i) = true ->
        FoundationPile.can_add f first_card = true ->
        exists k, find_drop_target g hit = Some (Foundation k))
  /\ (dragged_cards g = [] -> find_drop_target g hit = None)
  /\ ((forall p, hit p = false) -> find_drop_target g hit = None).
Proof.
  split; [|split; [|split]].
  - intros target H. unfold find_drop_target in H.
    destruct (dragged_cards g) as [|first_card run] eqn:Ed; [done|].
    destruct (length (first_card :: run) =? 1)%nat eqn:El.
    + destruct (find_index _ 0%nat (foundations g)) as [i|] eqn:Ef.
      * injection H as <-.
        apply find_index_Some in Ef as (f & _ & Hf & Hp).
        rewrite Nat.sub_0_r in Hf. apply andb_true_iff in Hp as [Hh Hc].
        split; [done|]. exists first_card, run. split; [done|]. left.
        exists i, f. repeat split; try done.
        apply Nat.eqb_eq in El. by destruct run.
      * destruct (find_index _ 0%nat (tableaus g)) as [j|] eqn:Et;
          simpl in H; [|done].
        injection H as <-.
        apply find_index_Some in Et as (t & _ & Ht & Hp).
        rewrite Nat.sub_0_r in Ht. apply andb_true_iff in Hp as [Hh Hc].
        split; [done|]. exists first_card, run. split; [done|]. right.
        by exists j, t.
    + destruct (find_index _ 0%nat (tableaus g)) as [j|] eqn:Et;
        simpl in H; [|done].
      injection H as <-.
      apply find_index_Some in Et as (t & _ & Ht & Hp).
      rewrite Nat.sub_0_r in Ht. apply andb_true_iff in Hp as [Hh Hc].
      split; [done|]. exists first_card, run. split; [done|]. right.
      by exists j, t.
  - intros first_card i f Hd Hf Hh Hc. unfold find_drop_target.
    rewrite Hd. simpl.
    destruct (find_index_first
                (fun i f => hit (Foundation i)
                            && FoundationPile.can_add f first_card)
                (foundations g) 0%nat i f Hf) as [k ->].
    { simpl. by rewrite Hh, Hc. }
    by exists k.
  - intros Hd. unfold find_drop_target. by rewrite Hd.
  - intros Hno. unfold find_drop_target.
    destruct (dragged_cards g) as [|first_card run]; [done|].
    rewrite (find_index_None _ (tableaus g))
      by (intros; by rewrite Hno).
    destruct (_ =? _)%nat; [|done].
    by rewrite (find_index_None _ (foundations g))
      by (intros; by rewrite Hno).
Qed.

Lemma find_drop_target_sound_witness :
  exists k, find_drop_target drag_game (only (Foundation 0)) = Some (Foundation k).
Proof.
  apply (proj1 (proj2 (find_drop_target_sound drag_game (only (Foundation 0))))
           (mkCard 1 hearts R2 true) 0%nat
           (mkFoundation (Some hearts) [mkCard 0 hearts RA true]));
    reflexivity.
Defined.

(** ** The double click *)

Lemma accepting_foundation_valid (g : Game) (card : Card) (i : nat) :
  accepting_foundation g card = Some i ->
  exists f, foundations g !! i = Some f
            /\ FoundationPile.can_add f card = true.
Proof.
  unfold accepting_foundation. intros H.
  apply find_index_Some in H as (f & _ & Hf & Hc).
  rewrite Nat.sub_0_r in Hf. by exists f.
Qed.

Lemma pile_cards_check_win (g : Game) (p : PileId) :
  pile_cards (check_win g) p = pile_cards g p.
Proof. unfold check_win. by destruct (forallb _ _). Qed.

Lemma score_check_win (g : Game) : score (check_win g) = score g.
Proof. unfold check_win. by destruct (forallb _ _). Qed.

Lemma foundations_length_set_pile_cards (g : Game) (p : PileId) cs :
  length (foundations (set_pile_cards g p cs)) = length (foundations g).
Proof. destruct p; simpl; try done. apply length_alter. Qed.

(** The piles and the score after [to_foundation], step by step. *)
Lemma to_foundation_spec (g : Game) (pile : PileId) (below : list Card)
    (card : Card) (i : nat) :
  0 <= score g ->
  pile = Waste \/ (exists k, pile = Tableau k) ->
  pile_cards g pile = below ++ [card] ->
  (i < length (foundations g))%nat ->
  let g' := to_foundation g pile card i in
  pile_cards g' (Foundation i) = pile_cards g (Foundation i) ++ [card]
  /\ match pile, top_card below with
     | Tableau _, Some top =>
         if face_up top
         then score g' = score g + 10 /\ pile_cards g' pile = below
         else score g' = score g + 15
              /\ pile_cards g' pile = removelast below ++ [set_face_up true top]
     | _, _ => score g' = score g + 10 /\ pile_cards g' pile = below
     end.
Proof.
  intros Hpos Hp Hcards Hi g'. subst g'. unfold to_foundation.
  rewrite Hcards, remove_card_snoc. simpl.
  assert (Hne : Foundation i <> pile) by (destruct Hp as [->|[k ->]]; done).
  set (g2 := set_pile_cards g pile below).
  assert (H2 : pile_cards g2 pile = below).
  { subst g2. destruct Hp as [->|[k ->]]; [done|].
    rewrite pile_cards_set_tableau, decide_True; [done|].
    apply pile_cards_tableau_nonempty. rewrite Hcards. by destruct below. }
  assert (H2f : pile_cards g2 (Foundation i) = pile_cards g (Foundation i)).
  { subst g2. apply pile_cards_set_ne. congruence. }
  rewrite H2f.
  set (g3 := set_pile_cards g2 (Foundation i)
               (add_card (pile_cards g (Foundation i)) card)).
  assert (H3f : pile_cards g3 (Foundation i)
                = pile_cards g (Foundation i) ++ [card]).
  { subst g3. rewrite pile_cards_set_foundation, decide_True; [done|].
    subst g2. by rewrite foundations_length_set_pile_cards. }
  assert (H3 : pile_cards g3 pile = below).
  { subst g3. by rewrite pile_cards_set_ne. }
  assert (H3s : score g3 = score g).
  { subst g3 g2. by destruct Hp as [->|[k ->]]. }
  set (g4 := add_score g3 SCORE_TO_FOUNDATION).
  assert (H4s : score g4 = score g + 10).
  { change (score g4) with (Z.max 0 (score g3 + 10)). rewrite H3s. lia. }
  assert (H4 : forall p, pile_cards g4 p = pile_cards g3 p) by done.
  destruct Hp as [->|[k ->]].
  - unfold reveal. rewrite !H4, H3f, H3. by destruct (top_card below).
  - unfold reveal. rewrite !H4, H3.
    destruct (top_card below) as [top|] eqn:Etop; [|by rewrite !H4, H3f, H3].
    destruct (face_up top) eqn:Ef; simpl; [by rewrite !H4, H3f, H3|].
    change (pile_cards (add_score ?x ?z) ?p) with (pile_cards x p).
    rewrite pile_cards_set_ne by done. rewrite H4, H3f. split; [done|].
    split.
    + change (score (add_score (set_pile_cards g4 (Tableau k) ?x) ?z))
        with (Z.max 0 (score g4 + 5)).
      unfold SCORE_TO_FOUNDATION, SCORE_REVEAL_CARD. lia.
    + rewrite pile_cards_set_tableau, decide_True.
      * unfold TableauPile.flip_top_card. unfold top_card in Etop.
        by rewrite Etop, Ef.
      * apply pile_cards_tableau_nonempty. rewrite H4, H3.
        intros E. by rewrite E in Etop.
Qed.

(** X12. An executed double click on the waste or a tableau takes a
    snapshot, moves the top card of the pile onto the first foundation that
    accepts it and adds 10 points; from a tableau whose next card is face
    down, that card is turned face up and 5 more points are added. *)
Theorem double_click_moves (g : Game) (pile : PileId) (at_card : option nat)
    (below : list Card) (card : Card) (i : nat) :
  0 <= score g ->
  pile = Waste \/ (exists k, pile = Tableau k) ->
  pile_cards g pile = below ++ [card] ->
  accepting_foundation g card = Some i ->
  let g' := double_click g (OnPile pile at_card) in
  move_history g' = move_history (save_state g)
  /\ pile_cards g' (Foundation i) = pile_cards g (Foundation i) ++ [card]
  /\ match pile, top_card below with
     | Tableau _, Some top =>
         if face_up top
         then score g' = score g + 10 /\ pile_cards g' pile = below
         else score g' = score g + 15
              /\ pile_cards g' pile = removelast below ++ [set_face_up true top]
     | _, _ => score g' = score g + 10 /\ pile_cards g' pile = below
     end.
Proof.
  intros Hpos Hp Hcards Hacc g'.
  assert (E : g' = check_win (to_foundation (save_state g) pile card i)).
  { subst g'. unfold double_click.
    destruct Hp as [->|[k ->]]; rewrite Hcards, top_card_snoc, Hacc; done. }
  rewrite E, !pile_cards_check_win, score_check_win.
  destruct (accepting_foundation_valid g card i Hacc) as (f & Hf & _).
  split.
  - pose proof (frame_to_foundation (save_state g) pile card i) as Hfr.
    rewrite <- frame_check_win in Hfr.
    exact (f_equal (fun x => x.1.1) Hfr).
  - apply (to_foundation_spec (save_state g) pile below card i);
      [done|done|done|].
    by eapply lookup_lt_Some.
Qed.

Lemma double_click_moves_witness :
  score (double_click first_game (OnPile (Tableau 0) (Some 0%nat))) = 0 + 10
  /\ pile_cards (double_click first_game (OnPile (Tableau 0) (Some 0%nat)))
       (Tableau 0) = [].
Proof.
  apply (proj2 (proj2 (double_click_moves first_game (Tableau 0) (Some 0%nat)
                         [] (mkCard 0 hearts RA true) 0%nat
                         ltac:(vm_compute; discriminate)
                         (or_intror (ex_intro _ 0%nat eq_refl))
                         eq_refl eq_refl))).
Defined.

(** ** A second invariant: stock and foundations *)

Section PilePredicate.

Variable Q : PileId -> list CardState -> Prop.
Hypothesis Q_nil : forall p, Q p [].

Lemma all_piles_set (g : Game) (p : PileId) (cs : list Card) :
  all_piles Q g -> Q p (card_state <$> cs) ->
  all_piles Q (set_pile_cards g p cs).
Proof.
  intros Hg Hcs q. destruct (decide (p = q)) as [<-|Hne].
  - destruct (pile_cards_set_same g p cs) as [->| ->]; [done|apply Q_nil].
  - rewrite pile_cards_set_ne by done. apply Hg.
Qed.

Lemma all_piles_same (g g' : Game) :
  (forall p, pile_cards g' p = pile_cards g p) ->
  all_piles Q g -> all_piles Q g'.
Proof. intros H Hg p. rewrite H. apply Hg. Qed.

End PilePredicate.

Lemma pile_built_nil (p : PileId) : pile_built p [].
Proof.
  destruct p; simpl; try done; [constructor|].
  exists hearts. intros k x H. done.
Qed.

Lemma ascending_take (v : list CardState) (n : nat) :
  ascending v -> ascending (take n v).
Proof.
  intros [s H]. exists s. intros k x Hx.
  apply lookup_take_Some in Hx as [Hx _]. by apply H.
Qed.

Lemma pile_built_take (p : PileId) (v : list CardState) (n : nat) :
  pile_built p v -> pile_built p (take n v).
Proof.
  destruct p; simpl; try done; [apply Forall_take|apply ascending_take].
Qed.

Lemma ascending_snoc (f : FoundationPile) (card : Card) :
  ascending (card_state <$> f_cards f) ->
  FoundationPile.can_add f card = true ->
  ascending (card_state <$> add_card (f_cards f) card).
Proof.
  intros [s H] Hcan. unfold FoundationPile.can_add, top_card in Hcan.
  unfold add_card. rewrite fmap_app. simpl.
  destruct (last (f_cards f)) as [top|] eqn:El.
  - case_bool_decide as Hs; [done|].
    destruct (Z.eqb_spec (value card) (value top + 1)) as [Hv|]; [|done].
    assert (Htop : (card_state <$> f_cards f) !! pred (length (f_cards f))
                   = Some (card_state top)).
    { rewrite list_lookup_fmap, <- last_lookup, El. done. }
    destruct (H _ _ Htop) as [Hts Htv]. simpl in Hts, Htv.
    assert (Hlen : (0 < length (f_cards f))%nat).
    { destruct (f_cards f); [done|simpl; lia]. }
    exists s. intros k x Hx.
    apply lookup_app_Some in Hx as [Hx|[Hk Hx]]; [by apply H|].
    rewrite length_fmap in Hk, Hx.
    destruct (k - length (f_cards f))%nat eqn:Ek; [|done].
    simpl in Hx. simplify_eq. simpl. split; [congruence|].
    unfold value in *. rewrite Hv, Htv. lia.
  - apply last_None in El. rewrite El. simpl.
    apply bool_decide_eq_true in Hcan.
    exists (suit card). intros k x Hx. destruct k; [|done].
    simpl in Hx. simplify_eq. simpl. by rewrite Hcan.
Qed.

Lemma built_reveal (g : Game) (p : PileId) :
  all_piles pile_built g -> all_piles pile_built (reveal g p).
Proof.
  intros Hg. unfold reveal. destruct p; try done.
  destruct (top_card _) as [top|]; [|done].
  destruct (negb (face_up top)); [|done].
  apply (all_piles_same pile_built (set_pile_cards g (Tableau i)
           (TableauPile.flip_top_card (pile_cards g (Tableau i))))); [done|].
  by apply all_piles_set; [apply pile_built_nil|done|].
Qed.

Lemma built_foundation_add (g : Game) (i : nat) (card : Card) (cs : list Card) :
  all_piles pile_built g ->
  (exists f, foundations g !! i = Some f
             /\ FoundationPile.can_add f card = true) ->
  cs = add_card (pile_cards g (Foundation i)) card ->
  pile_built (Foundation i) (card_state <$> cs).
Proof.
  intros Hg (f & Hf & Hcan) ->. simpl.
  rewrite (pile_cards_foundation g i f Hf). apply ascending_snoc; [|done].
  rewrite <- (pile_cards_foundation g i f Hf). apply (Hg (Foundation i)).
Qed.

Lemma built_to_foundation (g : Game) (p : PileId) (card : Card) (i : nat) :
  all_piles pile_built g ->
  p = Waste \/ (exists k, p = Tableau k) ->
  (exists f, foundations g !! i = Some f
             /\ FoundationPile.can_add f card = true) ->
  all_piles pile_built (to_foundation g p card i).
Proof.
  intros Hg Hp Hacc. unfold to_foundation. apply built_reveal.
  apply (all_piles_same pile_built
           (set_pile_cards (set_pile_cards g p (remove_card (pile_cards g p)).2)
              (Foundation i)
              (add_card
                 (pile_cards (set_pile_cards g p (remove_card (pile_cards g p)).2)
                    (Foundation i)) card))); [done|].
  assert (Hne : p <> Foundation i) by (destruct Hp as [->|[k ->]]; done).
  apply all_piles_set; [apply pile_built_nil| |].
  - apply all_piles_set; [apply pile_built_nil|done|].
    by destruct Hp as [->|[k ->]].
  - rewrite pile_cards_set_ne by done. by eapply built_foundation_add.
Qed.

Lemma built_remove_run (g : Game) (src : PileId) :
  all_piles pile_built g -> all_piles pile_built (remove_run g src).
Proof.
  intros Hg. unfold remove_run.
  assert (Htake : forall n,
             all_piles pile_built
               (set_pile_cards g src (take n (pile_cards g src)))).
  { intros n. apply all_piles_set; [apply pile_built_nil|done|].
    rewrite fmap_take. apply pile_built_take, Hg. }
  destruct src; try (rewrite iter_remove_card_take; apply Htake).
  destruct (dragged_cards g) as [|c run]; [done|].
  destruct (remove_cards_from_take (pile_cards g (Tableau i)) c) as [n ->].
  apply Htake.
Qed.

Lemma built_execute_drop (g : Game) hit (src target : PileId) :
  all_piles pile_built g ->
  find_drop_target g hit = Some target ->
  target <> src ->
  all_piles pile_built (execute_drop g src target).
Proof.
  intros Hg Hfind Hne. unfold execute_drop. apply built_reveal.
  apply (all_piles_same pile_built
           (set_pile_cards (remove_run (save_state g) src) target
              (add_cards (pile_cards (remove_run (save_state g) src) target)
                 (dragged_cards (remove_run (save_state g) src))))).
  { intros p. unfold score_drop. by destruct target, src. }
  apply all_piles_set; [apply pile_built_nil|by apply built_remove_run|].
  rewrite dragged_cards_remove_run, pile_cards_remove_run_ne by done.
  change (dragged_cards (save_state g)) with (dragged_cards g).
  change (pile_cards (save_state g) target) with (pile_cards g target).
  unfold find_drop_target in Hfind.
  destruct (dragged_cards g) as [|first_card run] eqn:Ed; [done|].
  destruct (length (first_card :: run) =? 1)%nat eqn:El.
  - destruct (find_index _ 0%nat (foundations g)) as [i|] eqn:Ef.
    + injection Hfind as <-.
      apply find_index_Some in Ef as (f & _ & Hf & Hp).
      rewrite Nat.sub_0_r in Hf. apply andb_true_iff in Hp as [_ Hc].
      apply Nat.eqb_eq in El. destruct run; [|done].
      apply (built_foundation_add g i first_card); [done|by exists f|done].
    + destruct (find_index _ 0%nat (tableaus g)); simpl in Hfind; [|done].
      by injection Hfind as <-.
  - destruct (find_index _ 0%nat (tableaus g)); simpl in Hfind; [|done].
    by injection Hfind as <-.
Qed.

Lemma built_auto_tableaus (idx : list nat) :
  forall g moved,
    all_piles pile_built g ->
    all_piles pile_built (auto_tableaus idx g moved).1.
Proof.
  induction idx as [|i idx IH]; intros g moved Hg; [done|]. simpl.
  destruct (top_card (pile_cards g (Tableau i))) as [card|] eqn:Et.
  - destruct (accepting_foundation g card) as [k|] eqn:Ea.
    + simpl. apply built_to_foundation; [done|eauto|].
      by apply accepting_foundation_valid.
    + destruct moved; [done|by apply IH].
  - by apply IH.
Qed.

Lemma built_auto_pass (g : Game) :
  all_piles pile_built g -> all_piles pile_built (auto_pass g).1.
Proof.
  intros Hg. unfold auto_pass, auto_waste.
  destruct (top_card (waste g)) as [card|] eqn:Et;
    [|by apply built_auto_tableaus].
  destruct (accepting_foundation g card) as [k|] eqn:Ea;
    [|by apply built_auto_tableaus].
  apply built_auto_tableaus, built_to_foundation; [done|auto|].
  by apply accepting_foundation_valid.
Qed.

Lemma built_auto_loop (fuel : nat) :
  forall g g',
    all_piles pile_built g -> auto_loop fuel g = Some g' ->
    all_piles pile_built g'.
Proof.
  induction fuel as [|fuel IH]; intros g g' Hg H; [done|]. simpl in H.
  pose proof (built_auto_pass g Hg) as Hp.
  destruct (auto_pass g) as [g1 moved]. simpl in Hp.
  destruct moved; [by eapply IH|]. by injection H as <-.
Qed.

Lemma built_draw_card_from_stock (g : Game) :
  all_piles pile_built g -> all_piles pile_built (draw_card_from_stock g).
Proof.
  intros Hg. unfold draw_card_from_stock.
  assert (Hs : all_down (card_state <$> stock g)) by apply (Hg Stock).
  destruct (last (stock g)) as [c|] eqn:El.
  - apply last_Some in El as [below Hb].
    assert (Hst : stock (save_state g) = below ++ [c]) by exact Hb.
    rewrite Hst, remove_card_snoc.
    intros p. destruct p as [| |i|i];
      [|done|apply (Hg (Foundation i))|done].
    unfold pile_built, pile_cards. simpl.
    rewrite Hb, fmap_app in Hs. by apply Forall_app in Hs as [? _].
  - apply last_None in El.
    assert (Hst : stock (save_state g) = []) by exact El.
    rewrite Hst. simpl.
    destruct (waste g) as [|w ws] eqn:Ew; [done|].
    rewrite El, pour_face_down_all. simpl.
    intros p. destruct p as [| |i|i];
      [|done|apply (Hg (Foundation i))|done].
    unfold pile_built, pile_cards. simpl.
    apply Forall_fmap, Forall_fmap, Forall_forall. done.
Qed.

Lemma snap_built_snapshot (g : Game) :
  all_piles pile_built g <-> snap_built (snapshot g).
Proof.
  split.
  - intros Hg. split; [exact (Hg Stock)|].
    simpl. apply Forall_fmap, Forall_lookup. intros i f Hf. simpl.
    rewrite <- (pile_cards_foundation g i f Hf). apply (Hg (Foundation i)).
  - intros [Hs Hf] p. simpl in Hf.
    apply (proj1 (Forall_fmap _ _ _)) in Hf.
    destruct p as [| |i|i]; simpl; [exact Hs|done| |done].
    destruct (foundations g !! i) as [f|] eqn:E.
    + rewrite (pile_cards_foundation g i f E).
      apply (Forall_lookup_1 _ _ _ _ Hf E).
    + unfold pile_cards. rewrite E. apply (pile_built_nil (Foundation i)).
Qed.

Lemma Forall_removelast {A} (P : A -> Prop) (l : list A) :
  Forall P l -> Forall P (removelast l).
Proof.
  induction l as [|x l IH] using rev_ind; [done|].
  rewrite removelast_last. intros H. by apply Forall_app in H as [? _].
Qed.

Lemma built_new_game (g g' : Game) (deck : list Card) :
  new_game g deck = Some g' -> all_piles pile_built g'.
Proof.
  unfold new_game. intros H.
  destruct (deal_tableaus _ _ _) as [[d ts]|]; simpl in H; [|done].
  injection H as <-. rewrite pour_face_down_all. simpl.
  intros p. destruct p as [| |i|i]; [|done| |done].
  - unfold pile_built, pile_cards. simpl.
    apply Forall_fmap, Forall_fmap, Forall_forall. done.
  - unfold pile_built, pile_cards. simpl. rewrite list_lookup_fmap.
    destruct (foundations g !! i); apply (pile_built_nil (Foundation i)).
Qed.

Lemma built_undo (g g' : Game) (b : bool) :
  Inv g -> Forall snap_built (move_history g) -> all_piles pile_built g ->
  undo g = Some (b, g') -> all_piles pile_built g'.
Proof.
  intros Hg Hhist Hp H.
  destruct (last (move_history g)) as [s|] eqn:El.
  - apply last_Some in El as [h Hh].
    destruct Hg as [_ _ Hinv Ht Hm _]. rewrite Hh in Hinv, Hhist.
    destruct (proj1 (Forall_app _ _ _) Hinv) as [_ Hs_ok].
    apply (proj1 (Forall_singleton _ _)) in Hs_ok.
    destruct Hs_ok as (_ & _ & _ & _ & Hl4 & Hl7).
    destruct (proj1 (Forall_app _ _ _) Hhist) as [_ Hs].
    apply (proj1 (Forall_singleton _ _)) in Hs.
    destruct (undo_restores g h s Hh) as (g'' & Hu & Hsnap & _).
    { rewrite Hl4. symmetry. by apply markers_length. }
    { by rewrite Hl7. }
    rewrite Hu in H. injection H as <- <-.
    apply snap_built_snapshot. by rewrite Hsnap.
  - unfold undo in H. rewrite El in H. by simplify_eq.
Qed.

Lemma built_handle_click (g g' : Game) (ptr : Pointer) :
  all_piles pile_built g -> handle_click g ptr = Some g' ->
  all_piles pile_built g'.
Proof.
  intros Hg H.
  destruct (handle_click_cases _ _ _ H)
    as [->|[->|(pile & k & card & _ & _ & Hs)]].
  - done.
  - by apply built_draw_card_from_stock.
  - rewrite (start_drag_Some _ _ _ _ Hs). destruct pile; [done| | |]; simpl.
    all: match goal with
         | |- all_piles _ (match ?r with _ => _ end) => by destruct r
         end.
Qed.

Lemma built_double_click (g : Game) (ptr : Pointer) :
  all_piles pile_built g -> all_piles pile_built (double_click g ptr).
Proof.
  intros Hg. unfold double_click. destruct ptr as [|pile at_card]; [done|].
  assert (Hmove : forall p card i,
             p = Waste \/ (exists k, p = Tableau k) ->
             accepting_foundation g card = Some i ->
             all_piles pile_built
               (check_win (to_foundation (save_state g) p card i))).
  { intros p card i Hp Ha.
    apply (all_piles_same pile_built (to_foundation (save_state g) p card i));
      [intros q; apply pile_cards_check_win|].
    apply built_to_foundation; [done|done|].
    by apply accepting_foundation_valid. }
  destruct pile as [| |i|i]; try done.
  - destruct (top_card _) as [card|]; [|done].
    destruct (accepting_foundation g card) as [k|] eqn:Ea; [|done].
    apply Hmove; auto.
  - destruct (top_card _) as [card|]; [|done].
    destruct (accepting_foundation g card) as [k|] eqn:Ea; [|done].
    apply Hmove; eauto.
Qed.

Lemma built_handle_drop (g g' : Game) hit :
  all_piles pile_built g -> handle_drop g hit = Some g' ->
  all_piles pile_built g'.
Proof.
  intros Hg H. unfold handle_drop in H.
  destruct (dragging g) eqn:Ed; simpl in H; [|by simplify_eq].
  destruct (drag_source g) as [src|] eqn:Es; simpl in H; [|done].
  injection H as <-.
  set (g0 := set_drag g false (dragged_cards g) (Some src)).
  assert (Hg0 : all_piles pile_built g0) by exact Hg.
  intros p. rewrite pile_cards_check_win.
  change (pile_cards (set_drag ?x ?a ?b ?c) p) with (pile_cards x p).
  destruct (find_drop_target g0 hit) as [target|] eqn:Ef; [|apply Hg].
  case_bool_decide as Hne; [|apply Hg].
  by apply (built_execute_drop g0 hit src target).
Qed.

Lemma built_auto_move_to_foundation (fuel : nat) (g g' : Game) :
  all_piles pile_built g -> auto_move_to_foundation fuel g = Some g' ->
  all_piles pile_built g'.
Proof.
  intros Hg H. unfold auto_move_to_foundation in H.
  destruct (auto_loop fuel (save_state g)) as [g1|] eqn:E; [|done].
  simpl in H. injection H as <-.
  apply (all_piles_same pile_built g1);
    [intros q; apply pile_cards_check_win|].
  by apply (built_auto_loop fuel (save_state g)).
Qed.

Lemma Built_handle_event (g g' : Game) (e : Event) :
  Inv g -> Built g -> handle_event g e = Some g' -> Built g'.
Proof.
  intros HI [Hp Hh] H. split.
  - change (all_piles pile_built g'). change (all_piles pile_built g) in Hp.
    destruct e as [deck| |fuel|ptr|ptr|hit]; simpl in H.
    + by eapply built_new_game.
    + destruct (undo g) as [[b g1]|] eqn:E; [|done]. simpl in H.
      injection H as <-. by eapply built_undo.
    + by eapply built_auto_move_to_foundation.
    + by eapply built_handle_click.
    + injection H as <-. by apply built_double_click.
    + by eapply built_handle_drop.
  - destruct (history_of_event g g' e H) as [-> |[-> |[-> | ->]]].
    + done.
    + unfold save_state. simpl.
      assert (Hall : Forall snap_built (move_history g ++ [snapshot g])).
      { apply Forall_app. split; [done|]. apply Forall_singleton.
        by apply snap_built_snapshot. }
      destruct (100 <? length (move_history g ++ [snapshot g]))%nat; [|done].
      by apply Forall_tail.
    + by apply Forall_removelast.
    + constructor.
Qed.

Lemma reachable_Built (g : Game) : reachable g -> Built g.
Proof.
  induction 1 as [deck g Hperm Hnew|g e g' Hreach IH Hok Hstep].
  - split; [by apply (built_new_game setup_piles g deck)|].
    unfold new_game in Hnew.
    destruct (deal_tableaus _ _ _) as [[d ts]|]; simpl in Hnew; [|done].
    injection Hnew as <-. constructor.
  - eapply Built_handle_event; [by apply reachable_Inv|done|done].
Qed.

Lemma RANK_VALUES_range (r : Rank) : 1 <= RANK_VALUES r <= 13.
Proof. destruct r; simpl; lia. Qed.

(** X13. In every state of a session each foundation holds, from the bottom,
    the Ace, the 2, the 3, ... of one suit: the card at position [k] has
    value [k+1] and all cards of the pile share a suit; so a foundation never
    holds more than 13 cards. *)
Theorem foundations_build_up (g : Game) (i : nat) (f : FoundationPile) :
  reachable g ->
  foundations g !! i = Some f ->
  (exists s : Suit,
      forall (k : nat) (c : Card),
        f_cards f !! k = Some c -> suit c = s /\ value c = Z.of_nat k + 1)
  /\ (length (f_cards f) <= 13)%nat.
Proof.
  intros Hg Hf. destruct (reachable_Built g Hg) as [Hp _].
  specialize (Hp (Foundation i)). rewrite (pile_cards_foundation g i f Hf) in Hp.
  destruct Hp as [s Hs].
  assert (Hc : forall (k : nat) (c : Card),
             f_cards f !! k = Some c -> suit c = s /\ value c = Z.of_nat k + 1).
  { intros k c Hk. apply (Hs k (card_state c)).
    by rewrite list_lookup_fmap, Hk. }
  split; [by exists s|].
  destruct (decide (length (f_cards f) <= 13)%nat) as [|Hlen]; [done|].
  destruct (lookup_lt_is_Some_2 (f_cards f) 13) as [c Hk]; [lia|].
  destruct (Hc _ _ Hk) as [_ Hv]. unfold value in Hv.
  pose proof (RANK_VALUES_range (rank c)). lia.
Qed.

Lemma foundations_build_up_witness :
  (exists s : Suit,
      forall (k : nat) (c : Card),
        f_cards (mkFoundation (Some hearts) [mkCard 0 hearts RA true]) !! k
        = Some c ->
        suit c = s /\ value c = Z.of_nat k + 1)
  /\ (length (f_cards (mkFoundation (Some hearts) [mkCard 0 hearts RA true]))
      <= 13)%nat.
Proof.
  apply (foundations_build_up drag_game 0%nat).
  - apply (play_reachable pick_up_two first_game).
    + apply (reach_init winning_deck).
      * apply (bool_decide_unpack _). vm_compute. exact I.
      * vm_compute. reflexivity.
    + vm_compute. reflexivity.
  - reflexivity.
Defined.

(** X14. In every state of a session all cards of the stock are face down. *)
Theorem stock_face_down (g : Game) :
  reachable g -> Forall (fun c => face_up c = false) (stock g).
Proof.
  intros Hg. destruct (reachable_Built g Hg) as [Hp _].
  specialize (Hp Stock). simpl in Hp.
  by apply (proj1 (Forall_fmap _ _ _)) in Hp.
Qed.

Lemma stock_face_down_witness :
  Forall (fun c => face_up c = false) (stock drag_game).
Proof.
  apply (stock_face_down drag_game).
  apply (play_reachable pick_up_two first_game).
  - apply (reach_init winning_deck).
    + apply (bool_decide_unpack _). vm_compute. exact I.
    + vm_compute. reflexivity.
  - vm_compute. reflexivity.
Defined.

(** ** The cards on the table *)

Lemma perm_inside {A} (pre post s s' old new : list A) :
  s' ++ old ≡ₚ s ++ new ->
  (pre ++ s' ++ post) ++ old ≡ₚ (pre ++ s ++ post) ++ new.
Proof.
  intros H. rewrite <- !app_assoc. apply Permutation_app_head.
  rewrite (Permutation_app_comm post old), (Permutation_app_comm post new).
  rewrite !app_assoc. by apply Permutation_app_tail.
Qed.

Lemma concat_insert_perm {A} (ts : list (list A)) (i : nat) (old new : list A) :
  ts !! i = Some old ->
  concat (<[i:=new]> ts) ++ old ≡ₚ concat ts ++ new.
Proof.
  revert i. induction ts as [|t ts IH]; intros i H; [done|].
  destruct i as [|i]; simpl in *.
  - injection H as ->.
    apply (perm_inside [] (concat ts) old new old new).
    apply Permutation_app_comm.
  - rewrite <- !app_assoc. apply Permutation_app_head. by apply IH.
Qed.

Lemma f_cards_alter (fs : list FoundationPile) (i : nat) (cs : list Card) :
  f_cards <$> alter (fun f => set_f_cards f cs) i fs
  = <[i:=cs]> (f_cards <$> fs).
Proof.
  revert i. induction fs as [|f fs IH]; intros i; [done|].
  destruct i as [|i]; simpl; [done|]. f_equal. apply IH.
Qed.

Lemma pile_exists_lookup (g : Game) (p : PileId) :
  pile_exists g p ->
  match p with
  | Foundation i => (f_cards <$> foundations g) !! i = Some (pile_cards g p)
  | Tableau i => tableaus g !! i = Some (pile_cards g p)
  | _ => True
  end.
Proof.
  destruct p as [| |i|i]; simpl; try done; intros Hi.
  - destruct (lookup_lt_is_Some_2 (foundations g) i Hi) as [f Hf].
    unfold pile_cards. by rewrite list_lookup_fmap, Hf.
  - destruct (lookup_lt_is_Some_2 (tableaus g) i Hi) as [t Ht].
    unfold pile_cards. by rewrite Ht.
Qed.

Lemma pile_cards_exists (g : Game) (p : PileId) :
  pile_cards g p <> [] -> pile_exists g p.
Proof.
  destruct p as [| |i|i]; simpl; try done; unfold pile_cards; intros H.
  - destruct (foundations g !! i) eqn:E; [by eapply lookup_lt_Some|done].
  - destruct (tableaus g !! i) eqn:E; [by eapply lookup_lt_Some|done].
Qed.

Lemma pile_exists_set (g : Game) (p q : PileId) (cs : list Card) :
  pile_exists g q -> pile_exists (set_pile_cards g p cs) q.
Proof.
  destruct p, q; simpl; try done.
  - by rewrite length_alter.
  - by rewrite length_insert.
Qed.

(** Replacing the cards of one pile: the table before, with the new cards,
    holds what the table after holds with the old ones. *)
Lemma table_cards_set (g : Game) (p : PileId) (new : list Card) :
  pile_exists g p ->
  table_cards (set_pile_cards g p new) ++ pile_cards g p
  ≡ₚ table_cards g ++ new.
Proof.
  intros Hp. pose proof (pile_exists_lookup g p Hp) as Hl.
  unfold table_cards. destruct p as [| |i|i]; simpl.
  - apply (perm_inside [] _ (stock g) new (stock g) new).
    apply Permutation_app_comm.
  - apply (perm_inside (stock g) _ (waste g) new (waste g) new).
    apply Permutation_app_comm.
  - rewrite f_cards_alter.
    rewrite !(app_assoc (stock g) (waste g)).
    apply perm_inside. by apply concat_insert_perm.
  - rewrite !(app_assoc (stock g) (waste g)).
    rewrite !(app_assoc (stock g ++ waste g)).
    rewrite <- (app_nil_r (concat (<[i:=new]> (tableaus g)))).
    rewrite <- (app_nil_r (concat (tableaus g))).
    apply perm_inside. by apply concat_insert_perm.
Qed.

Lemma card_ids_set (g : Game) (p : PileId) (new : list Card) :
  pile_exists g p ->
  (card_id <$> table_cards (set_pile_cards g p new))
  ++ (card_id <$> pile_cards g p)
  ≡ₚ (card_id <$> table_cards g) ++ (card_id <$> new).
Proof.
  intros Hp. rewrite <- !fmap_app. apply fmap_Permutation.
  by apply table_cards_set.
Qed.

(** Cards put on a pile. *)
Lemma card_ids_set_append (g : Game) (p : PileId) (new : list Card)
    (X : list (nat * Suit * Rank)) :
  pile_exists g p ->
  card_id <$> new = (card_id <$> pile_cards g p) ++ X ->
  card_id <$> table_cards (set_pile_cards g p new)
  ≡ₚ (card_id <$> table_cards g) ++ X.
Proof.
  intros Hp Hnew. pose proof (card_ids_set g p new Hp) as H.
  rewrite Hnew in H.
  apply (Permutation_app_inv_r (card_id <$> pile_cards g p)).
  rewrite H. rewrite <- !app_assoc. apply Permutation_app_head.
  apply Permutation_app_comm.
Qed.

(** Cards taken off a pile. *)
Lemma card_ids_set_remove (g : Game) (p : PileId) (new : list Card)
    (X : list (nat * Suit * Rank)) :
  pile_exists g p ->
  card_id <$> pile_cards g p = (card_id <$> new) ++ X ->
  (card_id <$> table_cards (set_pile_cards g p new)) ++ X
  ≡ₚ card_id <$> table_cards g.
Proof.
  intros Hp Hold. pose proof (card_ids_set g p new Hp) as H.
  rewrite Hold in H.
  apply (Permutation_app_inv_r (card_id <$> new)).
  rewrite <- H. rewrite <- !app_assoc. apply Permutation_app_head.
  apply Permutation_app_comm.
Qed.

(** The same cards, whatever side they show. *)
Lemma card_ids_set_same (g : Game) (p : PileId) (new : list Card) :
  pile_exists g p ->
  card_id <$> new = card_id <$> pile_cards g p ->
  card_id <$> table_cards (set_pile_cards g p new)
  ≡ₚ card_id <$> table_cards g.
Proof.
  intros Hp Hnew.
  rewrite (card_ids_set_append g p new [] Hp), app_nil_r; [done|].
  by rewrite app_nil_r.
Qed.

Lemma table_cards_check_win (g : Game) :
  table_cards (check_win g) = table_cards g.
Proof. unfold check_win. by destruct (forallb _ _). Qed.

(** ** The deal hands out the deck *)

Lemma deal_tableaus_cards (order : list (nat * nat)) :
  forall deck ts deck' ts',
    deal_tableaus order deck ts = Some (deck', ts') ->
    (card_id <$> deck') ++ (card_id <$> concat ts')
    ≡ₚ (card_id <$> deck) ++ (card_id <$> concat ts).
Proof.
  induction order as [|[i j] order IH]; intros deck ts deck' ts' H;
    simpl in H.
  - by injection H as <- <-.
  - unfold deal in H. destruct (last deck) as [card|] eqn:El; [|done].
    apply last_Some in El as [rest ->]. rewrite removelast_last in H.
    destruct (ts !! j) as [t|] eqn:Et; [|done].
    assert (Hc : concat (<[j:=add_card t (set_face_up (i =? j)%nat card)]> ts)
                 ≡ₚ concat ts ++ [set_face_up (i =? j)%nat card]).
    { apply (Permutation_app_inv_r t).
      rewrite (concat_insert_perm ts j t _ Et). unfold add_card.
      rewrite <- !app_assoc. apply Permutation_app_head, Permutation_app_comm. }
    rewrite (IH _ _ _ _ H), Hc, !fmap_app, <- app_assoc.
    apply Permutation_app_head. apply Permutation_app_comm.
Qed.

Lemma concat_fmap_nil {A B} (l : list A) :
  concat ((fun _ : A => @nil B) <$> l) = [].
Proof. induction l as [|x l IH]; [done|]. simpl. exact IH. Qed.

Lemma concat_emptied_foundations (fs : list FoundationPile) :
  concat (f_cards <$> ((fun f => set_f_cards f []) <$> fs)) = [].
Proof. induction fs as [|f fs IH]; [done|]. simpl. exact IH. Qed.

(** X15. [new_game] hands out exactly the deck it is given: the card objects
    of the stock and the seven tableaus after the deal are the card objects
    of the deck, each one once, and waste and foundations are empty.  So the
    table of a fresh game shows each of the 52 faces exactly once. *)
Theorem new_game_deals_the_deck (g g' : Game) (deck : list Card) :
  new_game g deck = Some g' ->
  card_id <$> table_cards g' ≡ₚ card_id <$> deck
  /\ card_id <$> (stock g' ++ concat (tableaus g')) ≡ₚ card_id <$> deck
  /\ (forall u, deck ≡ₚ create_deck u ->
       card_face <$> table_cards g' ≡ₚ all_faces).
Proof.
  intros H.
  assert (Ht : table_cards g' = stock g' ++ concat (tableaus g')
               /\ card_id <$> (stock g' ++ concat (tableaus g'))
                  ≡ₚ card_id <$> deck).
  { unfold new_game in H.
    destruct (deal_tableaus _ _ _) as [[d ts]|] eqn:Ed; simpl in H; [|done].
    injection H as <-. rewrite pour_face_down_all. unfold table_cards. simpl.
    rewrite concat_emptied_foundations. split; [done|].
    apply deal_tableaus_cards in Ed. simpl in Ed.
    rewrite concat_fmap_nil, fmap_nil, app_nil_r in Ed.
    rewrite <- Ed, !fmap_app. apply Permutation_app_tail.
    rewrite <- list_fmap_compose.
    change (card_id ∘ set_face_up false) with card_id.
    apply fmap_Permutation, reverse_Permutation. }
  destruct Ht as [Ht Hperm]. split; [by rewrite Ht|]. split; [done|].
  intros u Hu. rewrite Ht.
  assert (Hface : forall l : list Card,
             card_face <$> l = (fun x : nat * Suit * Rank => (x.1.2, x.2))
                                 <$> (card_id <$> l)).
  { intros l. by rewrite <- list_fmap_compose. }
  rewrite Hface, Hperm, <- Hface, Hu. reflexivity.
Qed.

Lemma new_game_deals_the_deck_witness :
  card_id <$> table_cards first_game ≡ₚ card_id <$> winning_deck.
Proof.
  apply (proj1 (new_game_deals_the_deck setup_piles first_game winning_deck
                  ltac:(vm_compute; reflexivity))).
Defined.

(** ** Moves keep the cards *)

Lemma card_ids_flip_top_card (cards : list Card) :
  card_id <$> TableauPile.flip_top_card cards = card_id <$> cards.
Proof.
  unfold TableauPile.flip_top_card.
  destruct (last cards) as [top|] eqn:El; [|done].
  destruct (negb (face_up top)); [|done].
  apply last_Some in El as [rest ->].
  by rewrite removelast_last, !fmap_app.
Qed.

Lemma card_ids_reveal (g : Game) (p : PileId) :
  card_id <$> table_cards (reveal g p) ≡ₚ card_id <$> table_cards g.
Proof.
  unfold reveal. destruct p as [| |i|i]; try done.
  destruct (top_card _) as [top|] eqn:Et; [|done].
  destruct (negb (face_up top)); [|done].
  change (table_cards (add_score ?x ?z)) with (table_cards x).
  apply card_ids_set_same; [|apply card_ids_flip_top_card].
  apply pile_cards_exists. intros E. by rewrite E in Et.
Qed.

Lemma card_ids_to_foundation (g : Game) (p : PileId) (card : Card) (i : nat) :
  top_card (pile_cards g p) = Some card ->
  (i < length (foundations g))%nat ->
  p = Waste \/ (exists k, p = Tableau k) ->
  card_id <$> table_cards (to_foundation g p card i)
  ≡ₚ card_id <$> table_cards g.
Proof.
  intros Htop Hi Hp. unfold to_foundation. rewrite card_ids_reveal.
  change (table_cards (add_score ?x ?z)) with (table_cards x).
  apply last_Some in Htop as [below Hcards].
  rewrite Hcards, remove_card_snoc. simpl.
  assert (Hex : pile_exists g p).
  { apply pile_cards_exists. rewrite Hcards. by destruct below. }
  assert (Hne : p <> Foundation i) by (destruct Hp as [->|[k ->]]; done).
  rewrite (card_ids_set_append _ (Foundation i) _ [card_id card]).
  - apply (card_ids_set_remove g p below [card_id card] Hex).
    by rewrite Hcards, fmap_app.
  - by apply pile_exists_set.
  - unfold add_card. by rewrite fmap_app.
Qed.

Lemma index_of_app_first (card : Card) (below rest : list Card) :
  card ∉ below ->
  index_of card (below ++ card :: rest) = Some (length below).
Proof.
  induction below as [|c below IH]; intros Hnot; simpl.
  - by rewrite bool_decide_eq_true_2.
  - apply not_elem_of_cons in Hnot as [Hne Hnot].
    rewrite bool_decide_eq_false_2 by done. by rewrite (IH Hnot).
Qed.

(** In a consistent drag, [remove_run] leaves the part of the source below
    the run. *)
Lemma remove_run_consistent (g : Game) (src : PileId) (below : list Card) :
  pile_cards g src = below ++ dragged_cards g ->
  match src with
  | Tableau _ => forall c, head (dragged_cards g) = Some c -> c ∉ below
  | _ => True
  end ->
  dragged_cards g <> [] ->
  remove_run g src = set_pile_cards g src below.
Proof.
  intros Hcards Hnot Hne. unfold remove_run.
  assert (Hpop : Nat.iter (length (dragged_cards g))
                   (fun cs => (remove_card cs).2) (pile_cards g src) = below).
  { rewrite iter_remove_card_take, Hcards, length_app.
    replace (length below + length (dragged_cards g)
             - length (dragged_cards g))%nat with (length below) by lia.
    by rewrite take_app_length. }
  destruct src as [| |i|i]; try (by rewrite Hpop).
  destruct (dragged_cards g) as [|first_card run] eqn:Ed; [done|].
  unfold remove_cards_from. rewrite Hcards.
  rewrite (index_of_app_first first_card below run (Hnot _ eq_refl)).
  simpl. by rewrite take_app_length.
Qed.

Lemma card_ids_execute_drop (g : Game) (src target : PileId)
    (below : list Card) :
  pile_cards g src = below ++ dragged_cards g ->
  match src with
  | Tableau _ => forall c, head (dragged_cards g) = Some c -> c ∉ below
  | _ => True
  end ->
  dragged_cards g <> [] ->
  pile_exists g target ->
  card_id <$> table_cards (execute_drop g src target)
  ≡ₚ card_id <$> table_cards g.
Proof.
  intros Hcards Hnot Hne Hex. unfold execute_drop. rewrite card_ids_reveal.
  assert (Hscore : forall x, table_cards (score_drop x src target)
                             = table_cards x).
  { intros x. unfold score_drop. by destruct target, src. }
  rewrite Hscore.
  rewrite (remove_run_consistent (save_state g) src below Hcards Hnot Hne).
  assert (Hsrc : pile_exists g src).
  { apply pile_cards_exists. rewrite Hcards.
    destruct (dragged_cards g); [done|by destruct below]. }
  rewrite (card_ids_set_append _ target _ (card_id <$> dragged_cards g)).
  - apply (card_ids_set_remove (save_state g) src below _ Hsrc).
    change (pile_cards (save_state g) src) with (pile_cards g src).
    by rewrite Hcards, fmap_app.
  - by apply pile_exists_set.
  - unfold add_cards. rewrite fmap_app. by destruct src.
Qed.

Lemma find_drop_target_exists (g : Game) hit (target : PileId) :
  find_drop_target g hit = Some target ->
  pile_exists g target /\ dragged_cards g <> [].
Proof.
  intros H. unfold find_drop_target in H.
  destruct (dragged_cards g) as [|first_card run] eqn:Ed; [done|].
  split; [|done].
  destruct (length (first_card :: run) =? 1)%nat.
  - destruct (find_index _ 0%nat (foundations g)) as [i|] eqn:Ef.
    + injection H as <-.
      apply find_index_Some in Ef as (f & _ & Hf & _).
      rewrite Nat.sub_0_r in Hf. simpl. by eapply lookup_lt_Some.
    + destruct (find_index _ 0%nat (tableaus g)) as [j|] eqn:Et;
        simpl in H; [|done].
      injection H as <-.
      apply find_index_Some in Et as (t & _ & Ht & _).
      rewrite Nat.sub_0_r in Ht. simpl. by eapply lookup_lt_Some.
  - destruct (find_index _ 0%nat (tableaus g)) as [j|] eqn:Et;
      simpl in H; [|done].
    injection H as <-.
    apply find_index_Some in Et as (t & _ & Ht & _).
    rewrite Nat.sub_0_r in Ht. simpl. by eapply lookup_lt_Some.
Qed.

Lemma card_ids_handle_drop (g g' : Game) hit :
  drag_consistent g ->
  handle_drop g hit = Some g' ->
  card_id <$> table_cards g' ≡ₚ card_id <$> table_cards g.
Proof.
  intros Hcons H. unfold handle_drop in H.
  destruct (dragging g) eqn:Ed; simpl in H; [|by simplify_eq].
  destruct (drag_source g) as [src|] eqn:Es; simpl in H; [|done].
  injection H as <-. rewrite table_cards_check_win.
  change (table_cards (set_drag ?x ?a ?b ?c)) with (table_cards x).
  set (g0 := set_drag g false (dragged_cards g) (Some src)).
  destruct (find_drop_target g0 hit) as [target|] eqn:Ef; [|done].
  case_bool_decide as Hne; [|done].
  destruct (Hcons Ed src Es) as (below & Hcards & Hnot).
  destruct (find_drop_target_exists g0 hit target Ef) as [Hex Hd].
  by apply (card_ids_execute_drop g0 src target below).
Qed.

Lemma card_ids_face_down_reverse (l : list Card) :
  card_id <$> (set_face_up false <$> reverse l) ≡ₚ card_id <$> l.
Proof.
  rewrite <- list_fmap_compose.
  change (card_id ∘ set_face_up false) with card_id.
  apply fmap_Permutation, reverse_Permutation.
Qed.

Lemma card_ids_draw_card_from_stock (g : Game) :
  card_id <$> table_cards (draw_card_from_stock g)
  ≡ₚ card_id <$> table_cards g.
Proof.
  unfold draw_card_from_stock.
  destruct (last (stock g)) as [c|] eqn:El.
  - apply last_Some in El as [below Hb].
    assert (Hst : stock (save_state g) = below ++ [c]) by exact Hb.
    rewrite Hst, remove_card_snoc.
    unfold table_cards, add_card. simpl. rewrite Hb.
    rewrite <- !app_assoc, !fmap_app. apply Permutation_app_head.
    symmetry. apply (Permutation_middle (card_id <$> waste g) _ (card_id c)).
  - apply last_None in El.
    assert (Hst : stock (save_state g) = []) by exact El.
    rewrite Hst. simpl.
    destruct (waste g) as [|w ws] eqn:Ew; [done|].
    rewrite El, pour_face_down_all. unfold table_cards. simpl.
    rewrite El. simpl. rewrite !fmap_app.
    by rewrite card_ids_face_down_reverse, Ew.
Qed.

Lemma card_ids_auto_tableaus (idx : list nat) :
  forall g moved,
    card_id <$> table_cards (auto_tableaus idx g moved).1
    ≡ₚ card_id <$> table_cards g.
Proof.
  induction idx as [|i idx IH]; intros g moved; [done|]. simpl.
  destruct (top_card (pile_cards g (Tableau i))) as [card|] eqn:Et.
  - destruct (accepting_foundation g card) as [k|] eqn:Ea.
    + simpl. apply card_ids_to_foundation; [done| |eauto].
      destruct (accepting_foundation_valid g card k Ea) as (f & Hf & _).
      by eapply lookup_lt_Some.
    + destruct moved; [done|apply IH].
  - apply IH.
Qed.

Lemma card_ids_auto_pass (g : Game) :
  card_id <$> table_cards (auto_pass g).1 ≡ₚ card_id <$> table_cards g.
Proof.
  unfold auto_pass, auto_waste.
  destruct (top_card (waste g)) as [card|] eqn:Et;
    [|apply card_ids_auto_tableaus].
  destruct (accepting_foundation g card) as [k|] eqn:Ea;
    [|apply card_ids_auto_tableaus].
  rewrite card_ids_auto_tableaus.
  apply card_ids_to_foundation; [done| |auto].
  destruct (accepting_foundation_valid g card k Ea) as (f & Hf & _).
  by eapply lookup_lt_Some.
Qed.

Lemma card_ids_auto_loop (fuel : nat) :
  forall g g',
    auto_loop fuel g = Some g' ->
    card_id <$> table_cards g' ≡ₚ card_id <$> table_cards g.
Proof.
  induction fuel as [|fuel IH]; intros g g' H; [done|]. simpl in H.
  pose proof (card_ids_auto_pass g) as Hp.
  destruct (auto_pass g) as [g1 moved]. simpl in Hp.
  destruct moved.
  - by rewrite (IH _ _ H).
  - by injection H as <-.
Qed.

Lemma table_cards_start_drag (g g' : Game) (pile : PileId) (card : Card) :
  start_drag g pile card = Some g' -> table_cards g' = table_cards g.
Proof.
  intros Hs. rewrite (start_drag_Some _ _ _ _ Hs).
  destruct pile; simpl; try done.
  all: match goal with
       | |- table_cards (match ?r with _ => _ end) = _ => by destruct r
       end.
Qed.

Lemma card_ids_handle_click (g g' : Game) (ptr : Pointer) :
  handle_click g ptr = Some g' ->
  card_id <$> table_cards g' ≡ₚ card_id <$> table_cards g.
Proof.
  intros H.
  destruct (handle_click_cases _ _ _ H)
    as [->|[->|(pile & k & card & _ & _ & Hs)]].
  - done.
  - apply card_ids_draw_card_from_stock.
  - by rewrite (table_cards_start_drag _ _ _ _ Hs).
Qed.

Lemma card_ids_double_click (g : Game) (ptr : Pointer) :
  card_id <$> table_cards (double_click g ptr) ≡ₚ card_id <$> table_cards g.
Proof.
  unfold double_click. destruct ptr as [|pile at_card]; [done|].
  assert (Hmove : forall p card i,
             p = Waste \/ (exists k, p = Tableau k) ->
             top_card (pile_cards g p) = Some card ->
             accepting_foundation g card = Some i ->
             card_id <$> table_cards
                           (check_win (to_foundation (save_state g) p card i))
             ≡ₚ card_id <$> table_cards g).
  { intros p card i Hp Ht Ha. rewrite table_cards_check_win.
    apply (card_ids_to_foundation (save_state g)); [done| |done].
    destruct (accepting_foundation_valid g card i Ha) as (f & Hf & _).
    by eapply lookup_lt_Some. }
  destruct pile as [| |i|i]; try done.
  - destruct (top_card _) as [card|] eqn:Et; [|done].
    destruct (accepting_foundation g card) as [k|] eqn:Ea; [|done].
    apply Hmove; auto.
  - destruct (top_card _) as [card|] eqn:Et; [|done].
    destruct (accepting_foundation g card) as [k|] eqn:Ea; [|done].
    apply Hmove; eauto.
Qed.

(** X16. Drawing, recycling, a double click, auto-complete and the release
    that ends a consistent drag neither lose nor duplicate a card: the card
    objects on the table afterwards are the card objects before. *)
Theorem moves_keep_the_cards (g g' : Game) (e : Event) :
  is_move e = true ->
  (forall hit, e = Release hit -> drag_consistent g) ->
  handle_event g e = Some g' ->
  card_id <$> table_cards g' ≡ₚ card_id <$> table_cards g.
Proof.
  intros Hmove Hcons H.
  destruct e as [deck| |fuel|ptr|ptr|hit]; simpl in *; try done.
  - unfold auto_move_to_foundation in H.
    destruct (auto_loop fuel (save_state g)) as [g1|] eqn:E; [|done].
    simpl in H. injection H as <-. rewrite table_cards_check_win.
    by rewrite (card_ids_auto_loop _ _ _ E).
  - by eapply card_ids_handle_click.
  - injection H as <-. apply card_ids_double_click.
  - eapply card_ids_handle_drop; [|done]. by eapply Hcons.
Qed.

Lemma moves_keep_the_cards_witness :
  card_id <$> table_cards dropped_game ≡ₚ card_id <$> table_cards drag_game.
Proof.
  apply (moves_keep_the_cards drag_game dropped_game
           (Release (only (Foundation 0))));
    [reflexivity| |vm_compute; reflexivity].
  intros hit _ _ src Hsrc. injection Hsrc as <-.
  exists [mkCard 2 hearts R3 false]. split; [reflexivity|].
  intros c Hc. injection Hc as <-.
  apply (bool_decide_unpack _). vm_compute. exact I.
Defined.

(** ** Press and release *)

Lemma start_drag_consistent (g g' : Game) (pile : PileId) (card : Card) :
  dragging g = false -> start_drag g pile card = Some g' ->
  drag_consistent g'.
Proof.
  intros Hd Hs. rewrite (start_drag_Some _ _ _ _ Hs).
  assert (Hidle : forall run src,
             drag_consistent (set_drag g (dragging g) run src)).
  { intros run src Hdrag. simpl in Hdrag. congruence. }
  destruct pile as [| |i|k].
  - intros Hdrag. congruence.
  - simpl. destruct (top_card (pile_cards g Waste)) as [top|] eqn:Et;
      simpl; [|apply Hidle].
    intros _ src [= <-]. simpl.
    apply last_Some in Et as [below Hb]. by exists below.
  - simpl. destruct (top_card (pile_cards g (Foundation i))) as [top|] eqn:Et;
      simpl; [|apply Hidle].
    intros _ src [= <-].
    apply last_Some in Et as [below Hb]. by exists below.
  - simpl. unfold remove_cards_from.
    destruct (index_of card (pile_cards g (Tableau k))) as [n|] eqn:En;
      simpl; [|apply Hidle].
    destruct (drop n (pile_cards g (Tableau k))) as [|c run] eqn:Er;
      [apply Hidle|].
    intros _ src [= <-]. exists (take n (pile_cards g (Tableau k))).
    split.
    + change (pile_cards g (Tableau k)
              = take n (pile_cards g (Tableau k)) ++ c :: run).
      by rewrite <- Er, take_drop.
    + intros c' [= <-].
      assert (Hc : c = card).
      { pose proof (index_of_Some _ _ _ En) as Hn.
        rewrite <- (Nat.add_0_r n), <- lookup_drop, Er in Hn.
        by injection Hn. }
      subst c. by apply index_of_first.
Qed.

Lemma handle_click_consistent (g g' : Game) (ptr : Pointer) :
  dragging g = false -> handle_click g ptr = Some g' -> drag_consistent g'.
Proof.
  intros Hd H.
  destruct (handle_click_cases _ _ _ H)
    as [->|[->|(pile & k & card & _ & _ & Hs)]].
  - intros Hdrag; congruence.
  - intros Hdrag. pose proof (steady_draw_card_from_stock g) as [Hs _].
    pose proof (f_equal (fun x => x.1.1) Hs) as Hs1. simpl in Hs1.
    congruence.
  - by eapply start_drag_consistent.
Qed.

(** X17. A press of the left button directly followed by its release never
    loses or duplicates a card, wherever the two happen: [start_drag] picks
    up a run that [handle_drop] finds again in the source pile. *)
Theorem press_release_keeps_the_cards (g g' : Game) (ptr : Pointer)
    (hit : PileId -> bool) :
  dragging g = false ->
  (g1 ← handle_click g ptr; handle_drop g1 hit) = Some g' ->
  card_id <$> table_cards g' ≡ₚ card_id <$> table_cards g.
Proof.
  intros Hd H.
  destruct (handle_click g ptr) as [g1|] eqn:Ec; [|done]. simpl in H.
  rewrite (card_ids_handle_drop g1 g' hit); [|  |done].
  - by eapply card_ids_handle_click.
  - by eapply handle_click_consistent.
Qed.

Lemma press_release_keeps_the_cards_witness :
  card_id <$> table_cards dropped_game
  ≡ₚ card_id <$> table_cards
                  (double_click first_game (OnPile (Tableau 0) (Some 0%nat))).
Proof.
  apply (press_release_keeps_the_cards
           (double_click first_game (OnPile (Tableau 0) (Some 0%nat)))
           dropped_game (OnPile (Tableau 1) (Some 1%nat))
           (only (Foundation 0)));
    vm_compute; reflexivity.
Defined.

(** ** A release after the table was rebuilt *)

Lemma table_cards_set_id (g : Game) (p : PileId) :
  table_cards (set_pile_cards g p (pile_cards g p)) = table_cards g.
Proof.
  unfold table_cards, pile_cards. destruct p as [| |i|i]; simpl; try done.
  - rewrite f_cards_alter.
    destruct (foundations g !! i) as [f|] eqn:E; simpl.
    + rewrite list_insert_id; [done|]. by rewrite list_lookup_fmap, E.
    + rewrite list_insert_ge; [done|]. rewrite length_fmap.
      by apply lookup_ge_None.
  - destruct (tableaus g !! i) as [t|] eqn:E; simpl.
    + by rewrite list_insert_id.
    + rewrite list_insert_ge; [done|]. by apply lookup_ge_None.
Qed.

(** X18. When the first dragged card is no longer in the source tableau at
    the release (the piles were rebuilt by [undo] or [new_game] while the
    button was held), [remove_cards_from] removes nothing, and the dragged
    run is still put on the target: the table then holds the cards it held
    and the dragged run in addition. *)
Theorem stale_drop_adds_cards (g : Game) (k : nat) (hit : PileId -> bool)
    (target : PileId) (first_card : Card) (run : list Card) :
  dragging g = true ->
  drag_source g = Some (Tableau k) ->
  dragged_cards g = first_card :: run ->
  first_card ∉ pile_cards g (Tableau k) ->
  find_drop_target g hit = Some target ->
  target <> Tableau k ->
  exists g',
    handle_drop g hit = Some g'
    /\ card_id <$> table_cards g'
       ≡ₚ (card_id <$> table_cards g) ++ (card_id <$> dragged_cards g)
    /\ card_id <$> pile_cards g' target
       = (card_id <$> pile_cards g target) ++ (card_id <$> dragged_cards g).
Proof.
  intros Hd Hs Hrun Hnot Hfind Hne. unfold handle_drop.
  rewrite Hd, Hs. simpl.
  set (g0 := set_drag g false (dragged_cards g) (Some (Tableau k))).
  change (find_drop_target g0 hit) with (find_drop_target g hit).
  rewrite Hfind, bool_decide_eq_true_2 by done.
  eexists. split; [reflexivity|].
  destruct (find_drop_target_exists g hit target Hfind) as [Hex _].
  assert (Hrem : remove_run (save_state g0) (Tableau k)
                 = set_pile_cards (save_state g0) (Tableau k)
                     (pile_cards (save_state g0) (Tableau k))).
  { unfold remove_run.
    change (dragged_cards (save_state g0)) with (dragged_cards g).
    rewrite Hrun. unfold remove_cards_from.
    change (pile_cards (save_state g0) (Tableau k))
      with (pile_cards g (Tableau k)).
    by rewrite (proj2 (index_of_None _ _) Hnot). }
  assert (Hscore : forall x, table_cards (score_drop x (Tableau k) target)
                             = table_cards x).
  { intros x. unfold score_drop. by destruct target. }
  split.
  - rewrite table_cards_check_win.
    change (table_cards (set_drag ?x ?a ?b ?c)) with (table_cards x).
    unfold execute_drop. rewrite card_ids_reveal, Hscore, Hrem.
    rewrite (card_ids_set_append _ target _ (card_id <$> dragged_cards g)).
    + by rewrite table_cards_set_id.
    + by apply pile_exists_set.
    + unfold add_cards. by rewrite fmap_app.
  - rewrite pile_cards_check_win.
    change (pile_cards (set_drag ?x ?a ?b ?c) target) with (pile_cards x target).
    unfold execute_drop.
    assert (Hrev : forall x, pile_cards (reveal x (Tableau k)) target
                             = pile_cards x target).
    { intros x. unfold reveal. destruct (top_card _) as [top|]; [|done].
      destruct (negb (face_up top)); [|done].
      change (pile_cards (add_score ?y ?z) target) with (pile_cards y target).
      by rewrite pile_cards_set_ne. }
    assert (Hsc : forall x, pile_cards (score_drop x (Tableau k) target) target
                            = pile_cards x target).
    { intros x. unfold score_drop. by destruct target. }
    rewrite Hrev, Hsc, Hrem.
    assert (Hset : forall x cs, pile_exists x target ->
                                pile_cards (set_pile_cards x target cs) target
                                = cs).
    { intros x cs Hx. destruct target as [| |i|i]; try done.
      - rewrite pile_cards_set_foundation. by rewrite decide_True.
      - rewrite pile_cards_set_tableau. by rewrite decide_True. }
    rewrite Hset by by apply pile_exists_set.
    unfold add_cards. rewrite fmap_app. f_equal.
    by rewrite pile_cards_set_ne.
Qed.

Lemma stale_game_reachable : reachable stale_game.
Proof.
  apply (play_reachable undo_in_drag first_game);
    [apply first_game_reachable|].
  vm_compute. reflexivity.
Qed.

Lemma stale_drop_adds_cards_witness :
  reachable stale_game
  /\ exists g',
       handle_drop stale_game (only (Foundation 0)) = Some g'
       /\ card_id <$> table_cards g'
          ≡ₚ (card_id <$> table_cards stale_game)
             ++ (card_id <$> dragged_cards stale_game)
       /\ card_id <$> pile_cards g' (Foundation 0)
          = (card_id <$> pile_cards stale_game (Foundation 0))
            ++ (card_id <$> dragged_cards stale_game).
Proof.
  split; [apply stale_game_reachable|].
  apply (stale_drop_adds_cards stale_game 0%nat (only (Foundation 0))
           (Foundation 0) (mkCard 0 hearts RA true) []);
    try (vm_compute; reflexivity).
  - apply (bool_decide_unpack _). vm_compute. exact I.
  - discriminate.
Defined.

(** ** Where a click lands *)

Lemma is_int_spec (z : Z) : is_int z = true <-> INT_MIN <= z <= INT_MAX.
Proof. unfold is_int. by rewrite andb_true_iff, !Z.leb_le. Qed.

Lemma int_add_small (a b : Z) :
  INT_MIN <= a + b <= INT_MAX -> int_add a b = a + b.
Proof.
  unfold int_add, INT_MIN, INT_MAX. intros H. rewrite Z.mod_small; lia.
Qed.

Lemma collidepoint_spec (r : Rect) (pos : Z * Z) :
  INT_MIN <= r_x r + r_w r <= INT_MAX ->
  INT_MIN <= r_y r + r_h r <= INT_MAX ->
  collidepoint r pos = true
  <-> r_x r <= pos.1 < r_x r + r_w r /\ r_y r <= pos.2 < r_y r + r_h r.
Proof.
  intros Hx Hy. unfold collidepoint.
  rewrite !int_add_small by done.
  rewrite !andb_true_iff, !Z.leb_le, !Z.ltb_lt. lia.
Qed.

Lemma collidepoint_false (r : Rect) (pos : Z * Z) :
  pos.1 < r_x r
  \/ pos.2 < r_y r
  \/ (INT_MIN <= r_x r + r_w r <= INT_MAX /\ r_x r + r_w r <= pos.1)
  \/ (INT_MIN <= r_y r + r_h r <= INT_MAX /\ r_y r + r_h r <= pos.2) ->
  collidepoint r pos = false.
Proof.
  intros H. apply not_true_is_false. unfold collidepoint.
  rewrite !andb_true_iff, !Z.leb_le, !Z.ltb_lt.
  intros [[[H1 H2] H3] H4].
  destruct H as [H|[H|[[Hr H]|[Hr H]]]]; [lia|lia| |].
  - rewrite int_add_small in H2 by done. lia.
  - rewrite int_add_small in H4 by done. lia.
Qed.

Lemma contains_point_spec (pl : Places) (c : Card) (pos : Z * Z) (x y : Z) :
  pl (uid c) = (x, y) ->
  INT_MIN <= x + CARD_WIDTH <= INT_MAX ->
  INT_MIN <= y + CARD_HEIGHT <= INT_MAX ->
  contains_point pl c pos = true
  <-> x <= pos.1 < x + CARD_WIDTH /\ y <= pos.2 < y + CARD_HEIGHT.
Proof.
  intros Hpl Hx Hy. unfold contains_point, card_rect. rewrite Hpl.
  by apply collidepoint_spec.
Qed.

Lemma contains_point_false (pl : Places) (c : Card) (pos : Z * Z) (x y : Z) :
  pl (uid c) = (x, y) ->
  pos.1 < x
  \/ pos.2 < y
  \/ (INT_MIN <= x + CARD_WIDTH <= INT_MAX /\ x + CARD_WIDTH <= pos.1)
  \/ (INT_MIN <= y + CARD_HEIGHT <= INT_MAX /\ y + CARD_HEIGHT <= pos.2) ->
  contains_point pl c pos = false.
Proof.
  intros Hpl H. unfold contains_point, card_rect. rewrite Hpl.
  by apply collidepoint_false.
Qed.

Lemma find_reverse_last {A} (P : A -> bool) (l : list A) (i : nat) (x : A) :
  l !! i = Some x ->
  P x = true ->
  (forall j y, (i < j)%nat -> l !! j = Some y -> P y = false) ->
  List.find P (reverse l) = Some x.
Proof.
  induction l as [|z l IH] using rev_ind; intros Hi Hx Habove; [done|].
  rewrite reverse_snoc. simpl.
  destruct (decide (i = length l)) as [->|Hne].
  - rewrite list_lookup_middle in Hi by done. injection Hi as ->.
    by rewrite Hx.
  - assert (Hlt : (i < length l)%nat).
    { apply lookup_lt_Some in Hi. rewrite length_app in Hi. simpl in Hi. lia. }
    rewrite (Habove (length l) z Hlt) by (by apply list_lookup_middle).
    apply IH; [by rewrite lookup_app_l in Hi|done|].
    intros j y Hj Hy. apply (Habove j y Hj).
    rewrite lookup_app_l; [done|]. by eapply lookup_lt_Some.
Qed.

Lemma find_all_false {A} (P : A -> bool) (l : list A) :
  (forall x, x ∈ l -> P x = false) -> List.find P l = None.
Proof.
  induction l as [|x l IH]; intros H; [done|]. simpl.
  rewrite (H x) by apply list_elem_of_here.
  apply IH. intros y Hy. apply H. by apply list_elem_of_further.
Qed.

Lemma tableau_offset_bounds (c : Card) (i : nat) :
  0 <= Z.of_nat i * (if face_up c then TABLEAU_OFFSET else TABLEAU_OFFSET / 2)
  <= Z.of_nat i * TABLEAU_OFFSET.
Proof.
  unfold TABLEAU_OFFSET. destruct (face_up c); [lia|].
  change (25 / 2) with 12. lia.
Qed.

(** [TableauPile.update_positions] on a pile of distinct card objects, all
    of whose places are C ints: it returns, every card of the pile lies at
    its place in the column and no other card has moved. *)
Lemma tableau_update_from_Some (xy : Z * Z) (cards : list Card) :
  forall (i : nat) (pl : Places),
    INT_MIN <= xy.1 <= INT_MAX ->
    INT_MIN <= xy.2 ->
    xy.2 + Z.of_nat (i + length cards) * TABLEAU_OFFSET <= INT_MAX ->
    NoDup (uid <$> cards) ->
    exists pl',
      tableau_update_from i xy cards pl = Some pl'
      /\ (forall j c, cards !! j = Some c ->
                      pl' (uid c) = tableau_place xy (i + j) c)
      /\ (forall u, u ∉ uid <$> cards -> pl' u = pl u).
Proof.
  induction cards as [|c cards IH]; intros i pl Hx Hy Hmax Hnd.
  - exists pl. split; [done|]. split; [|done]. intros j c. by rewrite lookup_nil.
  - simpl. rewrite fmap_cons in Hnd. apply NoDup_cons in Hnd as [Hc Hnd].
    simpl in Hmax.
    pose proof (tableau_offset_bounds c i) as Hoff.
    assert (Hfit : is_int (tableau_place xy i c).1
                   && is_int (tableau_place xy i c).2 = true).
    { apply andb_true_iff. rewrite !is_int_spec. simpl.
      unfold TABLEAU_OFFSET in *. lia. }
    unfold set_position. rewrite Hfit. simpl.
    destruct (IH (S i) (fun u => if decide (u = uid c)
                                 then tableau_place xy i c else pl u))
      as (pl' & Hup & Hin & Hout); [done|done| |done|].
    { rewrite Nat.add_succ_comm. exact Hmax. }
    exists pl'. split; [exact Hup|]. split.
    + intros [|j] c' Hj; simpl in Hj.
      * injection Hj as <-. rewrite (Hout _ Hc), Nat.add_0_r.
        by rewrite decide_True.
      * rewrite (Hin j c' Hj). by rewrite Nat.add_succ_comm.
    + intros u Hu. apply not_elem_of_cons in Hu as [Hne Hu].
      rewrite (Hout u Hu). by rewrite decide_False.
Qed.

(** A click on the part of a face-up card of a column that no card above it
    covers finds this card. *)
Lemma get_card_at_strip (pl : Places) (xy : Z * Z) (cards : list Card)
    (i : nat) (c : Card) (pos : Z * Z) :
  (forall j y, cards !! j = Some y -> pl (uid y) = tableau_place xy j y) ->
  cards !! i = Some c ->
  face_up c = true ->
  INT_MIN <= xy.1 ->
  xy.1 + CARD_WIDTH <= INT_MAX ->
  INT_MIN <= xy.2 ->
  xy.2 + Z.of_nat i * TABLEAU_OFFSET + CARD_HEIGHT <= INT_MAX ->
  xy.1 <= pos.1 < xy.1 + CARD_WIDTH ->
  xy.2 + Z.of_nat i * TABLEAU_OFFSET <= pos.2 ->
  pos.2 < xy.2 + (Z.of_nat i + 1) * TABLEAU_OFFSET
  \/ (S i = length cards
      /\ pos.2 < xy.2 + Z.of_nat i * TABLEAU_OFFSET + CARD_HEIGHT) ->
  get_card_at pl cards pos = Some c.
Proof.
  intros Hpl Hi Hup Hx0 Hx1 Hy0 Hy1 Hx Hy Hstrip. unfold get_card_at.
  apply (find_reverse_last _ _ i c); [done| |].
  - rewrite Hup, andb_true_r.
    apply (contains_point_spec pl c pos xy.1
             (xy.2 + Z.of_nat i * TABLEAU_OFFSET)).
    + rewrite (Hpl i c Hi). unfold tableau_place. by rewrite Hup.
    + unfold CARD_WIDTH in *. lia.
    + unfold TABLEAU_OFFSET, CARD_HEIGHT in *. lia.
    + unfold TABLEAU_OFFSET, CARD_HEIGHT, CARD_WIDTH in *. lia.
  - intros j y Hj Hyl.
    destruct (face_up y) eqn:Ef; [|apply andb_false_r].
    rewrite andb_true_r.
    apply (contains_point_false pl y pos xy.1
             (xy.2 + Z.of_nat j * TABLEAU_OFFSET)).
    + rewrite (Hpl j y Hyl). unfold tableau_place. by rewrite Ef.
    + right. left. destruct Hstrip as [Hs|[Hs _]].
      * unfold TABLEAU_OFFSET in *. nia.
      * apply lookup_lt_Some in Hyl. lia.
Qed.

Lemma get_card_at_outside (pl : Places) (xy : Z * Z) (cards : list Card)
    (pos : Z * Z) :
  (forall j y, cards !! j = Some y -> pl (uid y) = tableau_place xy j y) ->
  INT_MIN <= xy.1 ->
  xy.1 + CARD_WIDTH <= INT_MAX ->
  pos.1 < xy.1 \/ xy.1 + CARD_WIDTH <= pos.1 \/ pos.2 < xy.2 ->
  get_card_at pl cards pos = None.
Proof.
  intros Hpl Hx0 Hx1 Hout. unfold get_card_at. rewrite find_all_false; [done|].
  intros y Hy.
  apply (proj1 (elem_of_reverse _ _)), list_elem_of_lookup in Hy as [j Hj].
  rewrite (contains_point_false pl y pos xy.1
             (xy.2 + Z.of_nat j * (if face_up y then TABLEAU_OFFSET
                                   else TABLEAU_OFFSET / 2))); [done| |].
  - by rewrite (Hpl j y Hj).
  - pose proof (tableau_offset_bounds y j) as Hoff.
    unfold CARD_WIDTH, INT_MIN in *. lia.
Qed.

(** X19. [TableauPile.update_positions] on a pile of distinct card objects
    whose column fits into C ints returns, and [get_card_at] afterwards
    finds a face-up card [i] at every point of the column between the top
    edge of this card and the top edge of the next one (for the top card:
    the whole card); a point left of, right of or above the column finds no
    card. *)
Theorem click_finds_the_visible_card (pl : Places) (xy : Z * Z)
    (cards : list Card) (pos : Z * Z) :
  NoDup (uid <$> cards) ->
  INT_MIN <= xy.1 ->
  xy.1 + CARD_WIDTH <= INT_MAX ->
  INT_MIN <= xy.2 ->
  xy.2 + Z.of_nat (length cards) * TABLEAU_OFFSET + CARD_HEIGHT <= INT_MAX ->
  is_int pos.1 = true ->
  is_int pos.2 = true ->
  exists pl',
    tableau_update_positions xy cards pl = Some pl'
    /\ (forall (i : nat) (c : Card),
          cards !! i = Some c ->
          face_up c = true ->
          xy.1 <= pos.1 < xy.1 + CARD_WIDTH ->
          xy.2 + Z.of_nat i * TABLEAU_OFFSET <= pos.2 ->
          pos.2 < xy.2 + (Z.of_nat i + 1) * TABLEAU_OFFSET
          \/ (S i = length cards
              /\ pos.2 < xy.2 + Z.of_nat i * TABLEAU_OFFSET + CARD_HEIGHT) ->
          get_card_at pl' cards pos = Some c)
    /\ (pos.1 < xy.1 \/ xy.1 + CARD_WIDTH <= pos.1 \/ pos.2 < xy.2 ->
        get_card_at pl' cards pos = None).
Proof.
  intros Hnd Hx0 Hx1 Hy0 Hy1 _ _.
  destruct (tableau_update_from_Some xy cards 0%nat pl)
    as (pl' & Hup & Hin & _); [| | |done|].
  { unfold CARD_WIDTH in *. lia. }
  { done. }
  { simpl. unfold CARD_HEIGHT in *. lia. }
  exists pl'. split; [exact Hup|]. split.
  - intros i c Hi Hc. apply (get_card_at_strip pl' xy cards i c); try done.
    apply lookup_lt_Some in Hi. unfold TABLEAU_OFFSET in *. nia.
  - by apply get_card_at_outside.
Qed.

Lemma click_finds_the_visible_card_witness :
  exists pl',
    tableau_update_positions (170, 200)
      [mkCard 2 hearts R3 false; mkCard 1 hearts R2 true] fresh_places
    = Some pl'
    /\ pl' 2%nat = (170, 200)
    /\ pl' 1%nat = (170, 225)
    /\ get_card_at pl' [mkCard 2 hearts R3 false; mkCard 1 hearts R2 true]
         (180, 230)
       = Some (mkCard 1 hearts R2 true).
Proof.
  destruct (click_finds_the_visible_card fresh_places (170, 200)
              [mkCard 2 hearts R3 false; mkCard 1 hearts R2 true]
              (180, 230))
    as (pl' & Hup & Hstrip & _).
  - apply (bool_decide_unpack _). vm_compute. exact I.
  - vm_compute. discriminate.
  - vm_compute. discriminate.
  - vm_compute. discriminate.
  - vm_compute. discriminate.
  - reflexivity.
  - reflexivity.
  - exists pl'. split; [exact Hup|].
    vm_compute in Hup. injection Hup as <-.
    split; [reflexivity|]. split; [reflexivity|].
    apply (Hstrip 1%nat);
      [reflexivity|reflexivity|vm_compute; split; [discriminate|reflexivity]
      |vm_compute; discriminate|left; vm_compute; reflexivity].
Defined.

(** ** From the click to the drag *)

Lemma find_index_at {A} (p : nat -> A -> bool) (l : list A) :
  forall i0 k x,
    l !! k = Some x ->
    p (i0 + k)%nat x = true ->
    (forall j y, (j < k)%nat -> l !! j = Some y -> p (i0 + j)%nat y = false) ->
    find_index p i0 l = Some (i0 + k)%nat.
Proof.
  induction l as [|a l IH]; intros i0 k x Hk Hp Hbelow; [done|]. simpl.
  destruct k as [|k].
  - simpl in Hk. injection Hk as ->. rewrite Nat.add_0_r in *. by rewrite Hp.
  - pose proof (Hbelow 0%nat a (Nat.lt_0_succ k) eq_refl) as H0.
    rewrite Nat.add_0_r in H0. rewrite H0.
    rewrite <- Nat.add_succ_comm. apply (IH (S i0) k x); [done| |].
    + by rewrite Nat.add_succ_comm.
    + intros j y Hj Hy. rewrite Nat.add_succ_comm.
      apply (Hbelow (S j) y); [lia|done].
Qed.

Lemma index_of_at (cards : list Card) (i : nat) (c : Card) :
  cards !! i = Some c -> c ∉ take i cards -> index_of c cards = Some i.
Proof.
  intros Hi Hnot.
  transitivity (index_of c (take i cards ++ c :: drop (S i) cards));
    [by rewrite take_drop_middle|].
  rewrite (index_of_app_first c _ _ Hnot), length_take.
  apply lookup_lt_Some in Hi. f_equal. lia.
Qed.

Lemma forallb_imap_lookup {A} (l : list A) :
  forall (F : nat -> A -> bool),
    forallb id (imap F l) = true ->
    forall i x, l !! i = Some x -> F i x = true.
Proof.
  induction l as [|a l IH]; intros F H i x Hi; [done|].
  simpl in H. apply andb_true_iff in H as [H0 H].
  destruct i as [|i]; simpl in Hi.
  - by injection Hi as <-.
  - by apply (IH (F ∘ S) H i x).
Qed.

Lemma in_place_spec (pl : Places) (g : Game) :
  in_place pl g = true ->
  (forall c, c ∈ waste g -> pl (uid c) = pile_xy Waste)
  /\ (forall i f c,
        foundations g !! i = Some f -> c ∈ f_cards f ->
        pl (uid c) = pile_xy (Foundation i))
  /\ (forall k t j c,
        tableaus g !! k = Some t -> t !! j = Some c ->
        pl (uid c) = tableau_place (pile_xy (Tableau k)) j c).
Proof.
  unfold in_place. rewrite !andb_true_iff. intros [[Hw Hf] Ht].
  split; [|split].
  - intros c Hc. rewrite forallb_forall in Hw.
    apply (bool_decide_eq_true _), Hw. by apply list_elem_of_In.
  - intros i f c Hi Hc.
    pose proof (forallb_imap_lookup _ _ Hf i f Hi) as H. simpl in H.
    rewrite forallb_forall in H.
    apply (bool_decide_eq_true _), H. by apply list_elem_of_In.
  - intros k t j c Hk Hj.
    pose proof (forallb_imap_lookup _ _ Ht k t Hk) as H. simpl in H.
    pose proof (forallb_imap_lookup _ _ H j c Hj) as H'. simpl in H'.
    by apply (bool_decide_eq_true _).
Qed.

Lemma top_card_elem (cards : list Card) (c : Card) :
  top_card cards = Some c -> c ∈ cards.
Proof.
  unfold top_card. intros H. apply last_Some in H as [l ->].
  apply elem_of_app. right. apply list_elem_of_here.
Qed.

(** With the cards in place, the test of [get_pile_at] for the waste and for
    a foundation is the test of the rectangle of the pile. *)
Lemma on_pile_rect (pl : Places) (g : Game) (p : PileId) (pos : Z * Z) :
  in_place pl g = true ->
  p = Waste \/ (exists i, p = Foundation i) ->
  on_pile pl g p pos = collidepoint (pile_rect p) pos.
Proof.
  intros Hin Hp. unfold on_pile.
  destruct (top_card (pile_cards g p)) as [top|] eqn:Et; [|done].
  apply top_card_elem in Et.
  destruct (in_place_spec pl g Hin) as (Hw & Hf & _).
  assert (Hxy : pl (uid top) = pile_xy p).
  { destruct Hp as [->|[i ->]]; [by apply Hw|].
    unfold pile_cards in Et.
    destruct (foundations g !! i) as [f|] eqn:E; simpl in Et;
      [by eapply Hf|by apply elem_of_nil in Et]. }
  unfold contains_point, card_rect, pile_rect. by rewrite Hxy.
Qed.

(** Stock, waste and foundations lie in the row above the tableaus. *)
Lemma on_pile_upper_row (pl : Places) (g : Game) (p : PileId) (pos : Z * Z) :
  in_place pl g = true ->
  p = Waste \/ (exists i, p = Foundation i) ->
  160 <= pos.2 ->
  on_pile pl g p pos = false.
Proof.
  intros Hin Hp Hy. rewrite on_pile_rect by done.
  apply collidepoint_false. right. right. right.
  assert (Hxy : (pile_xy p).2 = 50) by (destruct Hp as [->|[i ->]]; done).
  simpl. rewrite Hxy. unfold CARD_HEIGHT, INT_MIN, INT_MAX. lia.
Qed.

(** The tableau columns do not overlap. *)
Lemma on_tableau_other_column (pl : Places) (g : Game) (j : nat)
    (pos : Z * Z) :
  in_place pl g = true ->
  (j < 7)%nat ->
  pos.1 < (pile_xy (Tableau j)).1
  \/ (pile_xy (Tableau j)).1 + CARD_WIDTH <= pos.1 ->
  on_tableau pl g j pos = false.
Proof.
  intros Hin Hj Hx. unfold on_tableau.
  destruct (in_place_spec pl g Hin) as (_ & _ & Ht).
  assert (Hcol : pos.1 < (pile_xy (Tableau j)).1
                 \/ pos.2 < 200
                 \/ (INT_MIN <= (pile_xy (Tableau j)).1 + CARD_WIDTH
                                <= INT_MAX
                     /\ (pile_xy (Tableau j)).1 + CARD_WIDTH <= pos.1)
                 \/ (INT_MIN <= 200 + CARD_HEIGHT <= INT_MAX
                     /\ 200 + CARD_HEIGHT <= pos.2)).
  { destruct Hx as [Hx|Hx]; [by left|]. right. right. left.
    split; [|done]. simpl.
    unfold CARD_WIDTH, CARD_GAP, INT_MIN, INT_MAX. lia. }
  apply orb_false_intro.
  - apply not_true_is_false. intros H.
    apply existsb_exists in H as (y & Hy & Hc).
    apply list_elem_of_In, (proj1 (elem_of_reverse _ _)),
      list_elem_of_lookup in Hy as [n Hn].
    unfold pile_cards in Hn.
    destruct (tableaus g !! j) as [t|] eqn:E; simpl in Hn; [|done].
    pose proof (Ht j t n y E Hn) as Hxy.
    rewrite (contains_point_false pl y pos _ _ Hxy) in Hc; [done|].
    destruct Hx as [Hx|Hx]; [by left|]. right. right. left.
    split; [|done]. simpl.
    unfold CARD_WIDTH, CARD_GAP, INT_MIN, INT_MAX. lia.
  - apply andb_false_intro2. by apply collidepoint_false.
Qed.

(** X20. In a game with the seven tableaus of [setup_piles] and the cards in
    place, a click on the visible strip of the face-up card [i] of tableau
    [k] is resolved by [get_pile_at] and [get_card_at] to this pile and this
    card, and [handle_click] starts the drag of the run from card [i] to the
    top of the pile. *)
Theorem click_on_strip_starts_drag (pl : Places) (g : Game) (k i : nat)
    (cards : list Card) (c : Card) (pos : Z * Z) :
  in_place pl g = true ->
  length (tableaus g) = 7%nat ->
  tableaus g !! k = Some cards ->
  cards !! i = Some c ->
  face_up c = true ->
  c ∉ take i cards ->
  (pile_xy (Tableau k)).2 + Z.of_nat i * TABLEAU_OFFSET + CARD_HEIGHT
  <= INT_MAX ->
  (pile_xy (Tableau k)).1 <= pos.1 < (pile_xy (Tableau k)).1 + CARD_WIDTH ->
  (pile_xy (Tableau k)).2 + Z.of_nat i * TABLEAU_OFFSET <= pos.2 ->
  pos.2 < (pile_xy (Tableau k)).2 + (Z.of_nat i + 1) * TABLEAU_OFFSET
  \/ (S i = length cards
      /\ pos.2 < (pile_xy (Tableau k)).2 + Z.of_nat i * TABLEAU_OFFSET
                  + CARD_HEIGHT) ->
  pointer_at pl g pos = OnPile (Tableau k) (Some i)
  /\ handle_click g (pointer_at pl g pos)
     = Some (set_drag g true (drop i cards) (Some (Tableau k))).
Proof.
  intros Hin H7 Hk Hi Hup Hfirst Hfit Hx Hy Hstrip.
  pose proof (pile_cards_tableau g k cards Hk) as Hpc.
  destruct (in_place_spec pl g Hin) as (_ & _ & Ht).
  assert (Hk7 : (k < 7)%nat) by (rewrite <- H7; by eapply lookup_lt_Some).
  assert (Hrow : 200 <= pos.2).
  { simpl in Hy. unfold TABLEAU_OFFSET in Hy. lia. }
  assert (Hxk : INT_MIN <= (pile_xy (Tableau k)).1
                /\ (pile_xy (Tableau k)).1 + CARD_WIDTH <= INT_MAX).
  { simpl. unfold CARD_WIDTH, CARD_GAP, INT_MIN, INT_MAX. lia. }
  assert (Hcard : get_card_at pl cards pos = Some c).
  { apply (get_card_at_strip pl (pile_xy (Tableau k)) cards i c);
      try done; try apply Hxk.
    intros j y Hj. by apply (Ht k cards). }
  assert (Hpile : get_pile_at pl g pos = Some (Tableau k)).
  { unfold get_pile_at.
    assert (Hstock : collidepoint (pile_rect Stock) pos = false).
    { apply collidepoint_false. right. right. right. simpl.
      unfold CARD_HEIGHT, INT_MIN, INT_MAX. lia. }
    rewrite Hstock, (on_pile_upper_row pl g Waste) by (auto || lia).
    rewrite (find_index_None _ (foundations g))
      by (intros n f _; apply on_pile_upper_row; [done|eauto|lia]).
    rewrite (find_index_at _ (tableaus g) 0%nat k cards Hk); [done| |].
    - simpl. unfold on_tableau. apply orb_true_intro. left.
      apply existsb_exists. exists c. split.
      + apply list_elem_of_In, (proj2 (elem_of_reverse _ _)),
          list_elem_of_lookup.
        exists i. by rewrite Hpc.
      + apply (contains_point_spec pl c pos (pile_xy (Tableau k)).1
                 ((pile_xy (Tableau k)).2 + Z.of_nat i * TABLEAU_OFFSET)).
        * rewrite (Ht k cards i c Hk Hi). unfold tableau_place.
          by rewrite Hup.
        * unfold INT_MIN in *. lia.
        * simpl. simpl in Hfit.
          unfold INT_MIN, TABLEAU_OFFSET, CARD_HEIGHT in *. lia.
        * simpl. simpl in Hx, Hy, Hstrip.
          unfold TABLEAU_OFFSET, CARD_HEIGHT, CARD_WIDTH in *. lia.
    - intros j y Hj _. simpl. apply on_tableau_other_column; [done|lia|].
      right. simpl. simpl in Hx. unfold CARD_WIDTH, CARD_GAP in *. lia. }
  assert (Hptr : pointer_at pl g pos = OnPile (Tableau k) (Some i)).
  { unfold pointer_at. rewrite Hpile, Hpc, Hcard. simpl.
    by rewrite (index_of_at cards i c). }
  split; [done|]. rewrite Hptr. unfold handle_click. rewrite Hpc.
  destruct cards as [|c0 rest] eqn:Ec; [done|]. rewrite <- Ec in *.
  rewrite Hi, Hup, start_drag_spec. simpl.
  unfold remove_cards_from. rewrite Hpc, (index_of_at cards i c) by done.
  simpl. by rewrite (drop_S cards c i Hi).
Qed.

Lemma click_on_strip_starts_drag_witness :
  lay_out first_game fresh_places = Some first_places
  /\ pointer_at first_places first_game (180, 230)
     = OnPile (Tableau 1) (Some 1%nat)
  /\ handle_click first_game (pointer_at first_places first_game (180, 230))
     = Some (set_drag first_game true
               (drop 1 [mkCard 2 hearts R3 false; mkCard 1 hearts R2 true])
               (Some (Tableau 1))).
Proof.
  split.
  { unfold first_places.
    destruct (lay_out first_game fresh_places) eqn:E; [done|].
    vm_compute in E. discriminate. }
  apply (click_on_strip_starts_drag first_places first_game 1%nat 1%nat
           [mkCard 2 hearts R3 false; mkCard 1 hearts R2 true]
           (mkCard 1 hearts R2 true) (180, 230)).
  - vm_compute. reflexivity.
  - reflexivity.
  - reflexivity.
  - reflexivity.
  - reflexivity.
  - apply (bool_decide_unpack _). vm_compute. exact I.
  - vm_compute. discriminate.
  - vm_compute. split; [discriminate|reflexivity].
  - vm_compute. discriminate.
  - left. vm_compute. reflexivity.
Defined.

(** ** Clicks in the upper row *)

(** On the waste and on a foundation, [get_card_at] finds the top card and
    [start_drag] picks it up. *)
Lemma click_top_card (pl : Places) (g : Game) (p : PileId)
    (below : list Card) (top : Card) (pos : Z * Z) :
  in_place pl g = true ->
  p = Waste \/ (exists i, p = Foundation i) ->
  get_pile_at pl g pos = Some p ->
  pile_cards g p = below ++ [top] ->
  face_up top = true ->
  collidepoint (pile_rect p) pos = true ->
  handle_click g (pointer_at pl g pos) = Some (set_drag g true [top] (Some p)).
Proof.
  intros Hplace Hp Hpile Hcards Hup Hin.
  assert (Htop : contains_point pl top pos = true).
  { pose proof (on_pile_rect pl g p pos Hplace Hp) as H.
    unfold on_pile in H. rewrite Hcards, top_card_snoc in H. congruence. }
  assert (Hcard : get_card_at pl (pile_cards g p) pos = Some top).
  { unfold get_card_at. rewrite Hcards, reverse_snoc. simpl.
    by rewrite Htop, Hup. }
  destruct (index_of top (pile_cards g p)) as [k|] eqn:Ek.
  - pose proof (index_of_Some _ _ _ Ek) as Hk.
    unfold pointer_at. rewrite Hpile, Hcard. simpl. rewrite Ek.
    assert (Hdrag : start_drag g p top
                    = Some (set_drag g true [top] (Some p))).
    { rewrite start_drag_spec.
      destruct Hp as [->|[i ->]]; by rewrite Hcards, top_card_snoc. }
    unfold handle_click.
    destruct Hp as [->|[i ->]]; rewrite Hk, Hup;
      (destruct (pile_cards g _) as [|c0 rest] eqn:Ec;
       [by destruct below|]); exact Hdrag.
  - apply index_of_None in Ek. destruct Ek. rewrite Hcards.
    apply elem_of_app. right. apply list_elem_of_here.
Qed.

Lemma pile_rect_spec (p : PileId) (pos : Z * Z) :
  (pile_xy p).1 + CARD_WIDTH <= INT_MAX ->
  collidepoint (pile_rect p) pos = true
  <-> (pile_xy p).1 <= pos.1 < (pile_xy p).1 + CARD_WIDTH
      /\ (pile_xy p).2 <= pos.2 < (pile_xy p).2 + CARD_HEIGHT.
Proof.
  intros Hx. apply collidepoint_spec; simpl.
  - unfold CARD_WIDTH, INT_MIN in *.
    destruct p as [| |i|i]; simpl in *;
      unfold SCREEN_WIDTH, CARD_WIDTH, CARD_GAP in *; lia.
  - unfold CARD_HEIGHT, INT_MIN, INT_MAX. destruct p; simpl; lia.
Qed.

Lemma get_pile_at_waste (pl : Places) (g : Game) (pos : Z * Z) :
  in_place pl g = true ->
  collidepoint (pile_rect Waste) pos = true ->
  get_pile_at pl g pos = Some Waste.
Proof.
  intros Hplace Hin. unfold get_pile_at.
  apply pile_rect_spec in Hin; [|by vm_compute].
  assert (Hstock : collidepoint (pile_rect Stock) pos = false).
  { apply collidepoint_false. right. right. left. simpl. simpl in Hin.
    unfold CARD_WIDTH, CARD_GAP, INT_MIN, INT_MAX in *. lia. }
  rewrite Hstock, on_pile_rect by auto.
  rewrite (proj2 (pile_rect_spec Waste pos ltac:(by vm_compute))); done.
Qed.

Lemma get_pile_at_foundation (pl : Places) (g : Game) (pos : Z * Z)
    (i : nat) (f : FoundationPile) :
  in_place pl g = true ->
  length (foundations g) = 4%nat ->
  foundations g !! i = Some f ->
  collidepoint (pile_rect (Foundation i)) pos = true ->
  get_pile_at pl g pos = Some (Foundation i).
Proof.
  intros Hplace H4 Hf Hin. unfold get_pile_at.
  assert (Hi4 : (i < 4)%nat) by (rewrite <- H4; by eapply lookup_lt_Some).
  assert (Hfit : (pile_xy (Foundation i)).1 + CARD_WIDTH <= INT_MAX).
  { simpl. unfold SCREEN_WIDTH, CARD_WIDTH, CARD_GAP, INT_MAX. lia. }
  pose proof (proj1 (pile_rect_spec _ pos Hfit) Hin) as [Hx Hy].
  simpl in Hx, Hy.
  assert (Hstock : collidepoint (pile_rect Stock) pos = false).
  { apply collidepoint_false. right. right. left. simpl.
    unfold SCREEN_WIDTH, CARD_WIDTH, CARD_GAP, INT_MIN, INT_MAX in *. lia. }
  assert (Hwaste : on_pile pl g Waste pos = false).
  { rewrite on_pile_rect by auto.
    apply collidepoint_false. right. right. left. simpl.
    unfold SCREEN_WIDTH, CARD_WIDTH, CARD_GAP, INT_MIN, INT_MAX in *. lia. }
  rewrite Hstock, Hwaste.
  rewrite (find_index_at _ (foundations g) 0%nat i f Hf); [done| |].
  - simpl. by rewrite on_pile_rect by eauto.
  - intros j y Hj _. simpl. rewrite on_pile_rect by eauto.
    apply collidepoint_false. right. right. left. simpl.
    unfold SCREEN_WIDTH, CARD_WIDTH, CARD_GAP, INT_MIN, INT_MAX in *. lia.
Qed.

(** X21. Clicks in the upper row.  A click in the rectangle of the stock
    draws (or recycles).  With the cards in place, a click on the top card
    of the waste, or of one of the four foundations, when this card is face
    up, starts the drag of exactly this card from that pile. *)
Theorem click_in_upper_row (pl : Places) (g : Game) (pos : Z * Z) :
  (collidepoint (pile_rect Stock) pos = true ->
   handle_click g (pointer_at pl g pos) = Some (draw_card_from_stock g))
  /\ (forall below top,
        in_place pl g = true ->
        waste g = below ++ [top] ->
        face_up top = true ->
        collidepoint (pile_rect Waste) pos = true ->
        handle_click g (pointer_at pl g pos)
        = Some (set_drag g true [top] (Some Waste)))
  /\ (forall i f below top,
        in_place pl g = true ->
        length (foundations g) = 4%nat ->
        foundations g !! i = Some f ->
        f_cards f = below ++ [top] ->
        face_up top = true ->
        collidepoint (pile_rect (Foundation i)) pos = true ->
        handle_click g (pointer_at pl g pos)
        = Some (set_drag g true [top] (Some (Foundation i)))).
Proof.
  split; [|split].
  - intros Hin. unfold pointer_at, get_pile_at. by rewrite Hin.
  - intros below top Hplace Hcards Hup Hin.
    apply (click_top_card pl g Waste below top); auto.
    by apply get_pile_at_waste.
  - intros i f below top Hplace H4 Hf Hcards Hup Hin.
    apply (click_top_card pl g (Foundation i) below top); eauto.
    + by apply (get_pile_at_foundation pl g pos i f).
    + by rewrite (pile_cards_foundation g i f Hf).
Qed.

Lemma click_in_upper_row_witness :
  lay_out drag_game first_places = Some drag_places
  /\ drag_places 0%nat = (614, 50)
  /\ handle_click drag_game (pointer_at drag_places drag_game (620, 60))
     = Some (set_drag drag_game true [mkCard 0 hearts RA true]
               (Some (Foundation 0))).
Proof.
  split.
  { unfold drag_places.
    destruct (lay_out drag_game first_places) eqn:E; [done|].
    vm_compute in E. discriminate. }
  split; [reflexivity|].
  apply (proj2 (proj2 (click_in_upper_row drag_places drag_game (620, 60)))
           0%nat (mkFoundation (Some hearts) [mkCard 0 hearts RA true])
           [] (mkCard 0 hearts RA true));
    vm_compute; reflexivity.
Defined.
